(** * Pocket Scout v7: the adaptive decision engine

    A shallow embedding of the regime classifier ([HMMEngine]), the
    neural-network predictor ([AIEngine], in its pure JavaScript and its
    TensorFlow variants), the Q-learning policy ([RLEngine]) and the
    backtester ([BacktestingEngine]), with the properties the design
    document states about them.

    JavaScript numbers are kept abstract behind the class [JSNumber]; the
    engines are written once over it and read at two instances:
    - [DoubleNum], IEEE 754 binary64 on the kernel's primitive floats, which
      is what the program computes with;
    - [ExactNum], exact rationals extended with NaN, the idealisation in
      which the algebraic laws ([1 - 0.1 = 0.9], row sums) hold exactly. *)

From Stdlib Require Import QArith Qabs Qpower ZArith List Bool Lia Lqa Floats.
From stdpp Require Import gmap strings.
Import ListNotations.

Set Warnings "-inexact-float".

(* ===================================================================== *)
(** * JavaScript numbers *)
(* ===================================================================== *)

Class JSNumber (N : Type) := {
  lit : Q -> N;            (* a numeric literal of the source text *)
  nan : N;                 (* NaN; also what [undefined] becomes in arithmetic *)
  add : N -> N -> N;
  sub : N -> N -> N;
  mul : N -> N -> N;
  div : N -> N -> N;
  ltb : N -> N -> bool;    (* [a < b]; false as soon as one side is NaN *)
  truthy : N -> bool;      (* ToBoolean: false on 0 and on NaN *)
  nmin : N -> N -> N;      (* Math.min *)
  nmax : N -> N -> N       (* Math.max *)
}.

Arguments lit {N _} q%_Q.

Declare Scope js_scope.
Delimit Scope js_scope with js.
Notation "x + y" := (add x y) : js_scope.
Notation "x - y" := (sub x y) : js_scope.
Notation "x * y" := (mul x y) : js_scope.
Notation "x / y" := (div x y) : js_scope.
Notation "x <? y" := (ltb x y) : js_scope.
Notation "x >? y" := (ltb y x) (only parsing) : js_scope.

(** An integer counter ([wins], [rowSum], ...) entering an arithmetic
    expression. *)
Definition of_nat {N} `{JSNumber N} (n : nat) : N := lit (inject_Z (Z.of_nat n)).

(** ToNumber of a possibly missing value: [undefined] becomes NaN. *)
Definition num {N} `{JSNumber N} (o : option N) : N :=
  match o with Some x => x | None => nan end.

(** [!x] for a possibly missing number. *)
Definition falsy {N} `{JSNumber N} (o : option N) : bool :=
  match o with Some x => negb (truthy x) | None => true end.

(** ** IEEE 754 binary64 *)

Definition Z2F (z : Z) : float :=
  match z with
  | Z0 => 0%float
  | Zpos p => PrimFloat.of_uint63 (Uint63.of_Z (Zpos p))
  | Zneg p => PrimFloat.opp (PrimFloat.of_uint63 (Uint63.of_Z (Zpos p)))
  end.

(** A decimal literal [n / 10^k] denotes the double nearest to it; for
    [n] and [10^k] below [2^53] that is the correctly rounded quotient. *)
Definition float_lit (q : Q) : float :=
  PrimFloat.div (Z2F (Qnum q)) (Z2F (Zpos (Qden q))).

Definition float_truthy (x : float) : bool :=
  negb (PrimFloat.is_zero x || PrimFloat.is_nan x).

Definition float_min (a b : float) : float :=
  if PrimFloat.is_nan a || PrimFloat.is_nan b then PrimFloat.nan
  else if PrimFloat.ltb a b then a
  else if PrimFloat.ltb b a then b
  else if PrimFloat.get_sign a then a else b.

Definition float_max (a b : float) : float :=
  if PrimFloat.is_nan a || PrimFloat.is_nan b then PrimFloat.nan
  else if PrimFloat.ltb a b then b
  else if PrimFloat.ltb b a then a
  else if PrimFloat.get_sign a then b else a.

#[export] Instance DoubleNum : JSNumber float := {
  lit := float_lit;
  nan := PrimFloat.nan;
  add := PrimFloat.add;
  sub := PrimFloat.sub;
  mul := PrimFloat.mul;
  div := PrimFloat.div;
  ltb := PrimFloat.ltb;
  truthy := float_truthy;
  nmin := float_min;
  nmax := float_max
}.

(** ** Exact rationals with NaN

    There are no infinities and no rounding here; a division by zero gives
    [XNaN], so nothing below rests on a totalised [x / 0]. *)

Inductive xnum : Type :=
| XNum (q : Q)
| XNaN.

Definition xlift2 (f : Q -> Q -> Q) (a b : xnum) : xnum :=
  match a, b with
  | XNum x, XNum y => XNum (f x y)
  | _, _ => XNaN
  end.

Definition xdiv (a b : xnum) : xnum :=
  match a, b with
  | XNum x, XNum y => if Qeq_bool y 0 then XNaN else XNum (x / y)
  | _, _ => XNaN
  end.

Definition Qltb (x y : Q) : bool := negb (Qle_bool y x).

Definition xltb (a b : xnum) : bool :=
  match a, b with
  | XNum x, XNum y => Qltb x y
  | _, _ => false
  end.

Definition xtruthy (a : xnum) : bool :=
  match a with
  | XNum x => negb (Qeq_bool x 0)
  | XNaN => false
  end.

Definition xmin (a b : xnum) : xnum :=
  xlift2 (fun x y => if Qle_bool x y then x else y) a b.

Definition xmax (a b : xnum) : xnum :=
  xlift2 (fun x y => if Qle_bool x y then y else x) a b.

#[export] Instance ExactNum : JSNumber xnum := {
  lit := XNum;
  nan := XNaN;
  add := xlift2 Qplus;
  sub := xlift2 Qminus;
  mul := xlift2 Qmult;
  div := xdiv;
  ltb := xltb;
  truthy := xtruthy;
  nmin := xmin;
  nmax := xmax
}.

(** Reading an exact number: [xis a P] says [a] is a rational
    satisfying [P]. *)
Definition xis (a : xnum) (P : Q -> Prop) : Prop :=
  match a with
  | XNum q => P q
  | XNaN => False
  end.

(** ** NaN is absorbing *)

Class NaNLaws (N : Type) `{JSNumber N} := {
  add_nan_r : forall x, add x nan = nan;
  add_nan_l : forall x, add nan x = nan;
  sub_nan_r : forall x, sub x nan = nan;
  sub_nan_l : forall x, sub nan x = nan;
  mul_nan_r : forall x, mul x nan = nan;
  mul_nan_l : forall x, mul nan x = nan;
  div_nan_r : forall x, div x nan = nan;
  div_nan_l : forall x, div nan x = nan;
  nmax_nan_r : forall x, nmax x nan = nan;
  nmax_nan_l : forall x, nmax nan x = nan;
  ltb_nan_nan : ltb nan nan = false
}.

(** What the scan for a maximum uses of [<]: it is a strict order, and a
    number that is not NaN lies above the smaller or below the larger of
    two numbers in order. *)
Class OrderLaws (N : Type) `{JSNumber N} := {
  ltb_irrefl : forall x, ltb x x = false;
  ltb_trans : forall x y z, ltb x y = true -> ltb y z = true -> ltb x z = true;
  ltb_cotrans : forall x y z,
      ltb x y = true -> ltb x z = true \/ ltb z y = true \/ z = nan
}.

(** ** [Math.abs] *)

Class JSAbs (N : Type) := nabs : N -> N.

#[export] Instance DoubleAbs : JSAbs float := PrimFloat.abs.

Definition xabs (a : xnum) : xnum :=
  match a with
  | XNum x => XNum (Qabs x)
  | XNaN => XNaN
  end.

#[export] Instance ExactAbs : JSAbs xnum := xabs.

(* ===================================================================== *)
(** * HMMEngine: 4-state regime detection *)
(* ===================================================================== *)

Module HMMEngine.

Inductive State : Type := TRENDING | RANGING | VOLATILE | CHAOTIC.

Definition STATES (s : State) : nat :=
  match s with TRENDING => 0 | RANGING => 1 | VOLATILE => 2 | CHAOTIC => 3 end.

Definition STATE_NAMES (s : State) : string :=
  match s with
  | TRENDING => "TRENDING"
  | RANGING => "RANGING"
  | VOLATILE => "VOLATILE"
  | CHAOTIC => "CHAOTIC"
  end.

(** The loops [for (i = 0; i < 4; i++)] visit the states in this order. *)
Definition all_states : list State := [TRENDING; RANGING; VOLATILE; CHAOTIC].

Definition MAX_HISTORY : nat := 100.

(** An array of length four, indexed by a state. *)
Record Vec4 (A : Type) : Type := mkVec4 { v0 : A; v1 : A; v2 : A; v3 : A }.
Arguments mkVec4 {A} _ _ _ _.
Arguments v0 {A} _.
Arguments v1 {A} _.
Arguments v2 {A} _.
Arguments v3 {A} _.

Definition vget {A} (v : Vec4 A) (s : State) : A :=
  match s with
  | TRENDING => v0 v
  | RANGING => v1 v
  | VOLATILE => v2 v
  | CHAOTIC => v3 v
  end.

Definition vset {A} (v : Vec4 A) (s : State) (x : A) : Vec4 A :=
  match s with
  | TRENDING => mkVec4 x (v1 v) (v2 v) (v3 v)
  | RANGING => mkVec4 (v0 v) x (v2 v) (v3 v)
  | VOLATILE => mkVec4 (v0 v) (v1 v) x (v3 v)
  | CHAOTIC => mkVec4 (v0 v) (v1 v) (v2 v) x
  end.

Definition vmap {A B} (f : A -> B) (v : Vec4 A) : Vec4 B :=
  mkVec4 (f (v0 v)) (f (v1 v)) (f (v2 v)) (f (v3 v)).

Definition vlist {A} (v : Vec4 A) : list A := [v0 v; v1 v; v2 v; v3 v].

Section WithNumbers.
Context {N : Type} `{JSNumber N}.
Local Open Scope js_scope.

(** [arr.reduce((a, b) => a + b, 0)] *)
Definition vsum (v : Vec4 N) : N := fold_left add (vlist v) (lit 0).

Record Indicators : Type := {
  adx : option N;
  atr : option N;
  avgPrice : option N;
  tickFrequency : option N;
  spreadEstimate : option N
}.

Record HistoryEntry : Type := {
  h_timestamp : Z;
  h_state : State;
  h_stateName : string;
  h_confidence : N;
  h_adx : N;
  h_atrRatio : N;
  h_probs : Vec4 N
}.

(** The module's mutable variables. *)
Record Engine : Type := {
  currentState : State;
  stateHistory : list HistoryEntry;
  transitionMatrix : Vec4 (Vec4 N)
}.

Record RegimeResult : Type := {
  state : State;
  stateName : string;
  confidence : N;
  stateProbs : Vec4 N;
  previousState : option string
}.

Definition initialMatrix : Vec4 (Vec4 N) :=
  mkVec4
    (mkVec4 (lit 0.7) (lit 0.2) (lit 0.08) (lit 0.02))
    (mkVec4 (lit 0.15) (lit 0.75) (lit 0.08) (lit 0.02))
    (mkVec4 (lit 0.1) (lit 0.15) (lit 0.65) (lit 0.1))
    (mkVec4 (lit 0.05) (lit 0.1) (lit 0.35) (lit 0.5)).

Definition initial : Engine :=
  {| currentState := RANGING; stateHistory := []; transitionMatrix := initialMatrix |}.

Definition calculateEmissionProbabilities
    (adx atrRatio tickFrequency spreadEstimate : N) : Vec4 N :=
  let pTrending :=
    if adx >? lit 25 then nmin (lit 1) (adx / lit 50) * lit 0.9 else lit 0.1 in
  let pRanging :=
    if (adx <? lit 20) && (atrRatio <? lit 0.015) then lit 0.8
    else if adx <? lit 25 then lit 0.5
    else lit 0.1 in
  let pVolatile :=
    if (atrRatio >? lit 0.015) && (atrRatio <? lit 0.03)
    then nmin (lit 1) (atrRatio / lit 0.03) * lit 0.85
    else lit 0.15 in
  let pChaotic :=
    if ((adx <? lit 15) && (atrRatio >? lit 0.025)) || (atrRatio >? lit 0.035)
    then lit 0.9
    else if atrRatio >? lit 0.02 then lit 0.4
    else lit 0.05 in
  let probabilities := mkVec4 pTrending pRanging pVolatile pChaotic in
  let sum := vsum probabilities in
  vmap (fun p => p / sum) probabilities.

(** One round of the scan [if (normalizedProbs[i] > maxProb) ...]. *)
Definition scan_step (probs : Vec4 N) (acc : N * State) (i : State) : N * State :=
  let '(maxProb, bestState) := acc in
  if vget probs i >? maxProb then (vget probs i, i) else (maxProb, bestState).

Definition select_best (probs : Vec4 N) (current : State) : N * State :=
  fold_left (scan_step probs) all_states (lit 0, current).

(** [posteriorProbs[next] = emissionProbs[next] * transitionMatrix[current][next]],
    then normalised. *)
Definition posterior (e : Engine) (emissionProbs : Vec4 N) : Vec4 N :=
  let row := vget (transitionMatrix e) (currentState e) in
  let posteriorProbs :=
    mkVec4 (vget emissionProbs TRENDING * vget row TRENDING)
           (vget emissionProbs RANGING * vget row RANGING)
           (vget emissionProbs VOLATILE * vget row VOLATILE)
           (vget emissionProbs CHAOTIC * vget row CHAOTIC) in
  let sum := vsum posteriorProbs in
  vmap (fun p => p / sum) posteriorProbs.

Definition push_history (h : list HistoryEntry) (x : HistoryEntry) : list HistoryEntry :=
  let h' := h ++ [x] in
  if (MAX_HISTORY <? length h')%nat then tl h' else h'.

(** [detectRegime(indicators)]; [now] is the value of [Date.now()]. *)
Definition detectRegime (now : Z) (indicators : Indicators) (e : Engine)
    : RegimeResult * Engine :=
  let tickFrequency := match tickFrequency indicators with Some t => t | None => lit 1 end in
  let spreadEstimate := match spreadEstimate indicators with Some t => t | None => lit 0.0001 end in
  if falsy (adx indicators) || falsy (atr indicators) || falsy (avgPrice indicators) then
    ({| state := currentState e;
        stateName := STATE_NAMES (currentState e);
        confidence := lit 50;
        stateProbs := mkVec4 (lit 0.25) (lit 0.25) (lit 0.25) (lit 0.25);
        previousState := None |}, e)
  else
    let adx := num (adx indicators) in
    let atr := num (atr indicators) in
    let avgPrice := num (avgPrice indicators) in
    let atrRatio := atr / avgPrice in
    let emissionProbs :=
      calculateEmissionProbabilities adx atrRatio tickFrequency spreadEstimate in
    let normalizedProbs := posterior e emissionProbs in
    let '(maxProb, bestState) := select_best normalizedProbs (currentState e) in
    let previous := currentState e in
    let entry :=
      {| h_timestamp := now;
         h_state := bestState;
         h_stateName := STATE_NAMES bestState;
         h_confidence := maxProb * lit 100;
         h_adx := adx;
         h_atrRatio := atrRatio;
         h_probs := normalizedProbs |} in
    ({| state := bestState;
        stateName := STATE_NAMES bestState;
        confidence := maxProb * lit 100;
        stateProbs := normalizedProbs;
        previousState := Some (STATE_NAMES previous) |},
     {| currentState := bestState;
        stateHistory := push_history (stateHistory e) entry;
        transitionMatrix := transitionMatrix e |}).

(** [getStateStability()] *)
Definition getStateStability (e : Engine) : N :=
  if (length (stateHistory e) <? 10)%nat then lit 50
  else
    let recent := skipn (length (stateHistory e) - 10) (stateHistory e) in
    let currentStateName := STATE_NAMES (currentState e) in
    let sameStateCount :=
      length (List.filter (fun h => String.eqb (h_stateName h) currentStateName) recent) in
    (of_nat sameStateCount / lit 10) * lit 100.

(** [transitions[prev][curr]++] over consecutive history entries. *)
Definition bump (t : Vec4 (Vec4 nat)) (prev curr : State) : Vec4 (Vec4 nat) :=
  vset t prev (vset (vget t prev) curr (S (vget (vget t prev) curr))).

Fixpoint count_from (prev : State) (rest : list HistoryEntry)
    (t : Vec4 (Vec4 nat)) : Vec4 (Vec4 nat) :=
  match rest with
  | [] => t
  | x :: rest' => count_from (h_state x) rest' (bump t prev (h_state x))
  end.

Definition zero_counts : Vec4 (Vec4 nat) :=
  let z := mkVec4 0%nat 0%nat 0%nat 0%nat in mkVec4 z z z z.

Definition count_transitions (h : list HistoryEntry) : Vec4 (Vec4 nat) :=
  match h with
  | [] => zero_counts
  | x :: rest => count_from (h_state x) rest zero_counts
  end.

Definition rowSum (c : Vec4 nat) : nat := fold_left Nat.add (vlist c) 0%nat.

Definition alpha : N := lit 0.1.

(** The blend of one row of the matrix with the observed frequencies. *)
Definition blend_row (old : Vec4 N) (counts : Vec4 nat) : Vec4 N :=
  let rs := rowSum counts in
  if (0 <? rs)%nat then
    let upd (j : State) :=
      let observedProb := of_nat (vget counts j) / of_nat rs in
      (lit 1 - alpha) * vget old j + alpha * observedProb in
    mkVec4 (upd TRENDING) (upd RANGING) (upd VOLATILE) (upd CHAOTIC)
  else old.

(** [updateTransitionMatrix()] *)
Definition updateTransitionMatrix (e : Engine) : Engine :=
  if (length (stateHistory e) <? 20)%nat then e
  else
    let transitions := count_transitions (stateHistory e) in
    let m := transitionMatrix e in
    {| currentState := currentState e;
       stateHistory := stateHistory e;
       transitionMatrix :=
         mkVec4 (blend_row (v0 m) (v0 transitions))
                (blend_row (v1 m) (v1 transitions))
                (blend_row (v2 m) (v2 transitions))
                (blend_row (v3 m) (v3 transitions)) |}.

(** [reset()] *)
Definition reset (e : Engine) : Engine :=
  {| currentState := RANGING; stateHistory := []; transitionMatrix := transitionMatrix e |}.

(** The calls of the module's interface that touch its variables, and the
    engine they leave behind. *)
Inductive Call : Type :=
| CDetectRegime (now : Z) (indicators : Indicators)
| CGetStateStability
| CUpdateTransitionMatrix
| CReset.

Definition run (c : Call) (e : Engine) : Engine :=
  match c with
  | CDetectRegime now indicators => snd (detectRegime now indicators e)
  | CGetStateStability => e
  | CUpdateTransitionMatrix => updateTransitionMatrix e
  | CReset => reset e
  end.

Definition run_all (cs : list Call) (e : Engine) : Engine :=
  fold_left (fun e c => run c e) cs e.

(** The state a regime name denotes, if any. *)
Definition state_named (name : string) : option State :=
  find (fun s => String.eqb (STATE_NAMES s) name) all_states.

Record Strategy : Type := {
  preferTrend : bool;
  preferMeanReversion : bool;
  riskMultiplier : N;
  confidenceBoost : N;
  description : string
}.

Definition strategies (s : State) : Strategy :=
  match s with
  | TRENDING =>
      {| preferTrend := true; preferMeanReversion := false;
         riskMultiplier := lit 1.2; confidenceBoost := lit 15;
         description := "Follow trends, use momentum indicators" |}
  | RANGING =>
      {| preferTrend := false; preferMeanReversion := true;
         riskMultiplier := lit 1.0; confidenceBoost := lit 20;
         description := "Mean-reversion, trade boundaries" |}
  | VOLATILE =>
      {| preferTrend := false; preferMeanReversion := false;
         riskMultiplier := lit 0.8; confidenceBoost := lit 5;
         description := "Cautious, reduce risk, wider stops" |}
  | CHAOTIC =>
      {| preferTrend := false; preferMeanReversion := false;
         riskMultiplier := lit 0.5; confidenceBoost := lit (-15);
         description := "Avoid trading, wait for clarity" |}
  end.

(** [getRegimeStrategy(stateName)]: [strategies[stateName] || strategies.RANGING] *)
Definition getRegimeStrategy (stateName : string) : Strategy :=
  match state_named stateName with
  | Some s => strategies s
  | None => strategies RANGING
  end.

Record Stats : Type := {
  st_currentState : string;
  st_stateHistory : list HistoryEntry;
  st_stability : N;
  st_transitionMatrix : Vec4 (Vec4 N)
}.

(** [getStats()] *)
Definition getStats (e : Engine) : Stats :=
  {| st_currentState := STATE_NAMES (currentState e);
     st_stateHistory := skipn (length (stateHistory e) - 10) (stateHistory e);
     st_stability := getStateStability e;
     st_transitionMatrix := transitionMatrix e |}.

End WithNumbers.

Arguments Indicators N : clear implicits.
Arguments HistoryEntry N : clear implicits.
Arguments Engine N : clear implicits.
Arguments RegimeResult N : clear implicits.
Arguments Call N : clear implicits.
Arguments Strategy N : clear implicits.
Arguments Stats N : clear implicits.

End HMMEngine.

(** The two directions, as the strings ['BUY'] and ['SELL'] of the source. *)
Inductive Action : Type := BUY | SELL.

(** The objects both variants of [AIEngine] receive and store: the
    indicator readings of a signal, and a training sample
    [{ features, label }]. *)
Record AIIndicators (N : Type) : Type := {
  rsi : N; adx : N; atr : N; williamsR : N; cci : N
}.
Arguments rsi {N} _.
Arguments adx {N} _.
Arguments atr {N} _.
Arguments williamsR {N} _.
Arguments cci {N} _.

Record Sample (N : Type) : Type := { features : list N; label : list N }.
Arguments features {N} _.
Arguments label {N} _.

(* ===================================================================== *)
(** * AIEngine: the pure JavaScript neural network *)
(* ===================================================================== *)

Module AIEngine.

Definition RETRAIN_INTERVAL : nat := 50.
Definition MAX_TRAINING_DATA : nat := 500.

Section WithNumbers.
Context {N : Type} `{JSNumber N}.
Local Open Scope js_scope.

(** [Math.exp], provided by the host. *)
Variable exp : N -> N.

Record SimpleNN : Type := {
  w1 : list (list N);
  b1 : list N;
  w2 : list (list N);
  b2 : list N;
  w3 : list (list N);
  b3 : list N;
  learningRate : N
}.

(** [randomMatrix(rows, cols)]: [rows] arrays of [cols] numbers each;
    [rnd] lists the successive values of [Math.random()], read from
    position [k] on. *)
Definition randomRow (rnd : nat -> N) (k cols : nat) : list N :=
  map (fun j => (rnd (k + j)%nat - lit 0.5) * lit 0.2) (seq 0 cols).

Definition randomMatrix (rnd : nat -> N) (k rows cols : nat) : list (list N) :=
  map (fun i => randomRow rnd (k + i * cols)%nat cols) (seq 0 rows).

(** [new SimpleNN(inputSize, hiddenSize1, hiddenSize2, outputSize)] *)
Definition new_SimpleNN (rnd : nat -> N)
    (inputSize hiddenSize1 hiddenSize2 outputSize : nat) : SimpleNN :=
  let k1 := (inputSize * hiddenSize1)%nat in
  let k2 := (k1 + hiddenSize1)%nat in
  let k3 := (k2 + hiddenSize1 * hiddenSize2)%nat in
  let k4 := (k3 + hiddenSize2)%nat in
  let k5 := (k4 + hiddenSize2 * outputSize)%nat in
  {| w1 := randomMatrix rnd 0 inputSize hiddenSize1;
     b1 := nth 0 (randomMatrix rnd k1 1 hiddenSize1) [];
     w2 := randomMatrix rnd k2 hiddenSize1 hiddenSize2;
     b2 := nth 0 (randomMatrix rnd k3 1 hiddenSize2) [];
     w3 := randomMatrix rnd k4 hiddenSize2 outputSize;
     b3 := nth 0 (randomMatrix rnd k5 1 outputSize) [];
     learningRate := lit 0.001 |}.

Definition relu (x : N) : N := nmax (lit 0) x.

(** [Math.max(...arr)]; on an empty array JavaScript answers [-Infinity]. *)
Definition max_of (arr : list N) : N :=
  match arr with
  | [] => lit (-1) / lit 0
  | x :: rest => fold_left nmax rest x
  end.

Definition softmax (arr : list N) : list N :=
  let max := max_of arr in
  let exps := map (fun x => exp (x - max)) arr in
  let sum := fold_left add exps (lit 0) in
  map (fun x => x / sum) exps.

(** [row.reduce((sum, val, i) => sum + val * vector[i], 0)], from index [i];
    an index past the end of [vector] reads [undefined]. *)
Fixpoint dot_from (i : nat) (row vector : list N) (sum : N) : N :=
  match row with
  | [] => sum
  | val :: row' => dot_from (S i) row' vector (sum + val * num (vector !! i))
  end.

(** [matmul(matrix, vector)]: one entry per row of [matrix]. *)
Definition matmul (matrix : list (list N)) (vector : list N) : list N :=
  map (fun row => dot_from 0 row vector (lit 0)) matrix.

Record Forward : Type := { h1 : list N; h2 : list N; output : list N }.

Definition forward (m : SimpleNN) (input : list N) : Forward :=
  let h1 := imap (fun i v => relu (v + num (b1 m !! i))) (matmul (w1 m) input) in
  let h2 := imap (fun i v => relu (v + num (b2 m !! i))) (matmul (w2 m) h1) in
  let output := imap (fun i v => v + num (b3 m !! i)) (matmul (w3 m) h2) in
  {| h1 := h1; h2 := h2; output := softmax output |}.

Definition nn_predict (m : SimpleNN) (input : list N) : list N :=
  output (forward m input).

(** [w[i][j] -= learningRate * d[j] * a[i]] over a whole matrix. *)
Definition update_weights (lr : N) (w : list (list N)) (d a : list N) : list (list N) :=
  imap (fun i row => imap (fun j x => x - lr * num (d !! j) * num (a !! i)) row) w.

(** [b[i] -= learningRate * d[i]] *)
Definition update_bias (lr : N) (b d : list N) : list N :=
  imap (fun i x => x - lr * num (d !! i)) b.

(** The gradient through a ReLU layer with activations [a]. *)
Definition relu_gate (a : list N) (g : list N) : list N :=
  imap (fun i v => if num (a !! i) >? lit 0 then v else lit 0) g.

Definition trainOne (m : SimpleNN) (input label : list N) : SimpleNN :=
  let r := forward m input in
  let lr := learningRate m in
  let dOutput := imap (fun i o => o - num (label !! i)) (output r) in
  let w3' := update_weights lr (w3 m) dOutput (h2 r) in
  let b3' := update_bias lr (b3 m) dOutput in
  let dH2 := relu_gate (h2 r) (matmul w3' dOutput) in
  let w2' := update_weights lr (w2 m) dH2 (h1 r) in
  let b2' := update_bias lr (b2 m) dH2 in
  let dH1 := relu_gate (h1 r) (matmul w2' dH2) in
  let w1' := update_weights lr (w1 m) dH1 input in
  let b1' := update_bias lr (b1 m) dH1 in
  {| w1 := w1'; b1 := b1'; w2 := w2'; b2 := b2'; w3 := w3'; b3 := b3';
     learningRate := lr |}.

(** [train(inputs, labels, epochs)]; [retrain] passes two arrays of the
    same length. *)
Fixpoint train (m : SimpleNN) (inputs labels : list (list N)) (epochs : nat) : SimpleNN :=
  match epochs with
  | O => m
  | S epochs' =>
      train (fold_left (fun m '(x, y) => trainOne m x y) (combine inputs labels) m)
            inputs labels epochs'
  end.

(** The module's mutable variables. *)
Record Engine : Type := {
  model : option SimpleNN;
  isModelReady : bool;
  trainingData : list (Sample N);
  signalCount : nat
}.

Definition normalizeFeatures (rsi adx atr williamsR cci : N) : list N :=
  [ rsi / lit 100;
    adx / lit 100;
    nmin (atr * lit 100) (lit 1);
    (williamsR + lit 100) / lit 100;
    (cci + lit 200) / lit 400 ].

Record Prediction : Type := {
  action : Action;
  buyProb : N;
  sellProb : N;
  confidence : N
}.

(** [predict(indicators)]; [None] is the [null] of a model that is not ready. *)
Definition predict (indicators : AIIndicators N) (e : Engine) : option Prediction :=
  match model e with
  | Some m =>
      if negb (isModelReady e) then None
      else
        let features :=
          normalizeFeatures (rsi indicators) (adx indicators) (atr indicators)
                            (williamsR indicators) (cci indicators) in
        let probabilities := nn_predict m features in
        let buyProb := num (probabilities !! 0%nat) in
        let sellProb := num (probabilities !! 1%nat) in
        Some {| action := if buyProb >? sellProb then BUY else SELL;
                buyProb := buyProb;
                sellProb := sellProb;
                confidence := nmax buyProb sellProb * lit 100 |}
  | None => None
  end.

(** [retrain()] *)
Definition retrain (e : Engine) : Engine :=
  match model e with
  | Some m =>
      if negb (isModelReady e) || (length (trainingData e) <? 20)%nat then e
      else
        let inputs := map features (trainingData e) in
        let labels := map label (trainingData e) in
        {| model := Some (train m inputs labels 10);
           isModelReady := isModelReady e;
           trainingData := trainingData e;
           signalCount := signalCount e |}
  | None => e
  end.

(** [trainingData.slice(-MAX_TRAINING_DATA)] *)
Definition keep_last (n : nat) (l : list (Sample N)) : list (Sample N) :=
  skipn (length l - n) l.

Definition make_label (a : Action) (wasWin : bool) : list N :=
  if wasWin
  then match a with BUY => [lit 1; lit 0] | SELL => [lit 0; lit 1] end
  else match a with BUY => [lit 0; lit 1] | SELL => [lit 1; lit 0] end.

(** [addTrainingSample(indicators, action, wasWin)]; the boolean tells
    whether [retrain()] was called. *)
Definition addTrainingSample (indicators : AIIndicators N) (a : Action) (wasWin : bool)
    (e : Engine) : Engine * bool :=
  let features :=
    normalizeFeatures (rsi indicators) (adx indicators) (atr indicators)
                      (williamsR indicators) (cci indicators) in
  let label := make_label a wasWin in
  let pushed := trainingData e ++ [{| features := features; label := label |}] in
  let data :=
    if (MAX_TRAINING_DATA <? length pushed)%nat
    then keep_last MAX_TRAINING_DATA pushed else pushed in
  let count := S (signalCount e) in
  let e' := {| model := model e; isModelReady := isModelReady e;
               trainingData := data; signalCount := count |} in
  if (count mod RETRAIN_INTERVAL =? 0)%nat && (20 <=? length data)%nat
  then (retrain e', true)
  else (e', false).

(** What [localStorage.getItem('PS_V7_TRAINING_DATA')] holds: nothing, a
    text that [JSON.parse] rejects, or an object whose [data] and [count]
    may be missing. *)
Inductive Stored : Type :=
| NothingSaved
| Unreadable
| Saved (data : option (list (Sample N))) (count : option nat).

(** [loadTrainingData()] *)
Definition loadTrainingData (saved : Stored) (e : Engine) : Engine :=
  match saved with
  | NothingSaved => e
  | Unreadable =>
      {| model := model e; isModelReady := isModelReady e;
         trainingData := []; signalCount := 0 |}
  | Saved data count =>
      {| model := model e; isModelReady := isModelReady e;
         trainingData := match data with Some d => d | None => [] end;
         signalCount := match count with Some c => c | None => 0 end |}
  end.

(** [initialize()]: a fresh network, then the stored samples. *)
Definition initialize (rnd : nat -> N) (saved : Stored) (e : Engine) : Engine :=
  loadTrainingData saved
    {| model := Some (new_SimpleNN rnd 5 16 8 2); isModelReady := true;
       trainingData := trainingData e; signalCount := signalCount e |}.

(** The module before [initialize()] is called. *)
Definition unloaded : Engine :=
  {| model := None; isModelReady := false; trainingData := []; signalCount := 0 |}.

(** [reset()] *)
Definition reset (e : Engine) : Engine :=
  {| model := model e; isModelReady := isModelReady e;
     trainingData := []; signalCount := 0 |}.

Record Stats : Type := {
  isReady : bool;
  trainingDataCount : nat;
  st_signalCount : nat;
  nextRetrainIn : nat
}.

(** [getStats()] *)
Definition getStats (e : Engine) : Stats :=
  {| isReady := isModelReady e;
     trainingDataCount := length (trainingData e);
     st_signalCount := signalCount e;
     nextRetrainIn := (RETRAIN_INTERVAL - signalCount e mod RETRAIN_INTERVAL)%nat |}.

End WithNumbers.

Arguments SimpleNN N : clear implicits.
Arguments Forward N : clear implicits.
Arguments Engine N : clear implicits.
Arguments Prediction N : clear implicits.
Arguments Stored N : clear implicits.

End AIEngine.

(* ===================================================================== *)
(** * AIEngine: the TensorFlow.js variant *)
(* ===================================================================== *)

Module AIEngineTF.

Definition RETRAIN_INTERVAL : nat := 50.
Definition MAX_TRAINING_DATA : nat := 500.

Section WithNumbers.
Context {N : Type} `{JSNumber N}.
Local Open Scope js_scope.

(** TensorFlow.js is not part of the repository: its sequential model and
    the effect of [model.fit(xs, ys, ...)] on it are taken as given. *)
Variable TFModel : Type.
Variable fit : TFModel -> list (list N) -> list (list N) -> TFModel.

Record Engine : Type := {
  model : option TFModel;
  isModelReady : bool;
  trainingData : list (Sample N);
  signalCount : nat
}.

Definition normalizeFeatures (rsi adx atr williamsR cci : N) : list N :=
  [ rsi / lit 100;
    adx / lit 100;
    nmin (atr * lit 100) (lit 1);
    (williamsR + lit 100) / lit 100;
    (cci + lit 200) / lit 400 ].

(** [retrain()] *)
Definition retrain (e : Engine) : Engine :=
  match model e with
  | Some m =>
      if negb (isModelReady e) || (length (trainingData e) <? 20)%nat then e
      else
        let xs := map features (trainingData e) in
        let ys := map label (trainingData e) in
        {| model := Some (fit m xs ys);
           isModelReady := isModelReady e;
           trainingData := trainingData e;
           signalCount := signalCount e |}
  | None => e
  end.

Definition keep_last (n : nat) (l : list (Sample N)) : list (Sample N) :=
  skipn (length l - n) l.

Definition make_label (a : Action) (wasWin : bool) : list N :=
  if wasWin
  then match a with BUY => [lit 1; lit 0] | SELL => [lit 0; lit 1] end
  else match a with BUY => [lit 0; lit 1] | SELL => [lit 1; lit 0] end.

(** [addTrainingSample(indicators, action, wasWin)]; the boolean tells
    whether [retrain()] was called. *)
Definition addTrainingSample (indicators : AIIndicators N) (a : Action) (wasWin : bool)
    (e : Engine) : Engine * bool :=
  let features :=
    normalizeFeatures (rsi indicators) (adx indicators) (atr indicators)
                      (williamsR indicators) (cci indicators) in
  let label := make_label a wasWin in
  let pushed := trainingData e ++ [{| features := features; label := label |}] in
  let data :=
    if (MAX_TRAINING_DATA <? length pushed)%nat
    then keep_last MAX_TRAINING_DATA pushed else pushed in
  let count := S (signalCount e) in
  let e' := {| model := model e; isModelReady := isModelReady e;
               trainingData := data; signalCount := count |} in
  if (count mod RETRAIN_INTERVAL =? 0)%nat && (20 <=? length data)%nat
  then (retrain e', true)
  else (e', false).

End WithNumbers.

Arguments Engine N TFModel : clear implicits.
Arguments Build_Engine {N TFModel} _ _ _ _.
Arguments model {N TFModel} _.
Arguments isModelReady {N TFModel} _.
Arguments trainingData {N TFModel} _.
Arguments signalCount {N TFModel} _.
Arguments retrain {N TFModel} fit e.
Arguments addTrainingSample {N _ TFModel} fit indicators a wasWin e.

End AIEngineTF.

(* ===================================================================== *)
(** * BacktestingEngine *)
(* ===================================================================== *)

Module BacktestingEngine.

Import HMMEngine.

Inductive Outcome : Type := WIN | LOSS.

(** A signal of the history: [result] is [null] (here [None]) until the
    signal is resolved; [regime] is the regime's name, when recorded. *)
Record Signal : Type := { result : option Outcome; regime : option string }.

Record Tally : Type := { wins : nat; losses : nat }.

(** The key of [regimePerformance] a regime name selects, if any. *)
Definition regime_key (r : option string) : option State :=
  match r with
  | Some name => find (fun s => String.eqb (STATE_NAMES s) name) all_states
  | None => None
  end.

Definition tally_win (p : Vec4 Tally) (r : option string) : Vec4 Tally :=
  match regime_key r with
  | Some s => vset p s {| wins := S (wins (vget p s)); losses := losses (vget p s) |}
  | None => p
  end.

Definition tally_loss (p : Vec4 Tally) (r : option string) : Vec4 Tally :=
  match regime_key r with
  | Some s => vset p s {| wins := wins (vget p s); losses := S (losses (vget p s)) |}
  | None => p
  end.

Section WithNumbers.
Context {N : Type} `{JSNumber N}.
Local Open Scope js_scope.

Definition tradeSize : N := lit 10.
Definition payoutRatio : N := lit 0.85.

(** The local variables of [runBacktest] that the loop updates. *)
Record Loop : Type := {
  l_wins : nat;
  l_losses : nat;
  l_totalProfit : N;
  l_maxDrawdown : N;
  l_peak : N;
  l_equity : N;
  l_equityCurve : list N;
  l_regimePerformance : Vec4 Tally
}.

Definition loop_start : Loop :=
  let z := {| wins := 0; losses := 0 |} in
  {| l_wins := 0;
     l_losses := 0;
     l_totalProfit := lit 0;
     l_maxDrawdown := lit 0;
     l_peak := lit 0;
     l_equity := lit 1000;
     l_equityCurve := [lit 1000];
     l_regimePerformance := mkVec4 z z z z |}.

(** The body of [signals.forEach(...)]. *)
Definition loop_body (a : Loop) (signal : Signal) : Loop :=
  let settled :=
    match result signal with
    | Some WIN =>
        (S (l_wins a), l_losses a,
         l_totalProfit a + tradeSize * payoutRatio,
         l_equity a + tradeSize * payoutRatio,
         tally_win (l_regimePerformance a) (regime signal))
    | Some LOSS =>
        (l_wins a, S (l_losses a),
         l_totalProfit a - tradeSize,
         l_equity a - tradeSize,
         tally_loss (l_regimePerformance a) (regime signal))
    | None =>
        (l_wins a, l_losses a, l_totalProfit a, l_equity a, l_regimePerformance a)
    end in
  let '(wins, losses, totalProfit, equity, perf) := settled in
  let peak := if equity >? l_peak a then equity else l_peak a in
  let drawdown := ((peak - equity) / peak) * lit 100 in
  {| l_wins := wins;
     l_losses := losses;
     l_totalProfit := totalProfit;
     l_maxDrawdown := if drawdown >? l_maxDrawdown a then drawdown else l_maxDrawdown a;
     l_peak := peak;
     l_equity := equity;
     l_equityCurve := l_equityCurve a ++ [equity];
     l_regimePerformance := perf |}.

Record BacktestResult : Type := {
  totalSignals : nat;
  totalTrades : nat;
  r_wins : nat;
  r_losses : nat;
  winRate : N;
  profitFactor : N;
  netProfit : N;
  roi : N;
  maxDrawdown : N;
  equityCurve : list N;
  regimePerformance : Vec4 Tally;
  regimeWinRates : Vec4 (option N);
  startBalance : N;
  endBalance : N
}.

Inductive BacktestReturn : Type :=
| NoSignals                      (* [{ error: 'No signals to backtest', totalSignals: 0 }] *)
| Results (r : BacktestResult).

Definition regime_win_rate (t : Tally) : option N :=
  let total := (wins t + losses t)%nat in
  if (0 <? total)%nat then Some ((of_nat (wins t) / of_nat total) * lit 100) else None.

(** [runBacktest(signals)]; [now] is the value of [Date.now()] and [log]
    the module's [backtestResults]. *)
Definition runBacktest (now : Z) (signals : list Signal)
    (log : list (Z * BacktestResult)) : BacktestReturn * list (Z * BacktestResult) :=
  match signals with
  | [] => (NoSignals, log)
  | _ :: _ =>
      let a := fold_left loop_body signals loop_start in
      let wins := l_wins a in
      let losses := l_losses a in
      let equity := l_equity a in
      let totalTrades := (wins + losses)%nat in
      let results :=
        {| totalSignals := length signals;
           totalTrades := totalTrades;
           r_wins := wins;
           r_losses := losses;
           winRate :=
             if (0 <? totalTrades)%nat
             then (of_nat wins / of_nat totalTrades) * lit 100 else lit 0;
           profitFactor :=
             if (0 <? losses)%nat
             then (of_nat wins * tradeSize * payoutRatio) / (of_nat losses * tradeSize)
             else lit 0;
           netProfit := equity - lit 1000;
           roi := ((equity - lit 1000) / lit 1000) * lit 100;
           maxDrawdown := l_maxDrawdown a;
           equityCurve := l_equityCurve a;
           regimePerformance := l_regimePerformance a;
           regimeWinRates := vmap regime_win_rate (l_regimePerformance a);
           startBalance := lit 1000;
           endBalance := equity |} in
      (Results results, log ++ [(now, results)])
  end.

(** [runForwardTest(signals, testPeriod)] answers an error when fewer than
    [testPeriod] signals are available, and otherwise the backtest of
    [signals.slice(-testPeriod)] with the period attached. *)
Inductive ForwardReturn : Type :=
| Insufficient (required available : nat)
| Forward (r : BacktestReturn) (testPeriod : nat).

(** [signals.slice(-testPeriod)]; [slice(-0)] is [slice(0)], the whole array. *)
Definition slice_last (testPeriod : nat) (signals : list Signal) : list Signal :=
  if (testPeriod =? 0)%nat then signals
  else skipn (length signals - testPeriod) signals.

Definition runForwardTest (now : Z) (signals : list Signal) (testPeriod : nat)
    (log : list (Z * BacktestResult)) : ForwardReturn * list (Z * BacktestResult) :=
  if (length signals <? testPeriod)%nat
  then (Insufficient testPeriod (length signals), log)
  else
    let '(results, log') := runBacktest now (slice_last testPeriod signals) log in
    (Forward results testPeriod, log').

(** [average(arr)] *)
Definition average (arr : list N) : N :=
  fold_left add arr (lit 0) / of_nat (length arr).

(** [Math.min(...arr)] and [Math.max(...arr)]; on an empty array
    JavaScript answers [Infinity] and [-Infinity]. *)
Definition min_of (arr : list N) : N :=
  match arr with
  | [] => lit 1 / lit 0
  | x :: rest => fold_left nmin rest x
  end.

Definition max_of (arr : list N) : N :=
  match arr with
  | [] => lit (-1) / lit 0
  | x :: rest => fold_left nmax rest x
  end.

(** Provided by the host: [arr.sort((a, b) => a - b)] on a copy of the
    array, [Math.pow], [Math.sqrt], and the array that
    [[...signals].sort(() => Math.random() - 0.5)] yields in each
    iteration. *)
Variable sort_numbers : list N -> list N.
Variable pow : N -> N -> N.
Variable sqrt : N -> N.
Variable shuffle : nat -> list Signal -> list Signal.

(** [median(arr)] *)
Definition median (arr : list N) : N :=
  let sorted := sort_numbers arr in
  let mid := (length sorted / 2)%nat in
  if (length sorted mod 2 =? 0)%nat
  then (num (sorted !! (mid - 1)%nat) + num (sorted !! mid)) / lit 2
  else num (sorted !! mid).

(** [stdDev(arr)] *)
Definition stdDev (arr : list N) : N :=
  let avg := average arr in
  let squareDiffs := map (fun val => pow (val - avg) (lit 2)) arr in
  let avgSquareDiff := average squareDiffs in
  sqrt avgSquareDiff.

(** One entry of [results]: the four figures kept of a simulated backtest;
    a field of the error object is [undefined]. *)
Record SimResult : Type := {
  sim_winRate : N;
  sim_roi : N;
  sim_maxDrawdown : N;
  sim_profitFactor : N
}.

Definition sim_of (r : BacktestReturn) : SimResult :=
  match r with
  | Results b =>
      {| sim_winRate := winRate b; sim_roi := roi b;
         sim_maxDrawdown := maxDrawdown b; sim_profitFactor := profitFactor b |}
  | NoSignals =>
      {| sim_winRate := nan; sim_roi := nan;
         sim_maxDrawdown := nan; sim_profitFactor := nan |}
  end.

(** The loop [for (i = 0; i < iterations; i++)], from iteration [i] on. *)
Fixpoint simulate (clock : nat -> Z) (signals : list Signal) (todo i : nat)
    (results : list SimResult) (log : list (Z * BacktestResult))
    : list SimResult * list (Z * BacktestResult) :=
  match todo with
  | O => (results, log)
  | S todo' =>
      let '(backtestResult, log') := runBacktest (clock i) (shuffle i signals) log in
      simulate clock signals todo' (S i) (results ++ [sim_of backtestResult]) log'
  end.

Record Summary : Type := {
  s_mean : N;
  s_median : N;
  s_stdDev : N;
  s_min : N;
  s_max : N
}.

Definition summarise (arr : list N) : Summary :=
  {| s_mean := average arr; s_median := median arr; s_stdDev := stdDev arr;
     s_min := min_of arr; s_max := max_of arr |}.

Record MonteCarloStats : Type := {
  mc_iterations : nat;
  mc_winRate : Summary;
  mc_roi : Summary;
  mc_maxDrawdown : Summary;
  mc_profitFactor : Summary;
  profitableSims : nat;
  profitablePercent : N
}.

Inductive MonteCarloReturn : Type :=
| NoSimulation               (* [{ error: 'No signals for Monte Carlo simulation' }] *)
| Simulated (stats : MonteCarloStats).

(** [runMonteCarloSimulation(signals, iterations)]; [clock i] is the value
    of [Date.now()] in iteration [i]. *)
Definition runMonteCarloSimulation (clock : nat -> Z) (signals : list Signal)
    (iterations : nat) (log : list (Z * BacktestResult))
    : MonteCarloReturn * list (Z * BacktestResult) :=
  match signals with
  | [] => (NoSimulation, log)
  | _ :: _ =>
      let '(results, log') := simulate clock signals iterations 0 [] log in
      let profitable := length (List.filter (fun r => sim_roi r >? lit 0) results) in
      (Simulated
         {| mc_iterations := iterations;
            mc_winRate := summarise (map sim_winRate results);
            mc_roi := summarise (map sim_roi results);
            mc_maxDrawdown := summarise (map sim_maxDrawdown results);
            mc_profitFactor := summarise (map sim_profitFactor results);
            profitableSims := profitable;
            profitablePercent := (of_nat profitable / of_nat iterations) * lit 100 |},
       log')
  end.

(** [getStats()]: the number of backtests run and the latest of them. *)
Definition getStats (log : list (Z * BacktestResult)) : nat * option (Z * BacktestResult) :=
  (length log, List.last (map Some log) None).

(** [reset()] *)
Definition reset (log : list (Z * BacktestResult)) : list (Z * BacktestResult) := [].

End WithNumbers.

Arguments Loop N : clear implicits.
Arguments BacktestResult N : clear implicits.
Arguments BacktestReturn N : clear implicits.

End BacktestingEngine.

(* ===================================================================== *)
(** * RLEngine: Q-learning over (regime, action) *)
(* ===================================================================== *)

Module RLEngine.

Definition MAX_HISTORY : nat := 500.

(** The property names every JavaScript object inherits from
    [Object.prototype]: for them [qTable[name]] is a function or an object,
    hence truthy, though the table has no such row. *)
Definition inherited_names : list string :=
  [ "constructor"; "__proto__"; "hasOwnProperty"; "isPrototypeOf";
    "propertyIsEnumerable"; "toLocaleString"; "toString"; "valueOf";
    "__defineGetter__"; "__defineSetter__"; "__lookupGetter__"; "__lookupSetter__" ].

Definition inherited (name : string) : bool :=
  existsb (String.eqb name) inherited_names.

Section WithNumbers.
Context {N : Type} `{JSNumber N}.
Local Open Scope js_scope.

(** One row of the Q-table, the object [{ BUY: ..., SELL: ... }]. *)
Record QRow : Type := { q_BUY : N; q_SELL : N }.

Definition qget (r : QRow) (a : Action) : N :=
  match a with BUY => q_BUY r | SELL => q_SELL r end.

Definition qset (r : QRow) (a : Action) (x : N) : QRow :=
  match a with
  | BUY => {| q_BUY := x; q_SELL := q_SELL r |}
  | SELL => {| q_BUY := q_BUY r; q_SELL := x |}
  end.

Record RewardEvent : Type := {
  timestamp : Z;
  ev_regime : string;
  ev_action : Action;
  reward : N;
  oldQ : N;
  newQ : N
}.

(** The module's mutable variables. *)
Record Engine : Type := {
  qTable : gmap string QRow;
  totalUpdates : nat;
  rewardHistory : list RewardEvent
}.

Definition LEARNING_RATE : N := lit 0.1.
Definition DISCOUNT_FACTOR : N := lit 0.9.

Definition fresh_row : QRow := {| q_BUY := lit 0.5; q_SELL := lit 0.5 |}.

Definition initialQTable : gmap string QRow :=
  <["TRENDING" := fresh_row]>
    (<["RANGING" := fresh_row]>
       (<["VOLATILE" := fresh_row]>
          (<["CHAOTIC" := fresh_row]> ∅))).

Definition initial : Engine :=
  {| qTable := initialQTable; totalUpdates := 0; rewardHistory := [] |}.

Definition push_reward (h : list RewardEvent) (x : RewardEvent) : list RewardEvent :=
  let h' := h ++ [x] in
  if (MAX_HISTORY <? length h')%nat then tl h' else h'.

(** What the expression [qTable[name]] finds: a row of the table, an
    inherited property of the table object, or [undefined]. *)
Inductive Slot : Type :=
| Own (row : QRow)
| Inherited
| Missing.

Definition slot (t : gmap string QRow) (name : string) : Slot :=
  match t !! name with
  | Some row => Own row
  | None => if inherited name then Inherited else Missing
  end.

(** [qTable[name]] as the arithmetic sees it, [None] when it is falsy.  An
    inherited function or object has under [BUY] and [SELL] nothing, or
    the NaN an earlier update has stored there; either way the number read
    is NaN. *)
Definition read (s : Slot) : option QRow :=
  match s with
  | Own row => Some row
  | Inherited => Some {| q_BUY := nan; q_SELL := nan |}
  | Missing => None
  end.

(** [updateQValue(regime, action, reward, nextRegime)]; [now] is the value
    of [Date.now()].  The guard is a truthiness test, so a name inherited
    from [Object.prototype] passes it: the update is then counted and
    recorded with NaN values, and the assignment lands on the inherited
    object, not in the table.  The event then holds NaN for [oldQ], where
    the source has [undefined] the first time.  The engine returned is the
    one the call leaves behind; the closing [console.log], which formats
    [currentQ] and raises when that is [undefined], is not part of it. *)
Definition updateQValue (now : Z) (regime : string) (a : Action) (reward : N)
    (nextRegime : string) (e : Engine) : Engine :=
  match read (slot (qTable e) regime), read (slot (qTable e) nextRegime) with
  | Some row, Some next =>
      let currentQ := qget row a in
      let maxNextQ := nmax (q_BUY next) (q_SELL next) in
      let newQ :=
        currentQ + LEARNING_RATE * (reward + DISCOUNT_FACTOR * maxNextQ - currentQ) in
      {| qTable :=
           match slot (qTable e) regime with
           | Own _ => <[regime := qset row a newQ]> (qTable e)
           | _ => qTable e
           end;
         totalUpdates := S (totalUpdates e);
         rewardHistory :=
           push_reward (rewardHistory e)
             {| timestamp := now; ev_regime := regime; ev_action := a;
                reward := reward; oldQ := currentQ; newQ := newQ |} |}
  | _, _ => e
  end.

(** [getConfidenceAdjustment(regime, action)].  For a name inherited from
    [Object.prototype] the guard passes, the difference is NaN, every
    comparison fails and the result is [0], as for a missing name. *)
Definition getConfidenceAdjustment (regime : string) (a : Action) (e : Engine) : N :=
  match qTable e !! regime with
  | None => lit 0
  | Some row =>
      let qValue := qget row a in
      let otherAction := match a with BUY => SELL | SELL => BUY end in
      let otherQValue := qget row otherAction in
      let qDiff := qValue - otherQValue in
      if qDiff >? lit 0.2 then lit 10
      else if qDiff >? lit 0.1 then lit 5
      else if qDiff <? lit (-0.1) then lit (-5)
      else lit 0
  end.

(** [reset()] *)
Definition reset (e : Engine) : Engine := initial.

Definition EXPLORATION_RATE : N := lit 0.15.

(** [Math.random() < 0.5 ? 'BUY' : 'SELL'] for the draw [u]. *)
Definition coin (u : N) : Action := if u <? lit 0.5 then BUY else SELL.

(** [selectAction(regime, aiAction)]; [u1] and [u2] are the values of the
    first and of the second call of [Math.random()], the second being made
    only when a random action is needed.  For an inherited name the
    comparisons are made on NaN and the action computed is [SELL]; the
    [console.log] that follows, which raises when [BUY] is [undefined], is
    not modelled. *)
Definition selectAction `{JSAbs N} (u1 u2 : N) (regime : string)
    (aiAction : option Action) (e : Engine) : Action :=
  if u1 <? EXPLORATION_RATE then coin u2
  else
    match read (slot (qTable e) regime) with
    | None =>
        match aiAction with
        | Some a => a
        | None => coin u2
        end
    | Some qValues =>
        match aiAction with
        | Some a =>
            if nabs (q_BUY qValues - q_SELL qValues) <? lit 0.1 then a
            else if q_BUY qValues >? q_SELL qValues then BUY else SELL
        | None => if q_BUY qValues >? q_SELL qValues then BUY else SELL
        end
    end.

Definition action_eqb (a b : Action) : bool :=
  match a, b with
  | BUY, BUY | SELL, SELL => true
  | _, _ => false
  end.

(** [wins / events.length * 100] over the selected events, or [null] when
    there is none. *)
Definition win_rate_of (events : list RewardEvent) : option N :=
  if (length events =? 0)%nat then None
  else
    let wins := length (List.filter (fun r => reward r >? lit 0) events) in
    Some ((of_nat wins / of_nat (length events)) * lit 100).

(** [getRegimeWinRate(regime)] *)
Definition getRegimeWinRate (regime : string) (e : Engine) : option N :=
  if (length (rewardHistory e) =? 0)%nat then None
  else win_rate_of (List.filter (fun r => String.eqb (ev_regime r) regime) (rewardHistory e)).

(** [getActionWinRate(regime, action)] *)
Definition getActionWinRate (regime : string) (a : Action) (e : Engine) : option N :=
  if (length (rewardHistory e) =? 0)%nat then None
  else
    win_rate_of
      (List.filter (fun r => String.eqb (ev_regime r) regime && action_eqb (ev_action r) a)
                   (rewardHistory e)).

Record Performance : Type := {
  totalRewards : N;
  avgReward : N;
  p_winRate : N;
  sampleSize : nat
}.

(** [getPerformanceStats()] *)
Definition getPerformanceStats (e : Engine) : Performance :=
  if (length (rewardHistory e) =? 0)%nat
  then {| totalRewards := lit 0; avgReward := lit 0; p_winRate := lit 0; sampleSize := 0 |}
  else
    let totalReward := fold_left (fun sum r => sum + reward r) (rewardHistory e) (lit 0) in
    let wins := length (List.filter (fun r => reward r >? lit 0) (rewardHistory e)) in
    {| totalRewards := totalReward;
       avgReward := totalReward / of_nat (length (rewardHistory e));
       p_winRate := (of_nat wins / of_nat (length (rewardHistory e))) * lit 100;
       sampleSize := length (rewardHistory e) |}.

(** [loadQTable()]: a stored table replaces the current one; [None] stands
    for an empty or unreadable store. *)
Definition loadQTable (saved : option (gmap string QRow)) (e : Engine) : Engine :=
  match saved with
  | Some t => {| qTable := t; totalUpdates := totalUpdates e;
                 rewardHistory := rewardHistory e |}
  | None => e
  end.

End WithNumbers.

Arguments QRow N : clear implicits.
Arguments Slot N : clear implicits.
Arguments RewardEvent N : clear implicits.
Arguments Engine N : clear implicits.
Arguments Performance N : clear implicits.

End RLEngine.

(* ===================================================================== *)
(** * PatternRecognition: chart patterns and support/resistance levels *)
(* ===================================================================== *)

Module PatternRecognition.

Inductive Direction : Type := BEARISH | BULLISH | NEUTRAL.

Inductive LevelType : Type := high | low.

Inductive ClusterType : Type := resistance | support.

Section WithNumbers.
Context {N : Type} `{JSNumber N} `{JSAbs N}.
Local Open Scope js_scope.

(** An OHLC candle; the module reads its high [h] and its low [l]. *)
Record Candle : Type := { h : N; l : N }.

(** A peak or a trough: [{ index, price }]. *)
Record Extremum : Type := { index : nat; price : N }.

(** The objects the detectors return, one constructor per [type]. *)
Inductive Pattern : Type :=
| HEAD_AND_SHOULDERS (neckline head leftShoulder rightShoulder : N)
| INVERSE_HEAD_AND_SHOULDERS (neckline head leftShoulder rightShoulder : N)
| ASCENDING_TRIANGLE (resistance supportSlope : N)
| DESCENDING_TRIANGLE (support resistanceSlope : N)
| SYMMETRICAL_TRIANGLE (convergenceRate : N)
| DOUBLE_TOP (peak1 peak2 support : N)
| DOUBLE_BOTTOM (bottom1 bottom2 resistance : N).

Definition direction (p : Pattern) : Direction :=
  match p with
  | HEAD_AND_SHOULDERS _ _ _ _ => BEARISH
  | INVERSE_HEAD_AND_SHOULDERS _ _ _ _ => BULLISH
  | ASCENDING_TRIANGLE _ _ => BULLISH
  | DESCENDING_TRIANGLE _ _ => BEARISH
  | SYMMETRICAL_TRIANGLE _ => NEUTRAL
  | DOUBLE_TOP _ _ _ => BEARISH
  | DOUBLE_BOTTOM _ _ _ => BULLISH
  end.

Definition confidence (p : Pattern) : N :=
  match p with
  | HEAD_AND_SHOULDERS _ _ _ _ | INVERSE_HEAD_AND_SHOULDERS _ _ _ _ => lit 0.75
  | ASCENDING_TRIANGLE _ _ | DESCENDING_TRIANGLE _ _ => lit 0.65
  | SYMMETRICAL_TRIANGLE _ => lit 0.55
  | DOUBLE_TOP _ _ _ | DOUBLE_BOTTOM _ _ _ => lit 0.70
  end.

(** [arr.slice(-n)], for a positive [n]. *)
Definition slice_last {A} (n : nat) (arr : list A) : list A :=
  skipn (length arr - n) arr.

(** [arr.slice(from, to)] *)
Definition slice {A} (from to : nat) (arr : list A) : list A :=
  firstn (to - from) (skipn from arr).

(** [candles[i].h] and [candles[i].l]; the loops below stay inside the
    array. *)
Definition high_at (candles : list Candle) (i : nat) : N := num (h <$> candles !! i).
Definition low_at (candles : list Candle) (i : nat) : N := num (l <$> candles !! i).

(** [findPeaks(candles)]: the loop [for (i = 2; i < candles.length - 2; i++)]. *)
Definition findPeaks (candles : list Candle) : list Extremum :=
  flat_map
    (fun i =>
       let current := high_at candles i in
       let prev1 := high_at candles (i - 1) in
       let prev2 := high_at candles (i - 2) in
       let next1 := high_at candles (i + 1) in
       let next2 := high_at candles (i + 2) in
       if (current >? prev1) && (current >? prev2) && (current >? next1) && (current >? next2)
       then [{| index := i; price := current |}]
       else [])
    (seq 2 (length candles - 4)).

(** [findTroughs(candles)] *)
Definition findTroughs (candles : list Candle) : list Extremum :=
  flat_map
    (fun i =>
       let current := low_at candles i in
       let prev1 := low_at candles (i - 1) in
       let prev2 := low_at candles (i - 2) in
       let next1 := low_at candles (i + 1) in
       let next2 := low_at candles (i + 2) in
       if (current <? prev1) && (current <? prev2) && (current <? next1) && (current <? next2)
       then [{| index := i; price := current |}]
       else [])
    (seq 2 (length candles - 4)).

Record Trendline : Type := { slope : N; intercept : N }.

(** The four sums of the regression loop. *)
Record Sums : Type := { sumX : N; sumY : N; sumXY : N; sumX2 : N }.

Definition sums_step (s : Sums) (iv : nat * N) : Sums :=
  let '(i, v) := iv in
  {| sumX := sumX s + of_nat i;
     sumY := sumY s + v;
     sumXY := sumXY s + of_nat i * v;
     sumX2 := sumX2 s + of_nat i * of_nat i |}.

(** [calculateTrendline(values)] *)
Definition calculateTrendline (values : list N) : option Trendline :=
  if (length values <? 2)%nat then None
  else
    let n := of_nat (length values) in
    let s := fold_left sums_step (combine (seq 0 (length values)) values)
               {| sumX := lit 0; sumY := lit 0; sumXY := lit 0; sumX2 := lit 0 |} in
    let slope := (n * sumXY s - sumX s * sumY s) / (n * sumX2 s - sumX s * sumX s) in
    let intercept := (sumY s - slope * sumX s) / n in
    Some {| slope := slope; intercept := intercept |}.

(** [Math.min(...arr)] and [Math.max(...arr)] *)
Definition min_of (arr : list N) : N :=
  match arr with
  | [] => lit 1 / lit 0
  | x :: rest => fold_left nmin rest x
  end.

Definition max_of (arr : list N) : N :=
  match arr with
  | [] => lit (-1) / lit 0
  | x :: rest => fold_left nmax rest x
  end.

(** [arr[i].price] *)
Definition price_at (arr : list Extremum) (i : nat) : N := num (price <$> arr !! i).

(** [detectHeadAndShoulders(candles)] *)
Definition detectHeadAndShoulders (candles : list Candle) : option Pattern :=
  if (length candles <? 30)%nat then None
  else
    let recent := slice_last 30 candles in
    let peaks := findPeaks recent in
    let troughs := findTroughs recent in
    if (length peaks <? 3)%nat || (length troughs <? 2)%nat then None
    else
      match slice_last 3 peaks with
      | [leftShoulder; head; rightShoulder] =>
          if (price head >? price leftShoulder) && (price head >? price rightShoulder)
          then
            let shoulderDiff :=
              nabs (price leftShoulder - price rightShoulder) / price leftShoulder in
            if shoulderDiff <? lit 0.02
            then Some (HEAD_AND_SHOULDERS
                         ((price_at troughs (length troughs - 2)
                           + price_at troughs (length troughs - 1)) / lit 2)
                         (price head) (price leftShoulder) (price rightShoulder))
            else None
          else None
      | _ => None
      end.

(** [detectInverseHeadAndShoulders(candles)] *)
Definition detectInverseHeadAndShoulders (candles : list Candle) : option Pattern :=
  if (length candles <? 30)%nat then None
  else
    let recent := slice_last 30 candles in
    let peaks := findPeaks recent in
    let troughs := findTroughs recent in
    if (length troughs <? 3)%nat || (length peaks <? 2)%nat then None
    else
      match slice_last 3 troughs with
      | [leftShoulder; head; rightShoulder] =>
          if (price head <? price leftShoulder) && (price head <? price rightShoulder)
          then
            let shoulderDiff :=
              nabs (price leftShoulder - price rightShoulder) / price leftShoulder in
            if shoulderDiff <? lit 0.02
            then Some (INVERSE_HEAD_AND_SHOULDERS
                         ((price_at peaks (length peaks - 2)
                           + price_at peaks (length peaks - 1)) / lit 2)
                         (price head) (price leftShoulder) (price rightShoulder))
            else None
          else None
      | _ => None
      end.

(** [detectTriangles(candles)] *)
Definition detectTriangles (candles : list Candle) : option Pattern :=
  if (length candles <? 20)%nat then None
  else
    let recent := slice_last 20 candles in
    let highs := map h recent in
    let lows := map l recent in
    match calculateTrendline highs, calculateTrendline lows with
    | Some highTrend, Some lowTrend =>
        let highSlope := slope highTrend in
        let lowSlope := slope lowTrend in
        if (nabs highSlope <? lit 0.0001) && (lowSlope >? lit 0.0001)
        then Some (ASCENDING_TRIANGLE (intercept highTrend) lowSlope)
        else if (nabs lowSlope <? lit 0.0001) && (highSlope <? lit (-0.0001))
        then Some (DESCENDING_TRIANGLE (intercept lowTrend) highSlope)
        else if (highSlope <? lit (-0.0001)) && (lowSlope >? lit 0.0001)
        then
          let convergence := nabs highSlope + lowSlope in
          if convergence >? lit 0.0002
          then Some (SYMMETRICAL_TRIANGLE convergence)
          else None
        else None
    | _, _ => None
    end.

(** [detectDoubleTop(candles)] *)
Definition detectDoubleTop (candles : list Candle) : option Pattern :=
  if (length candles <? 20)%nat then None
  else
    let recent := slice_last 20 candles in
    let peaks := findPeaks recent in
    if (length peaks <? 2)%nat then None
    else
      match slice_last 2 peaks with
      | [peak1; peak2] =>
          let priceDiff := nabs (price peak1 - price peak2) / price peak1 in
          if (priceDiff <? lit 0.01) && (5 <=? index peak2 - index peak1)%nat
          then
            let between := slice (index peak1) (index peak2) recent in
            let minPrice := min_of (map l between) in
            Some (DOUBLE_TOP (price peak1) (price peak2) minPrice)
          else None
      | _ => None
      end.

(** [detectDoubleBottom(candles)] *)
Definition detectDoubleBottom (candles : list Candle) : option Pattern :=
  if (length candles <? 20)%nat then None
  else
    let recent := slice_last 20 candles in
    let troughs := findTroughs recent in
    if (length troughs <? 2)%nat then None
    else
      match slice_last 2 troughs with
      | [trough1; trough2] =>
          let priceDiff := nabs (price trough1 - price trough2) / price trough1 in
          if (priceDiff <? lit 0.01) && (5 <=? index trough2 - index trough1)%nat
          then
            let between := slice (index trough1) (index trough2) recent in
            let maxPrice := max_of (map h between) in
            Some (DOUBLE_BOTTOM (price trough1) (price trough2) maxPrice)
          else None
      | _ => None
      end.

(** A price level: [{ price, type, index }]. *)
Record Level : Type := { lv_price : N; lv_type : LevelType; lv_index : nat }.

(** A cluster of levels: [{ price, touches, type, strength }]. *)
Record Cluster : Type := {
  cl_price : N;
  touches : nat;
  cl_type : ClusterType;
  strength : N
}.

Definition is_type (t : LevelType) (lv : Level) : bool :=
  match lv_type lv, t with
  | high, high | low, low => true
  | _, _ => false
  end.

Definition is_cluster (t : ClusterType) (c : Cluster) : bool :=
  match cl_type c, t with
  | resistance, resistance | support, support => true
  | _, _ => false
  end.

(** [if (currentCluster.length >= 3) { ... clusters.push({...}) }] *)
Definition close_cluster (currentCluster : list Level) (clusters : list Cluster)
    : list Cluster :=
  if (3 <=? length currentCluster)%nat then
    let avgPrice :=
      fold_left (fun sum lv => sum + lv_price lv) currentCluster (lit 0)
      / of_nat (length currentCluster) in
    let touches := length currentCluster in
    let highCount := length (List.filter (is_type high) currentCluster) in
    let lowCount := length (List.filter (is_type low) currentCluster) in
    clusters ++
    [{| cl_price := avgPrice;
        touches := touches;
        cl_type := if (lowCount <? highCount)%nat then resistance else support;
        strength := nmin (lit 1) (of_nat touches / lit 10) |}]
  else clusters.

(** The body of the loop over the sorted levels. *)
Definition cluster_step (tolerance : N) (acc : list Level * list Cluster) (level : Level)
    : list Level * list Cluster :=
  let '(currentCluster, clusters) := acc in
  let prevPrice := num (lv_price <$> currentCluster !! 0%nat) in
  if nabs (lv_price level - prevPrice) / prevPrice <? tolerance
  then (currentCluster ++ [level], clusters)
  else ([level], close_cluster currentCluster clusters).

(** Provided by the host: [allLevels.sort((a, b) => a.price - b.price)] and
    [.sort((a, b) => b.strength - a.strength)]. *)
Variable sort_levels : list Level -> list Level.
Variable sort_clusters : list Cluster -> list Cluster.

Record SupportResistance : Type := {
  sr_support : list Cluster;
  sr_resistance : list Cluster
}.

(** The levels collected from the candles: a high and a low for each. *)
Definition all_levels (candles : list Candle) : list Level :=
  flat_map (fun '(index, candle) =>
              [ {| lv_price := h candle; lv_type := high; lv_index := index |};
                {| lv_price := l candle; lv_type := low; lv_index := index |} ])
           (combine (seq 0 (length candles)) candles).

(** The clusters found among sorted levels. *)
Definition clusters_of (tolerance : N) (sorted : list Level) : list Cluster :=
  match sorted with
  | [] => []
  | first :: rest =>
      let '(currentCluster, clusters) :=
        fold_left (cluster_step tolerance) rest ([first], []) in
      close_cluster currentCluster clusters
  end.

(** [identifySupportResistance(candles, tolerance)] *)
Definition identifySupportResistance (candles : list Candle) (tolerance : N)
    : SupportResistance :=
  if (length candles <? 30)%nat then {| sr_support := []; sr_resistance := [] |}
  else
    let clusters := clusters_of tolerance (sort_levels (all_levels candles)) in
    {| sr_support := sort_clusters (List.filter (is_cluster support) clusters);
       sr_resistance := sort_clusters (List.filter (is_cluster resistance) clusters) |}.

Record Analysis : Type := {
  patterns : list Pattern;
  supportResistance : SupportResistance
}.

(** [if (x) patterns.push(x)] *)
Definition push_if (patterns : list Pattern) (x : option Pattern) : list Pattern :=
  match x with
  | Some p => patterns ++ [p]
  | None => patterns
  end.

(** [analyzeAllPatterns(candles)] *)
Definition analyzeAllPatterns (candles : list Candle) : Analysis :=
  if (length candles <? 20)%nat
  then {| patterns := [];
          supportResistance := {| sr_support := []; sr_resistance := [] |} |}
  else
    let patterns := [] in
    let patterns := push_if patterns (detectHeadAndShoulders candles) in
    let patterns := push_if patterns (detectInverseHeadAndShoulders candles) in
    let patterns := push_if patterns (detectTriangles candles) in
    let patterns := push_if patterns (detectDoubleTop candles) in
    let patterns := push_if patterns (detectDoubleBottom candles) in
    {| patterns := patterns;
       supportResistance := identifySupportResistance candles (lit 0.002) |}.

End WithNumbers.

Arguments Candle N : clear implicits.
Arguments Extremum N : clear implicits.
Arguments Pattern N : clear implicits.
Arguments Trendline N : clear implicits.
Arguments Sums N : clear implicits.
Arguments Level N : clear implicits.
Arguments Cluster N : clear implicits.
Arguments SupportResistance N : clear implicits.
Arguments Analysis N : clear implicits.

End PatternRecognition.

(* ===================================================================== *)
(** * Vocabulary of the statements *)
(* ===================================================================== *)

Section HMMVocabulary.
Import HMMEngine.

(** An observation carrying [adx], [atr] and [avgPrice] only. *)
Definition observe {N} `{JSNumber N} (a t p : Q) : Indicators N :=
  {| adx := Some (lit a); atr := Some (lit t); avgPrice := Some (lit p);
     tickFrequency := None; spreadEstimate := None |}.

Definition xpos (a : xnum) : Prop := xis a (fun q => 0 < q)%Q.

Definition vpos (v : Vec4 xnum) : Prop :=
  xpos (v0 v) /\ xpos (v1 v) /\ xpos (v2 v) /\ xpos (v3 v).

(** A row of positive rationals that sum to one. *)
Definition row_ok (r : Vec4 xnum) : Prop :=
  vpos r /\ xis (vsum r) (fun q => q == 1)%Q.

Definition matrix_ok (m : Vec4 (Vec4 xnum)) : Prop :=
  row_ok (v0 m) /\ row_ok (v1 m) /\ row_ok (v2 m) /\ row_ok (v3 m).


End HMMVocabulary.

Section RLVocabulary.
Import RLEngine.

(** The Q-value stored for a regime and an action. *)
Definition q_of {N} `{JSNumber N} (regime : string) (a : Action) (e : Engine N) : N :=
  match qTable e !! regime with
  | Some row => qget row a
  | None => nan
  end.

(** [n] successive calls [updateQValue(regime, action, +1, regime)]. *)
Fixpoint repeat_update {N} `{JSNumber N}
    (n : nat) (regime : string) (a : Action) (e : Engine N) : Engine N :=
  match n with
  | O => e
  | S k => updateQValue (Z.of_nat k) regime a (lit 1) regime (repeat_update k regime a e)
  end.

(** What such a call does to the row of [regime]: the entry of [action]
    moves towards [1 + 0.9 * max(row.BUY, row.SELL)]. *)
Definition row_step {N} `{JSNumber N} (a : Action) (row : QRow N) : QRow N :=
  qset row a
    (qget row a
     + LEARNING_RATE * (lit 1 + DISCOUNT_FACTOR * nmax (q_BUY row) (q_SELL row) - qget row a))%js.

Definition row_finite (row : QRow float) : bool :=
  PrimFloat.is_finite (q_BUY row) && PrimFloat.is_finite (q_SELL row).

(** What one of the repeated calls is checked for, on the row before and
    after it: the row stays finite, the updated value is below 10 and not
    below the old value, and it is larger than the old value during the
    first [climb] calls and equal to it afterwards. *)
Definition call_ok (climb k : nat) (a : Action) (row row' : QRow float) : bool :=
  row_finite row'
  && PrimFloat.ltb (qget row' a) (lit 10)
  && negb (PrimFloat.ltb (qget row' a) (qget row a))
  && (if (k <? climb)%nat
      then PrimFloat.ltb (qget row a) (qget row' a)
      else PrimFloat.eqb (qget row' a) (qget row a)).

(** The calls number [k+1 .. k+m], checked one after the other. *)
Fixpoint run_ok (climb m k : nat) (a : Action) (row : QRow float) : bool :=
  match m with
  | O => true
  | S m' =>
      let row' := row_step a row in
      call_ok climb k a row row' && run_ok climb m' (S k) a row'
  end.

Definition regimes : list string := ["TRENDING"; "RANGING"; "VOLATILE"; "CHAOTIC"].

Definition other (a : Action) : Action := match a with BUY => SELL | SELL => BUY end.

(** The row of the updated regime: the entry of [a] is a rational in
    [[1/2, 10)], the other entry is still [1/2]. *)
Definition climbing (a : Action) (row : QRow xnum) : Prop :=
  exists x, qget row a = XNum x /\ qget row (other a) = XNum 0.5 /\ (0.5 <= x < 10)%Q.

End RLVocabulary.

Section BacktestVocabulary.
Import BacktestingEngine.

Definition is_result (o : Outcome) (s : Signal) : bool :=
  match result s, o with
  | Some WIN, WIN | Some LOSS, LOSS => true
  | _, _ => false
  end.

(** The number of signals of the list with result [o]. *)
Definition count_result (o : Outcome) (signals : list Signal) : nat :=
  length (List.filter (is_result o) signals).

End BacktestVocabulary.

Section AIVocabulary.
Context {N : Type}.

(** The buffer after a push: the old samples followed by the new one, cut
    down to its last 500 samples. *)
Definition pushed_buffer (td : list (Sample N)) (x : Sample N) : list (Sample N) :=
  skipn (length (td ++ [x]) - 500) (td ++ [x]).

End AIVocabulary.

Section HMMRuns.
Import HMMEngine.

(** What holds of the history of an engine: at most 100 entries, each
    carrying the name of its state, and the newest one recording the held
    state. *)
Definition history_ok {N} `{JSNumber N} (e : Engine N) : Prop :=
  (length (stateHistory e) <= MAX_HISTORY)%nat /\
  Forall (fun h => h_stateName h = STATE_NAMES (h_state h)) (stateHistory e) /\
  (forall h, last (stateHistory e) = Some h -> h_state h = currentState e).

Definition total_counts (t : Vec4 (Vec4 nat)) : nat :=
  (rowSum (v0 t) + rowSum (v1 t) + rowSum (v2 t) + rowSum (v3 t))%nat.

(** The history entry [h] records the state [s]. *)
Definition records_state {N} `{JSNumber N} (s : State) (h : HistoryEntry N) : bool :=
  (STATES (h_state h) =? STATES s)%nat.

End HMMRuns.

Section RLRuns.
Import RLEngine.

(** The calls that write the module's variables. *)
Inductive RLCall (N : Type) : Type :=
| RUpdate (now : Z) (regime : string) (a : Action) (r : N) (nextRegime : string)
| RReset.
#[global] Arguments RUpdate {N} _ _ _ _ _.
#[global] Arguments RReset {N}.

Definition rl_run {N} `{JSNumber N} (c : RLCall N) (e : Engine N) : Engine N :=
  match c with
  | RUpdate now regime a r nextRegime => updateQValue now regime a r nextRegime e
  | RReset => reset e
  end.

Definition rl_run_all {N} `{JSNumber N} (cs : list (RLCall N)) (e : Engine N) : Engine N :=
  fold_left (fun e c => rl_run c e) cs e.

Definition rl_ok {N} `{JSNumber N} (e : Engine N) : Prop :=
  length (rewardHistory e) = Nat.min (totalUpdates e) MAX_HISTORY /\
  forall regime, In regime regimes -> is_Some (qTable e !! regime).

Definition within_ten (a : xnum) : Prop := xis a (fun q => -10 <= q <= 10)%Q.

Definition row_bounded (row : QRow xnum) : Prop :=
  within_ten (q_BUY row) /\ within_ten (q_SELL row).

(** A name that is no property of [Object.prototype]. *)
Definition plain_name (k : string) : bool := negb (inherited k).

(** A reward between [-1] and [+1], for regimes whose names are plain. *)
Definition fair_call (c : RLCall xnum) : Prop :=
  match c with
  | RUpdate _ regime _ r nextRegime =>
      plain_name regime = true /\ plain_name nextRegime = true /\
      xis r (fun q => -1 <= q <= 1)%Q
  | RReset => True
  end.

Definition fair_event (ev : RewardEvent xnum) : Prop :=
  xis (reward ev) (fun q => -1 <= q <= 1)%Q.

End RLRuns.

Section BacktestLedger.
Import HMMEngine BacktestingEngine.

Definition same_state (a b : State) : bool :=
  match a, b with
  | TRENDING, TRENDING | RANGING, RANGING
  | VOLATILE, VOLATILE | CHAOTIC, CHAOTIC => true
  | _, _ => false
  end.

(** The signal names the regime [s]. *)
Definition in_regime (s : State) (x : Signal) : bool :=
  match regime_key (regime x) with
  | Some s' => same_state s s'
  | None => false
  end.

(** The signals of regime [s] that were won and lost. *)
Definition tally_of (s : State) (signals : list Signal) : Tally :=
  {| wins := length (List.filter (fun x => is_result WIN x && in_regime s x) signals);
     losses := length (List.filter (fun x => is_result LOSS x && in_regime s x) signals) |}.

(** The signal names no regime: its regime is missing or unknown. *)
Definition no_regime (x : Signal) : bool :=
  match regime_key (regime x) with Some _ => false | None => true end.

Definition unattributed (o : Outcome) (signals : list Signal) : nat :=
  length (List.filter (fun x => is_result o x && no_regime x) signals).

(** What a signal adds to the balance: 85% of the stake of 10 when won,
    the stake when lost. *)
Definition stake (o : option Outcome) : Q :=
  match o with
  | Some WIN => 8.5
  | Some LOSS => -10
  | None => 0
  end.

(** The invariant of the drawdown tracking: the largest drawdown so far is
    a number that is not negative, and the peak is either still 0, before
    the first signal, or positive and not below the balance. When [calm],
    no loss has been seen: the balance is at its peak and the drawdown 0. *)
Definition tracking (calm : bool) (a : Loop xnum) : Prop :=
  exists e p d,
    l_equity a = XNum e /\ l_peak a = XNum p /\ l_maxDrawdown a = XNum d /\
    (0 <= d)%Q /\
    ((p == 0 /\ 10 < e) \/ (0 < p /\ e <= p))%Q /\
    (calm = true -> (d == 0 /\ (p == 0 \/ e == p))%Q).

End BacktestLedger.

Section AIRuns.
Import AIEngine.

(** The calls a client can make on the module. *)
Inductive AICall (N : Type) : Type :=
| AInitialize (rnd : nat -> N) (saved : Stored N)
| AAddSample (indicators : AIIndicators N) (a : Action) (wasWin : bool)
| ARetrain
| AReset.
#[global] Arguments AInitialize {N} _ _.
#[global] Arguments AAddSample {N} _ _ _.
#[global] Arguments ARetrain {N}.
#[global] Arguments AReset {N}.

Definition ai_run {N} `{JSNumber N} (exp : N -> N) (c : AICall N) (e : Engine N) : Engine N :=
  match c with
  | AInitialize rnd saved => initialize rnd saved e
  | AAddSample indicators a wasWin => fst (addTrainingSample exp indicators a wasWin e)
  | ARetrain => retrain exp e
  | AReset => reset e
  end.

Definition ai_run_all {N} `{JSNumber N} (exp : N -> N) (cs : list (AICall N)) (e : Engine N)
    : Engine N :=
  fold_left (fun e c => ai_run exp c e) cs e.

(** The shape the constructor gives the weights of [new SimpleNN(5, 16, 8, 2)]:
    one row per input of the layer, one column per output. *)
Definition shaped {N} (m : SimpleNN N) : Prop :=
  length (w1 m) = 5%nat /\ Forall (fun row => length row = 16%nat) (w1 m) /\
  length (w2 m) = 16%nat /\ Forall (fun row => length row = 8%nat) (w2 m) /\
  length (w3 m) = 8%nat /\ Forall (fun row => length row = 2%nat) (w3 m).

(** The engine holds such a network and is ready. *)
Definition ready_shaped {N} (e : Engine N) : Prop :=
  isModelReady e = true /\ exists m, model e = Some m /\ shaped m.

(** [addTrainingSample] on each sample of the list in turn; the booleans
    tell which of the calls retrained. *)
Fixpoint add_all {N} `{JSNumber N} (exp : N -> N)
    (samples : list (AIIndicators N * Action * bool)) (e : Engine N)
    : Engine N * list bool :=
  match samples with
  | [] => (e, [])
  | (indicators, a, wasWin) :: rest =>
      let '(e1, retrained) := addTrainingSample exp indicators a wasWin e in
      let '(e2, later) := add_all exp rest e1 in
      (e2, retrained :: later)
  end.

End AIRuns.

Section PatternVocabulary.
Import PatternRecognition.

(** Consecutive entries of the list are at least [g] apart, in
    increasing order. *)
Fixpoint gapped (g : nat) (indexes : list nat) : Prop :=
  match indexes with
  | a :: (b :: _) as rest => (a + g <= b)%nat /\ gapped g rest
  | _ => True
  end.

(** The test of the loops of [findPeaks] and [findTroughs] at index [i],
    for the values [v] and the comparison [gt]. *)
Definition extreme_at {N} (gt : N -> N -> bool) (v : nat -> N) (i : nat) : bool :=
  gt (v i) (v (i - 1)%nat) && gt (v i) (v (i - 2)%nat)
  && gt (v i) (v (i + 1)%nat) && gt (v i) (v (i + 2)%nat).

(** The loop of [findPeaks] and [findTroughs]: the indices from [from] on
    that pass the test, each made into an entry by [mk]. *)
Definition scan {N} (gt : N -> N -> bool) (v : nat -> N) (mk : nat -> Extremum N)
    (from count : nat) : list (Extremum N) :=
  flat_map (fun i => if extreme_at gt v i then [mk i] else []) (seq from count).

(** The sums of the regression loop, over the indices [from], [from + 1],
    ... and the values [qs]. *)
Fixpoint sumk (from len : nat) : Q :=
  match len with
  | O => 0
  | S len' => inject_Z (Z.of_nat from) + sumk (S from) len'
  end.

Fixpoint sumk2 (from len : nat) : Q :=
  match len with
  | O => 0
  | S len' => inject_Z (Z.of_nat from) * inject_Z (Z.of_nat from) + sumk2 (S from) len'
  end.

Fixpoint sumq (qs : list Q) : Q :=
  match qs with
  | [] => 0
  | q :: rest => q + sumq rest
  end.

Fixpoint wsum (from : nat) (qs : list Q) : Q :=
  match qs with
  | [] => 0
  | q :: rest => inject_Z (Z.of_nat from) * q + wsum (S from) rest
  end.

(** Twenty candles whose highs lie on the line [ah + bh * k] and whose
    lows lie on [al + bl * k]. *)
Definition channel (ah bh al bl : Q) : list (Candle xnum) :=
  map (fun k => {| h := XNum (ah + bh * inject_Z (Z.of_nat k));
                   l := XNum (al + bl * inject_Z (Z.of_nat k)) |})
      (seq 0 20).

Definition total_touches {N} (clusters : list (Cluster N)) : nat :=
  fold_right (fun c n => (touches c + n)%nat) 0%nat clusters.

(** A cluster as [identifySupportResistance] builds it. *)
Definition well_made {N} `{JSNumber N} (c : Cluster N) : Prop :=
  (3 <= touches c)%nat /\
  strength c = nmin (lit 1) (of_nat (touches c) / lit 10)%js.

(** A stable sort by insertion: the order [Array.prototype.sort] gives
    when its comparator is the sign of a difference of numbers, none of
    them NaN; [lt a b] says that the comparator is negative on [(a, b)]. *)
Fixpoint insert_sorted {A} (lt : A -> A -> bool) (x : A) (sorted : list A) : list A :=
  match sorted with
  | [] => [x]
  | y :: rest => if lt y x then y :: insert_sorted lt x rest else x :: y :: rest
  end.

Definition stable_sort {A} (lt : A -> A -> bool) (l : list A) : list A :=
  fold_right (insert_sorted lt) [] l.

(** [allLevels.sort((a, b) => a.price - b.price)] *)
Definition sort_by_price {N} `{JSNumber N} (levels : list (Level N)) : list (Level N) :=
  stable_sort (fun a b => lv_price a <? lv_price b)%js levels.

(** [.sort((a, b) => b.strength - a.strength)] *)
Definition sort_by_strength {N} `{JSNumber N} (clusters : list (Cluster N))
    : list (Cluster N) :=
  stable_sort (fun a b => strength b <? strength a)%js clusters.

End PatternVocabulary.

(* ===================================================================== *)
(** * Reading doubles *)
(* ===================================================================== *)

(** The place of a double in the order of [<]: sign class first, then
    exponent and mantissa, both reversed for negative numbers.  NaN has no
    place. *)
Definition SFkey (f : spec_float) : option (Z * Z * Z) :=
  match f with
  | S754_nan => None
  | S754_infinity true => Some (-2, 0, 0)%Z
  | S754_finite true m e => Some (-1, - e, - Zpos m)%Z
  | S754_zero _ => Some (0, 0, 0)%Z
  | S754_finite false m e => Some (1, e, Zpos m)%Z
  | S754_infinity false => Some (2, 0, 0)%Z
  end.

(** The lexicographic order of the places. *)
Definition key_lt (a b : Z * Z * Z) : Prop :=
  let '(a1, a2, a3) := a in
  let '(b1, b2, b3) := b in
  (a1 < b1 \/ (a1 = b1 /\ (a2 < b2 \/ (a2 = b2 /\ a3 < b3))))%Z.

Section DoubleRounding.
Local Open Scope Z_scope.

(** What [k] right shifts leave of [m]: the quotient, the bit below it and
    whether anything is set further down. *)
Definition shifted (m : Z) (k : nat) (rec : shr_record) : Prop :=
  0 <= shr_m rec /\
  exists low,
    m = shr_m rec * 2 ^ Z.of_nat k
        + (if shr_r rec then 2 ^ (Z.of_nat k - 1) else 0) + low /\
    0 <= low < 2 ^ (Z.of_nat k - 1) /\
    (shr_s rec = false <-> low = 0).

(** [fexp] for binary64: the exponent of the last place of a number whose
    leading bit has weight [2^(e-1)]. *)
Definition fexp64 (e : Z) : Z := Z.max (e - 53) (-1074).

(** [r] is zero or a positive double, of value [M * 2^E]. *)
Definition SFshape (r : spec_float) (M E : Z) : Prop :=
  (M = 0 /\ r = S754_zero false) \/
  (exists m2 e2, r = S754_finite false m2 e2 /\ E <= e2 /\ M = Zpos m2 * 2 ^ (e2 - E)).

End DoubleRounding.

Section DoubleValues.
Local Open Scope Q_scope.

(** The number a double stands for; 0 for NaN and the infinities. *)
Definition SF2Q (f : spec_float) : Q :=
  match f with
  | S754_finite s m e => inject_Z (if s then Zneg m else Zpos m) * 2 ^ e
  | _ => 0
  end.

(** Zero or a positive finite double. *)
Definition SFnonneg (f : spec_float) : bool :=
  match f with
  | S754_zero _ | S754_finite false _ _ => true
  | _ => false
  end.

(** Half a unit in the last place of the doubles between 1 and 2:
    [2^-53]. *)
Definition half_ulp : Q := 1 # 9007199254740992.

(** The value and the sign test of a primitive double. *)
Definition F2Q (x : float) : Q := SF2Q (Prim2SF x).
Definition nonneg_finite (x : float) : bool := SFnonneg (Prim2SF x).

End DoubleValues.

Section DoubleRows.
Import HMMEngine.
Local Open Scope Q_scope.

(** The two weights of the blend, [1 - alpha] and [alpha], as the doubles
    hold them: [0.9 + 2^-55 * 0.8] and [0.1 + 2^-55 * 0.2]. *)
Definition keep_weight : Q := 8106479329266893 # 9007199254740992.
Definition new_weight : Q := 3602879701896397 # 36028797018963968.

(** The observed frequency [c / rs] as the doubles compute it is finite,
    not negative and within [half_ulp] of the quotient. *)
Definition share_ok (rs c : nat) : bool :=
  let o : float := (of_nat c / of_nat rs)%js in
  nonneg_finite o &&
  Qle_bool (Qabs (F2Q o - inject_Z (Z.of_nat c) / inject_Z (Z.of_nat rs))) half_ulp.

(** A row of the matrix on doubles: four finite non-negative numbers whose
    exact sum is 1 within [1e-12]. *)
Definition row_good (r : Vec4 float) : Prop :=
  (forall j, nonneg_finite (vget r j) = true) /\
  Qabs (F2Q (v0 r) + F2Q (v1 r) + F2Q (v2 r) + F2Q (v3 r) - 1) <= 1 # 1000000000000.

(** An engine on doubles whose history is in order and whose rows are
    good. *)
Definition engine_good (e : Engine float) : Prop :=
  history_ok e /\ forall s, row_good (vget (transitionMatrix e) s).

End DoubleRows.

(* ===================================================================== *)
(** * Facts about the two number instances *)
(* ===================================================================== *)

Lemma Qltb_lt (x y : Q) : Qltb x y = true <-> (x < y)%Q.
Proof.
  unfold Qltb. rewrite negb_true_iff, <- not_true_iff_false, Qle_bool_iff.
  split; [apply Qnot_le_lt | apply Qlt_not_le].
Qed.

Lemma Qltb_ge (x y : Q) : Qltb x y = false <-> (y <= x)%Q.
Proof. unfold Qltb. rewrite negb_false_iff. apply Qle_bool_iff. Qed.

Lemma Qeq_bool_false (x y : Q) : ~ (x == y)%Q -> Qeq_bool x y = false.
Proof.
  intros Hne. destruct (Qeq_bool x y) eqn:E; [|reflexivity].
  apply Qeq_bool_iff in E. contradiction.
Qed.

(** What [!x] tests at each instance: zero or NaN for a double, zero for a
    rational. *)
Lemma falsy_double (x : float) :
  falsy (Some x) = PrimFloat.is_zero x || PrimFloat.is_nan x.
Proof. unfold falsy; simpl. unfold float_truthy. apply negb_involutive. Qed.

Lemma falsy_exact (q : Q) : falsy (Some (XNum q)) = Qeq_bool q 0.
Proof. unfold falsy; simpl. apply negb_involutive. Qed.

Lemma xdiv_num (x y : Q) : ~ (y == 0)%Q -> xdiv (XNum x) (XNum y) = XNum (x / y).
Proof. intros Hy. simpl. now rewrite Qeq_bool_false. Qed.

#[export] Instance ExactNaN : NaNLaws xnum.
Proof. split; try (intros [q|]; reflexivity). reflexivity. Qed.

Lemma Prim2SF_nan : Prim2SF PrimFloat.nan = S754_nan.
Proof. reflexivity. Qed.

(** An operation whose specification answers NaN as soon as one operand
    is NaN. *)
Ltac float_nan spec :=
  intros; apply Prim2SF_inj; rewrite spec, ?Prim2SF_nan;
  match goal with
  | |- context [Prim2SF ?x] => destruct (Prim2SF x) as [ [|] | [|] | | [|] ? ? ]
  end; reflexivity.

Lemma float_max_nan_r (x : float) : float_max x PrimFloat.nan = PrimFloat.nan.
Proof.
  unfold float_max.
  replace (PrimFloat.is_nan PrimFloat.nan) with true by reflexivity.
  now rewrite orb_true_r.
Qed.

Lemma float_max_nan_l (x : float) : float_max PrimFloat.nan x = PrimFloat.nan.
Proof. reflexivity. Qed.

#[export] Instance DoubleNaN : NaNLaws float.
Proof.
  split; simpl.
  - float_nan add_spec.
  - float_nan add_spec.
  - float_nan sub_spec.
  - float_nan sub_spec.
  - float_nan mul_spec.
  - float_nan mul_spec.
  - float_nan div_spec.
  - float_nan div_spec.
  - apply float_max_nan_r.
  - apply float_max_nan_l.
  - reflexivity.
Qed.

(** ** The order of [<] *)

#[export] Instance ExactOrder : OrderLaws xnum.
Proof.
  split.
  - intros [x|]; [|reflexivity]. apply Qltb_ge. lra.
  - intros [x|] [y|] [z|]; try discriminate.
    change (Qltb x y = true -> Qltb y z = true -> Qltb x z = true).
    rewrite !Qltb_lt. lra.
  - intros [x|] [y|] [z|]; try discriminate; auto.
    change (Qltb x y = true -> Qltb x z = true \/ Qltb z y = true \/ XNum z = XNaN).
    rewrite !Qltb_lt. intros Hxy.
    destruct (Qlt_le_dec x z); [left; assumption | right; left; lra].
Qed.

Lemma SFltb_key (f g : spec_float) :
  SFltb f g = true <->
  exists a b, SFkey f = Some a /\ SFkey g = Some b /\ key_lt a b.
Proof.
  assert (forall m n, Pos.compare_cont Eq m n = Pos.compare m n) as Hcmp by reflexivity.
  split.
  - unfold SFltb, SFcompare.
    destruct f as [[|]|[|]| |[|] m e], g as [[|]|[|]| |[|] n e'];
      cbn [SFkey]; try discriminate; intros Hlt;
      try (eexists; eexists; split; [reflexivity|split; [reflexivity|]];
           cbn [key_lt]; lia).
    + eexists; eexists; split; [reflexivity|split; [reflexivity|]]. cbn [key_lt].
      destruct (Z.compare_spec e e'); try discriminate; try lia.
      rewrite Hcmp in Hlt. destruct (Pos.compare_spec m n); try discriminate; lia.
    + eexists; eexists; split; [reflexivity|split; [reflexivity|]]. cbn [key_lt].
      destruct (Z.compare_spec e e'); try discriminate; try lia.
      rewrite Hcmp in Hlt. destruct (Pos.compare_spec m n); try discriminate; lia.
  - intros (a & b & Ha & Hb & Hlt). unfold SFltb, SFcompare.
    destruct f as [[|]|[|]| |[|] m e], g as [[|]|[|]| |[|] n e'];
      cbn [SFkey] in Ha, Hb; try discriminate;
      injection Ha as <-; injection Hb as <-; cbn [key_lt] in Hlt;
      try reflexivity; try lia.
    + destruct (Z.compare_spec e e'); try reflexivity; try lia.
      rewrite Hcmp. destruct (Pos.compare_spec m n); try reflexivity; lia.
    + destruct (Z.compare_spec e e'); try reflexivity; try lia.
      rewrite Hcmp. destruct (Pos.compare_spec m n); try reflexivity; lia.
Qed.

Lemma key_lt_irrefl (a : Z * Z * Z) : ~ key_lt a a.
Proof. destruct a as [[a1 a2] a3]. cbn. lia. Qed.

Lemma key_lt_trans (a b c : Z * Z * Z) : key_lt a b -> key_lt b c -> key_lt a c.
Proof. destruct a as [[a1 a2] a3], b as [[b1 b2] b3], c as [[c1 c2] c3]. cbn. lia. Qed.

Lemma key_lt_cotrans (a b c : Z * Z * Z) : key_lt a b -> key_lt a c \/ key_lt c b.
Proof. destruct a as [[a1 a2] a3], b as [[b1 b2] b3], c as [[c1 c2] c3]. cbn. lia. Qed.

Lemma float_ltb_key (x y : float) :
  PrimFloat.ltb x y = true <->
  exists a b, SFkey (Prim2SF x) = Some a /\ SFkey (Prim2SF y) = Some b /\ key_lt a b.
Proof. rewrite ltb_spec. apply SFltb_key. Qed.

Lemma SFkey_None (x : float) : SFkey (Prim2SF x) = None -> x = PrimFloat.nan.
Proof.
  intros Hx. apply Prim2SF_inj.
  destruct (Prim2SF x) as [[|]|[|]| |[|] m e]; try discriminate Hx. reflexivity.
Qed.

#[export] Instance DoubleOrder : OrderLaws float.
Proof.
  split; cbn [ltb nan DoubleNum].
  - intros x. destruct (PrimFloat.ltb x x) eqn:E; [|reflexivity].
    apply float_ltb_key in E as (a & b & Ha & Hb & Hlt).
    rewrite Ha in Hb. injection Hb as <-. now apply key_lt_irrefl in Hlt.
  - intros x y z (a & b & Ha & Hb & Hab)%float_ltb_key
                 (b' & c & Hb' & Hc & Hbc)%float_ltb_key.
    rewrite Hb in Hb'. injection Hb' as <-.
    apply float_ltb_key. exists a, c. eauto using key_lt_trans.
  - intros x y z (a & b & Ha & Hb & Hab)%float_ltb_key.
    destruct (SFkey (Prim2SF z)) as [c|] eqn:Hc.
    + destruct (key_lt_cotrans a b c Hab) as [Hac|Hcb].
      * left. apply float_ltb_key. eauto.
      * right; left. apply float_ltb_key. eauto.
    + right; right. now apply SFkey_None.
Qed.

(* ===================================================================== *)
(** * The rounding of doubles *)
(* ===================================================================== *)

(** The product and the sum of two doubles are the exact result rounded
    to nearest by [binary_round_aux]: the mantissa is shifted right until
    53 bits are left, the bits shifted out decide the rounding, and a
    carry into a 54th bit costs one more shift.  For non-negative operands
    and an exact result below 2 the double obtained is within [2^-53] of
    the exact result; that is all the blend of the transition matrix
    needs. *)

Section ShiftAndRound.
Local Open Scope Z_scope.

(** [iter_pos] iterates as often as its argument says. *)
Lemma iter_pos_nat {A} (f : A -> A) (p : positive) (x : A) :
  SpecFloat.iter_pos f p x = Nat.iter (Pos.to_nat p) f x.
Proof.
  revert x. induction p as [p IH|p IH|]; intros x; cbn [SpecFloat.iter_pos].
  - rewrite !IH, Pos2Nat.inj_xI.
    change (S (2 * Pos.to_nat p))%nat with (S (Pos.to_nat p + (Pos.to_nat p + 0)))%nat.
    rewrite Nat.add_0_r, Nat.iter_succ_r, Nat.iter_add. reflexivity.
  - rewrite !IH, Pos2Nat.inj_xO.
    change (2 * Pos.to_nat p)%nat with (Pos.to_nat p + (Pos.to_nat p + 0))%nat.
    rewrite Nat.add_0_r, Nat.iter_add. reflexivity.
  - reflexivity.
Qed.

Lemma shr_1_div (q : Z) (r s : bool) :
  0 <= q ->
  exists q' r', shr_1 (Build_shr_record q r s) = Build_shr_record q' r' (r || s) /\
                0 <= q' /\ q = 2 * q' + (if r' then 1 else 0).
Proof.
  intros Hq. destruct q as [|[p|p|]|p]; try lia; cbn [shr_1].
  - exists 0, false. repeat split; lia.
  - exists (Zpos p), true. repeat split; lia.
  - exists (Zpos p), false. repeat split; lia.
  - exists 0, true. repeat split; lia.
Qed.

Lemma shifted_once (m : Z) :
  0 <= m -> shifted m 1 (shr_1 (Build_shr_record m false false)).
Proof.
  intros Hm. destruct (shr_1_div m false false Hm) as (q' & r' & -> & Hq' & Hm').
  split; [exact Hq'|]. exists 0. cbn [shr_m shr_r shr_s orb].
  change (2 ^ Z.of_nat 1) with 2. change (2 ^ (Z.of_nat 1 - 1)) with 1.
  split; [destruct r'; lia | split; [lia | split; reflexivity]].
Qed.

Lemma shifted_step (m : Z) (k : nat) (rec : shr_record) :
  (1 <= k)%nat -> shifted m k rec -> shifted m (S k) (shr_1 rec).
Proof.
  intros Hk (Hq & low & Hm & Hlow & Hs).
  destruct rec as [q r s]. cbn [shr_m shr_r shr_s] in *.
  destruct (shr_1_div q r s Hq) as (q' & r' & -> & Hq' & Hqq).
  split; [exact Hq'|]. cbn [shr_m shr_r shr_s].
  replace (Z.of_nat (S k) - 1) with (Z.of_nat k) by lia.
  replace (Z.of_nat (S k)) with (Z.succ (Z.of_nat k)) by lia.
  rewrite Z.pow_succ_r by lia.
  assert (2 ^ Z.of_nat k = 2 * 2 ^ (Z.of_nat k - 1)) as Hpow.
  { rewrite <- Z.pow_succ_r by lia. f_equal. lia. }
  set (P := 2 ^ (Z.of_nat k - 1)) in *.
  assert (0 < P) as HP by (apply Z.pow_pos_nonneg; lia).
  exists ((if r then P else 0) + low). rewrite Hpow.
  split; [|split].
  - rewrite Hm, Hpow, Hqq. destruct r'; ring.
  - destruct r; lia.
  - destruct r, s; cbn [orb]; split; intros; try discriminate; try lia;
      try reflexivity.
Qed.

Lemma shifted_iter (m : Z) (k : nat) :
  0 <= m -> (1 <= k)%nat ->
  shifted m k (Nat.iter k shr_1 (Build_shr_record m false false)).
Proof.
  intros Hm Hk. induction k as [|k IH]; [lia|].
  destruct k as [|k]; [now apply shifted_once|].
  cbn [Nat.iter]. apply shifted_step; [lia|]. apply IH. lia.
Qed.

(** The mantissa after rounding [m / 2^n] to nearest, ties to even. *)
Lemma round_shifted (m : Z) (k : nat) (rec : shr_record) :
  (1 <= k)%nat -> shifted m k rec ->
  let m1 := round_nearest_even (shr_m rec) (loc_of_shr_record rec) in
  shr_m rec <= m1 <= shr_m rec + 1 /\
  Z.abs (m1 * 2 ^ Z.of_nat k - m) <= 2 ^ (Z.of_nat k - 1).
Proof.
  intros Hk (Hq & low & Hm & Hlow & Hs) m1.
  assert (2 ^ Z.of_nat k = 2 * 2 ^ (Z.of_nat k - 1)) as Hpow.
  { rewrite <- Z.pow_succ_r by lia. f_equal. lia. }
  set (P := 2 ^ (Z.of_nat k - 1)) in *.
  assert (0 < P) as HP by (apply Z.pow_pos_nonneg; lia).
  rewrite Hpow in *. clear Hpow.
  destruct rec as [q r s]. cbn [shr_m shr_r shr_s] in *. subst m1.
  destruct r, s; cbn [loc_of_shr_record round_nearest_even].
  - assert (low <> 0) by (intros E; apply Hs in E; discriminate). nia.
  - assert (low = 0) by (now apply Hs). destruct (Z.even q); nia.
  - assert (low <> 0) by (intros E; apply Hs in E; discriminate). nia.
  - assert (low = 0) by (now apply Hs). nia.
Qed.

Lemma digits2_pos_spec (p : positive) :
  2 ^ (Zpos (digits2_pos p) - 1) <= Zpos p < 2 ^ Zpos (digits2_pos p).
Proof.
  induction p as [p IH|p IH|]; cbn [digits2_pos].
  - rewrite Pos2Z.inj_succ.
    replace (Z.succ (Zpos (digits2_pos p)) - 1) with (Z.succ (Zpos (digits2_pos p) - 1)) by lia.
    rewrite !Z.pow_succ_r by lia. lia.
  - rewrite Pos2Z.inj_succ.
    replace (Z.succ (Zpos (digits2_pos p)) - 1) with (Z.succ (Zpos (digits2_pos p) - 1)) by lia.
    rewrite !Z.pow_succ_r by lia. lia.
  - cbn. lia.
Qed.

Lemma fexp_64 (e : Z) : fexp prec emax e = fexp64 e.
Proof. reflexivity. Qed.

Lemma shr_nonpos (rec : shr_record) (e n : Z) : n <= 0 -> shr rec e n = (rec, e).
Proof. intros Hn. destruct n; [reflexivity | lia | reflexivity]. Qed.

Lemma shr_pos (rec : shr_record) (e n : Z) :
  0 < n -> shr rec e n = (Nat.iter (Z.to_nat n) shr_1 rec, e + n).
Proof.
  intros Hn. destruct n as [|p|p]; try lia. cbn [shr].
  now rewrite iter_pos_nat, Z2Nat.inj_pos.
Qed.

(** Rounding a mantissa already rounded: nothing moves, unless the
    rounding carried into a 54th bit. *)
Lemma second_shift (m1 E : Z) :
  0 <= m1 <= 2 ^ 53 -> -1074 <= E <= 970 ->
  let '(rec, e2) := shr_fexp prec emax m1 E loc_Exact in
  SFshape match shr_m rec with
          | Z0 => S754_zero false
          | Zpos p => if e2 <=? emax - prec then S754_finite false p e2
                      else S754_infinity false
          | Zneg _ => S754_nan
          end m1 E.
Proof.
  intros Hm1 HE. unfold shr_fexp. rewrite fexp_64. unfold fexp64.
  cbn [shr_record_of_loc].
  destruct m1 as [|p1|p1]; [| |lia].
  - cbn [Zdigits2]. rewrite shr_nonpos by lia. cbn [shr_m]. left. auto.
  - cbn [Zdigits2]. pose proof (digits2_pos_spec p1) as Hd.
    set (d1 := Zpos (digits2_pos p1)) in *.
    destruct (Z.eq_dec (Zpos p1) (2 ^ 53)) as [Heq|Hne].
    + assert (d1 = 54) as Hd1.
      { rewrite Heq in Hd. destruct Hd as [Hlo Hhi].
        apply Z.pow_le_mono_r_iff in Hlo; [|lia|lia].
        apply Z.pow_lt_mono_r_iff in Hhi; [|lia|lia]. lia. }
      rewrite Hd1. replace (Z.max (54 + E - 53) (-1074) - E) with 1 by lia.
      injection Heq as ->. cbn [shr SpecFloat.iter_pos shr_1 shr_m].
      replace (E + 1 <=? emax - prec) with true
        by (symmetry; apply Z.leb_le; unfold emax, prec; lia).
      right. eexists; eexists. split; [reflexivity|]. split; [lia|].
      replace (E + 1 - E) with 1 by lia. reflexivity.
    + assert (d1 <= 53) as Hd1.
      { destruct Hd as [Hlo _].
        assert (2 ^ (d1 - 1) < 2 ^ 53) as Hlt by lia.
        apply Z.pow_lt_mono_r_iff in Hlt; lia. }
      rewrite shr_nonpos by lia. cbn [shr_m].
      replace (E <=? emax - prec) with true
        by (symmetry; apply Z.leb_le; unfold emax, prec; lia).
      right. eexists; eexists. split; [reflexivity|]. split; [lia|].
      rewrite Z.sub_diag. cbn. lia.
Qed.

(** Rounding [m * 2^e], a number below 2, to a double: the value
    [M * 2^E] found is [m * 2^e] itself, or it is off by at most half a
    unit of the last place [2^E], which is at most [2^-52]. *)
Lemma round_aux_shape (m : positive) (e : Z) :
  Zpos (digits2_pos m) + e <= 1 ->
  exists M E,
    SFshape (binary_round_aux prec emax false (Zpos m) e loc_Exact) M E /\
    0 <= M /\
    ((E = e /\ M = Zpos m) \/
     (e < E <= -52 /\ 2 * Z.abs (M * 2 ^ (E - e) - Zpos m) <= 2 ^ (E - e))).
Proof.
  intros Hval. pose proof (digits2_pos_spec m) as Hd.
  unfold binary_round_aux.
  unfold shr_fexp at 1. rewrite fexp_64. cbn [Zdigits2 shr_record_of_loc].
  set (d := Zpos (digits2_pos m)) in *.
  set (n := fexp64 (d + e) - e).
  destruct (Z_le_gt_dec n 0) as [Hn|Hn].
  - rewrite shr_nonpos by exact Hn.
    cbn [shr_m loc_of_shr_record round_nearest_even].
    unfold shr_fexp. rewrite fexp_64. cbn [Zdigits2 shr_record_of_loc]. fold d. fold n.
    rewrite shr_nonpos by exact Hn. cbn [shr_m].
    assert (0 < d) as Hdpos by (unfold d; lia).
    replace (e <=? emax - prec) with true
      by (symmetry; apply Z.leb_le; unfold emax, prec; lia).
    exists (Zpos m), e. split; [|split; [lia | left; auto]].
    right. eexists; eexists. split; [reflexivity|]. split; [lia|].
    rewrite Z.sub_diag. cbn. lia.
  - rewrite shr_pos by lia.
    assert (1 <= Z.to_nat n)%nat as Hk by lia.
    pose proof (shifted_iter (Zpos m) (Z.to_nat n) ltac:(lia) Hk) as Hsh.
    set (rec := Nat.iter (Z.to_nat n) shr_1 _) in *.
    pose proof (round_shifted (Zpos m) (Z.to_nat n) rec Hk Hsh) as Hround.
    cbv zeta in Hround.
    set (m1 := round_nearest_even (shr_m rec) (loc_of_shr_record rec)) in *.
    rewrite Z2Nat.id in Hround by lia.
    destruct Hsh as (Hq & low & Hm & Hlow & _). rewrite Z2Nat.id in Hm, Hlow by lia.
    destruct Hround as [Hm1 Herr].
    assert (e + n = fexp64 (d + e)) as HE by (unfold n; lia).
    assert (-1074 <= e + n <= -52) as HErange by (rewrite HE; unfold fexp64; lia).
    assert (d - 53 <= n) as Hnd by (unfold n, fexp64; lia).
    assert (2 ^ n = 2 * 2 ^ (n - 1)) as Hpow.
    { rewrite <- Z.pow_succ_r by lia. f_equal. lia. }
    assert (0 < 2 ^ (n - 1)) as HP by (apply Z.pow_pos_nonneg; lia).
    assert (shr_m rec < 2 ^ 53) as Hq53.
    { assert (2 ^ d <= 2 ^ (n + 53)) as Hle by (apply Z.pow_le_mono_r; lia).
      rewrite Z.pow_add_r in Hle by lia.
      assert (shr_m rec * 2 ^ n < 2 ^ 53 * 2 ^ n) as Hlt.
      { destruct (shr_r rec); lia. }
      apply Z.mul_lt_mono_pos_r in Hlt; lia. }
    pose proof (second_shift m1 (e + n) ltac:(lia) ltac:(lia)) as Hsecond.
    destruct (shr_fexp prec emax m1 (e + n) loc_Exact) as [rec2 e2].
    exists m1, (e + n). split; [exact Hsecond|]. split; [lia|]. right.
    split; [lia|]. replace (e + n - e) with n by lia. lia.
Qed.

End ShiftAndRound.

Section RoundingError.
Import HMMEngine.
Local Open Scope Q_scope.

Lemma pow2_pos (e : Z) : 0 < 2 ^ e.
Proof. apply Qpower_0_lt. reflexivity. Qed.

Lemma pow2_add (a b : Z) : 2 ^ (a + b) == 2 ^ a * 2 ^ b.
Proof. apply Qpower_plus. discriminate. Qed.

Lemma pow2_inject (n : Z) : (0 <= n)%Z -> inject_Z (2 ^ n) == 2 ^ n.
Proof. intros Hn. now rewrite Zpower_Qpower. Qed.

Lemma pow2_le (a b : Z) : (a <= b)%Z -> 2 ^ a <= 2 ^ b.
Proof. intros Hab. apply Qpower_le_compat_l; [exact Hab | discriminate]. Qed.

Lemma pow2_lt_inv (a b : Z) : 2 ^ a < 2 ^ b -> (a < b)%Z.
Proof. intros Hab. apply (Qpower_lt_compat_l_inv 2); [exact Hab | reflexivity]. Qed.

Lemma SFshape_value (r : spec_float) (M E : Z) :
  SFshape r M E -> SFnonneg r = true /\ SF2Q r == inject_Z M * 2 ^ E.
Proof.
  intros [[-> ->] | (m2 & e2 & -> & He & ->)]; cbn [SFnonneg SF2Q].
  - split; [reflexivity|]. ring.
  - split; [reflexivity|].
    rewrite inject_Z_mult, pow2_inject by lia.
    replace e2 with ((e2 - E) + E)%Z at 1 by lia.
    rewrite pow2_add. ring.
Qed.

(** A number below 2 has its leading bit below [2^1]. *)
Lemma below_two_digits (m : positive) (e : Z) :
  inject_Z (Zpos m) * 2 ^ e < 2 -> (Zpos (digits2_pos m) + e <= 1)%Z.
Proof.
  intros Hval. destruct (digits2_pos_spec m) as [Hlo _].
  set (d := Zpos (digits2_pos m)) in *.
  assert (2 ^ (d - 1 + e) < 2 ^ 1) as Hlt.
  { rewrite pow2_add, <- pow2_inject by (unfold d; lia).
    apply Qle_lt_trans with (inject_Z (Zpos m) * 2 ^ e); [|exact Hval].
    apply Qmult_le_compat_r; [|apply Qlt_le_weak, pow2_pos].
    now rewrite <- Zle_Qle. }
  apply pow2_lt_inv in Hlt. lia.
Qed.

Lemma round_aux_error (m : positive) (e : Z) :
  inject_Z (Zpos m) * 2 ^ e < 2 ->
  let r := binary_round_aux prec emax false (Zpos m) e loc_Exact in
  SFnonneg r = true /\ 0 <= SF2Q r /\
  Qabs (SF2Q r - inject_Z (Zpos m) * 2 ^ e) <= half_ulp.
Proof.
  intros Hval r.
  destruct (round_aux_shape m e (below_two_digits m e Hval))
    as (M & E & Hshape & HM & Hcases).
  fold r in Hshape. destruct (SFshape_value r M E Hshape) as [Hnn Hv].
  split; [exact Hnn|]. split.
  { rewrite Hv. apply Qmult_le_0_compat; [|apply Qlt_le_weak, pow2_pos].
    change 0 with (inject_Z 0). now rewrite <- Zle_Qle. }
  rewrite Hv. destruct Hcases as [[-> ->] | [HE Herr]].
  - assert (inject_Z (Zpos m) * 2 ^ e - inject_Z (Zpos m) * 2 ^ e == 0) as -> by ring.
    discriminate.
  - set (D := (M * 2 ^ (E - e) - Zpos m)%Z) in *.
    assert (inject_Z M * 2 ^ E - inject_Z (Zpos m) * 2 ^ e == inject_Z D * 2 ^ e) as ->.
    { unfold D. rewrite <- Z.add_opp_r, inject_Z_plus, inject_Z_opp, inject_Z_mult,
        pow2_inject by lia.
      replace E with ((E - e) + e)%Z at 1 by lia. rewrite pow2_add. ring. }
    assert (2 ^ (E - e) * 2 ^ e <= 2 * half_ulp) as Hulp.
    { rewrite <- pow2_add. replace (E - e + e)%Z with E by lia.
      apply Qle_trans with (2 ^ (-52)); [apply pow2_le; lia | discriminate]. }
    assert (- 2 ^ (E - e) <= 2 * inject_Z D <= 2 ^ (E - e)) as [Hlo Hhi].
    { assert (inject_Z (- 2 ^ (E - e)) <= inject_Z (2 * D) <= inject_Z (2 ^ (E - e)))
        as Hz by (rewrite <- !Zle_Qle; lia).
      rewrite inject_Z_opp, inject_Z_mult, pow2_inject in Hz by lia.
      exact Hz. }
    pose proof (pow2_pos e) as HP.
    set (P := 2 ^ e) in *. set (T := 2 ^ (E - e)) in *. set (D' := inject_Z D) in *.
    apply Qabs_Qle_condition. split; nra.
Qed.

Lemma SFnonneg_value (f : spec_float) : SFnonneg f = true -> 0 <= SF2Q f.
Proof.
  destruct f as [s|s| |[|] m e]; try discriminate; intros _; cbn [SF2Q];
    try apply Qle_refl.
  apply Qmult_le_0_compat; [|apply Qlt_le_weak, pow2_pos].
  change 0 with (inject_Z 0). rewrite <- Zle_Qle. lia.
Qed.

(** The product of two non-negative doubles, when it is below 2. *)
Lemma SFmul_error (x y : spec_float) :
  SFnonneg x = true -> SFnonneg y = true -> SF2Q x * SF2Q y < 2 ->
  let r := SFmul prec emax x y in
  SFnonneg r = true /\ 0 <= SF2Q r /\ Qabs (SF2Q r - SF2Q x * SF2Q y) <= half_ulp.
Proof.
  destruct x as [sx|sx| |[|] mx ex]; try discriminate;
    destruct y as [sy|sy| |[|] my ey]; try discriminate; intros _ _ Hval;
    cbn [SFmul SF2Q xorb] in *;
    try (split; [reflexivity|]; split; [apply Qle_refl|];
         match goal with |- Qabs ?t <= _ => assert (t == 0) as -> by ring end;
         discriminate).
  assert (inject_Z (Zpos mx) * 2 ^ ex * (inject_Z (Zpos my) * 2 ^ ey)
          == inject_Z (Zpos (mx * my)) * 2 ^ (ex + ey)) as Hprod.
  { rewrite Pos2Z.inj_mul, inject_Z_mult, pow2_add. ring. }
  rewrite Hprod in Hval |- *. now apply round_aux_error.
Qed.

Lemma iter_xO (m d : positive) : Zpos (Pos.iter xO m d) = (Zpos m * 2 ^ Zpos d)%Z.
Proof.
  induction d as [|d IH] using Pos.peano_ind.
  - cbn. lia.
  - rewrite Pos.iter_succ, Pos2Z.inj_succ, Z.pow_succ_r by lia.
    rewrite Pos2Z.inj_xO, IH. ring.
Qed.

(** Aligning a mantissa to a smaller exponent keeps the number. *)
Lemma shl_align_value (m : positive) (e e' : Z) :
  let '(m', e'') := shl_align m e e' in
  inject_Z (Zpos m') * 2 ^ e'' == inject_Z (Zpos m) * 2 ^ e /\
  (e' <= e -> e'' = e')%Z.
Proof.
  unfold shl_align. destruct (e' - e)%Z as [|d|d] eqn:Hd.
  - split; [reflexivity | lia].
  - split; [reflexivity | lia].
  - split; [|reflexivity].
    assert (e = Zpos d + e')%Z as -> by lia.
    rewrite iter_xO, inject_Z_mult, pow2_inject, pow2_add by lia. ring.
Qed.

Lemma binary_round_error (m : positive) (e : Z) :
  inject_Z (Zpos m) * 2 ^ e < 2 ->
  let r := binary_round prec emax false m e in
  SFnonneg r = true /\ 0 <= SF2Q r /\
  Qabs (SF2Q r - inject_Z (Zpos m) * 2 ^ e) <= half_ulp.
Proof.
  intros Hval. unfold binary_round.
  pose proof (shl_align_value m e (fexp prec emax (Zpos (digits2_pos m) + e))) as Hal.
  destruct (shl_align m e _) as [mz ez]. destruct Hal as [Hal _].
  rewrite <- Hal in Hval |- *. now apply round_aux_error.
Qed.

(** The sum of two non-negative doubles, when it is below 2. *)
Lemma SFadd_error (x y : spec_float) :
  SFnonneg x = true -> SFnonneg y = true -> SF2Q x + SF2Q y < 2 ->
  let r := SFadd prec emax x y in
  SFnonneg r = true /\ 0 <= SF2Q r /\ Qabs (SF2Q r - (SF2Q x + SF2Q y)) <= half_ulp.
Proof.
  intros Hx Hy Hval.
  pose proof (SFnonneg_value x Hx) as Hx0. pose proof (SFnonneg_value y Hy) as Hy0.
  destruct x as [sx|sx| |[|] mx ex]; try discriminate;
    destruct y as [sy|sy| |[|] my ey]; try discriminate.
  - cbv zeta. cbn [SFadd]. destruct sx, sy; cbn [SFnonneg SF2Q];
      (split; [reflexivity|]; split; [apply Qle_refl|]; discriminate).
  - cbv zeta. cbn [SFadd SFnonneg]. split; [reflexivity|]. split; [exact Hy0|].
    cbn [SF2Q].
    match goal with |- Qabs ?t <= _ => assert (t == 0) as -> by ring end. discriminate.
  - cbv zeta. cbn [SFadd SFnonneg]. split; [reflexivity|]. split; [exact Hx0|].
    cbn [SF2Q].
    match goal with |- Qabs ?t <= _ => assert (t == 0) as -> by ring end. discriminate.
  - cbv zeta. cbn [SFadd cond_Zopp SF2Q] in *.
    pose proof (shl_align_value mx ex (Z.min ex ey)) as Hax.
    pose proof (shl_align_value my ey (Z.min ex ey)) as Hay.
    destruct (shl_align mx ex (Z.min ex ey)) as [mx' ex'].
    destruct (shl_align my ey (Z.min ex ey)) as [my' ey'].
    destruct Hax as [Hax Hex]. destruct Hay as [Hay Hey].
    rewrite Hex in Hax by lia. rewrite Hey in Hay by lia.
    cbn [fst]. change (Zpos mx' + Zpos my')%Z with (Zpos (mx' + my')).
    cbn [binary_normalize].
    assert (inject_Z (Zpos mx) * 2 ^ ex + inject_Z (Zpos my) * 2 ^ ey
            == inject_Z (Zpos (mx' + my')) * 2 ^ Z.min ex ey) as Hsum.
    { rewrite <- Hax, <- Hay, Pos2Z.inj_add, inject_Z_plus. ring. }
    rewrite Hsum in Hval |- *. now apply binary_round_error.
Qed.

Lemma float_mul_error (x y : float) :
  nonneg_finite x = true -> nonneg_finite y = true -> F2Q x * F2Q y < 2 ->
  nonneg_finite (x * y)%js = true /\ 0 <= F2Q (x * y)%js /\
  Qabs (F2Q (x * y)%js - F2Q x * F2Q y) <= half_ulp.
Proof.
  unfold nonneg_finite, F2Q. cbn [mul DoubleNum]. rewrite mul_spec.
  apply SFmul_error.
Qed.

Lemma float_add_error (x y : float) :
  nonneg_finite x = true -> nonneg_finite y = true -> F2Q x + F2Q y < 2 ->
  nonneg_finite (x + y)%js = true /\ 0 <= F2Q (x + y)%js /\
  Qabs (F2Q (x + y)%js - (F2Q x + F2Q y)) <= half_ulp.
Proof.
  unfold nonneg_finite, F2Q. cbn [add DoubleNum]. rewrite add_spec.
  apply SFadd_error.
Qed.


Lemma keep_weight_double :
  nonneg_finite (lit 1 - alpha)%js = true /\ F2Q (lit 1 - alpha)%js == keep_weight.
Proof. split; vm_compute; reflexivity. Qed.

Lemma new_weight_double :
  nonneg_finite (alpha : float) = true /\ F2Q (alpha : float) == new_weight.
Proof. split; vm_compute; reflexivity. Qed.

Lemma shares_checked :
  forallb (fun rs => forallb (share_ok rs) (seq 0 (S rs))) (seq 1 99) = true.
Proof. vm_compute. reflexivity. Qed.

End RoundingError.

(* ===================================================================== *)
(** * HMMEngine: properties *)
(* ===================================================================== *)

Section HMMProperties.
Import HMMEngine.

(** ** The soft-fail guard *)

(** C1, as amended: when [adx], [atr] or [avgPrice] is missing, zero or NaN
    (that is, falsy), [detectRegime] answers the held state with the uniform
    vector and confidence 50, and leaves the engine (held state, history
    and matrix) as it was. *)
Theorem detectRegime_soft_fail {N} `{JSNumber N}
    (now : Z) (ind : Indicators N) (e : Engine N) :
  falsy (adx ind) || falsy (atr ind) || falsy (avgPrice ind) = true ->
  detectRegime now ind e =
    ({| state := currentState e;
        stateName := STATE_NAMES (currentState e);
        confidence := lit 50;
        stateProbs := mkVec4 (lit 0.25) (lit 0.25) (lit 0.25) (lit 0.25);
        previousState := None |}, e).
Proof. intros Hguard. unfold detectRegime. now rewrite Hguard. Qed.

(** The guard fires on a zero [atr], on a NaN [avgPrice] and on a missing
    [adx] alike. *)
Lemma detectRegime_soft_fail_witness :
  let soft_fail : RegimeResult float :=
    {| state := RANGING; stateName := "RANGING"; confidence := lit 50;
       stateProbs := mkVec4 (lit 0.25) (lit 0.25) (lit 0.25) (lit 0.25);
       previousState := None |} in
  let zero_atr : Indicators float :=
    {| adx := Some (lit 30); atr := Some (lit 0); avgPrice := Some (lit 1);
       tickFrequency := None; spreadEstimate := None |} in
  let nan_price : Indicators float :=
    {| adx := Some (lit 30); atr := Some (lit 0.008); avgPrice := Some nan;
       tickFrequency := None; spreadEstimate := None |} in
  let no_adx : Indicators float :=
    {| adx := None; atr := Some (lit 0.008); avgPrice := Some (lit 1);
       tickFrequency := None; spreadEstimate := None |} in
  falsy (atr zero_atr) = true /\ detectRegime 0 zero_atr initial = (soft_fail, initial) /\
  falsy (avgPrice nan_price) = true /\ detectRegime 0 nan_price initial = (soft_fail, initial) /\
  falsy (adx no_adx) = true /\ detectRegime 0 no_adx initial = (soft_fail, initial).
Proof.
  intros soft_fail zero_atr nan_price no_adx.
  split; [reflexivity|]. split.
  { apply (detectRegime_soft_fail 0 zero_atr initial). reflexivity. }
  split; [reflexivity|]. split.
  { apply (detectRegime_soft_fail 0 nan_price initial). reflexivity. }
  split; [reflexivity|].
  apply (detectRegime_soft_fail 0 no_adx initial). reflexivity.
Defined.

(** C1 fails as stated: [adx = -5] is non-positive but truthy, so the
    observation is classified like any other. From the initial engine the
    answer has confidence above 95, not 50, and the history grows by one
    entry. The same happens with doubles and with exact rationals. *)
Lemma detectRegime_negative_adx_is_classified :
  (let ind : Indicators float := observe (-5) 0.008 1 in
   let '(r, e') := detectRegime 0 ind initial in
   (num (adx ind) <? lit 0)%js = true /\
   (confidence r >? lit 95)%js = true /\
   (vget (stateProbs r) RANGING >? lit 0.25)%js = true /\
   length (stateHistory e') = 1%nat /\ stateHistory initial = @nil (HistoryEntry float))
  /\
  (let ind : Indicators xnum := observe (-5) 0.008 1 in
   let '(r, e') := detectRegime 0 ind initial in
   (num (adx ind) <? lit 0)%js = true /\
   (confidence r >? lit 95)%js = true /\
   length (stateHistory e') = 1%nat).
Proof.
  split.
  - vm_compute. repeat split; reflexivity.
  - vm_compute. repeat split; reflexivity.
Qed.

(** ** The scenario {adx: 30, atr: 0.008, avgPrice: 1.0} from RANGING *)

(** C4 fails as stated: the scenario is classified TRENDING, but with a
    confidence that is below 50, not above it. The posterior of TRENDING is
    0.081 / 0.169, about 0.479, against 0.075 / 0.169 for RANGING. *)
Lemma scenario_confidence_not_above_50 :
  (let r := fst (detectRegime (N := float) 0 (observe 30 0.008 1) initial) in
   currentState (initial (N := float)) = RANGING /\
   (confidence r >? lit 50)%js = false /\ (confidence r <? lit 50)%js = true)
  /\
  (let r := fst (detectRegime (N := xnum) 0 (observe 30 0.008 1) initial) in
   (confidence r >? lit 50)%js = false /\ (confidence r <? lit 50)%js = true).
Proof. vm_compute. repeat split; reflexivity. Qed.

(** C4, as amended: from RANGING with the default matrix the scenario is
    classified TRENDING with a confidence between 47.92 and 47.93; in
    exact arithmetic the confidence is 8100/169. *)
Theorem scenario_classified_trending :
  (let r := fst (detectRegime (N := float) 0 (observe 30 0.008 1) initial) in
   state r = TRENDING /\ stateName r = "TRENDING" /\
   (lit 47.92 <? confidence r)%js = true /\ (confidence r <? lit 47.93)%js = true)
  /\
  (let r := fst (detectRegime (N := xnum) 0 (observe 30 0.008 1) initial) in
   state r = TRENDING /\ xis (confidence r) (fun q => q == 8100 # 169)%Q).
Proof. vm_compute. repeat split; reflexivity. Qed.

(** ** What touches the transition matrix *)

Lemma detectRegime_matrix {N} `{JSNumber N}
    (now : Z) (ind : Indicators N) (e : Engine N) :
  transitionMatrix (snd (detectRegime now ind e)) = transitionMatrix e.
Proof.
  unfold detectRegime.
  destruct (falsy (adx ind) || falsy (atr ind) || falsy (avgPrice ind)); [reflexivity|].
  destruct (select_best _ _); reflexivity.
Qed.

(** C9: of the calls of the interface, only [updateTransitionMatrix]
    writes the matrix, and it does so entry by entry through [blend_row];
    [detectRegime], [getStateStability] and [reset] leave all sixteen
    entries as they were. *)
Theorem transitionMatrix_frame {N} `{JSNumber N} (c : Call N) (e : Engine N) :
  transitionMatrix (run c e) =
    match c with
    | CUpdateTransitionMatrix =>
        if (length (stateHistory e) <? 20)%nat then transitionMatrix e
        else
          let t := count_transitions (stateHistory e) in
          let m := transitionMatrix e in
          mkVec4 (blend_row (v0 m) (v0 t)) (blend_row (v1 m) (v1 t))
                 (blend_row (v2 m) (v2 t)) (blend_row (v3 m) (v3 t))
    | CDetectRegime _ _ | CGetStateStability | CReset => transitionMatrix e
    end.
Proof.
  destruct c as [now ind| | |]; simpl.
  - apply detectRegime_matrix.
  - reflexivity.
  - unfold updateTransitionMatrix.
    destruct (length (stateHistory e) <? 20)%nat; reflexivity.
  - reflexivity.
Qed.

(** ** Reachable engines, in exact arithmetic *)

Lemma xpos_inv (a : xnum) : xpos a -> exists q, a = XNum q /\ (0 < q)%Q.
Proof. destruct a as [q|]; simpl; [eauto | tauto]. Qed.

Lemma xpos_lit (q : Q) : (0 < q)%Q -> xpos (lit q).
Proof. exact (fun Hq => Hq). Qed.

Lemma xpos_if (c : bool) (a b : xnum) : xpos a -> xpos b -> xpos (if c then a else b).
Proof. now destruct c. Qed.

Lemma xpos_mul (a b : xnum) : xpos a -> xpos b -> xpos (a * b)%js.
Proof.
  intros (x & -> & Hx)%xpos_inv (y & -> & Hy)%xpos_inv. simpl.
  now apply Qmult_lt_0_compat.
Qed.

Lemma xpos_add (a b : xnum) : xpos a -> xpos b -> xpos (a + b)%js.
Proof.
  intros (x & -> & Hx)%xpos_inv (y & -> & Hy)%xpos_inv. simpl. lra.
Qed.

Lemma xpos_div (a b : xnum) : xpos a -> xpos b -> xpos (a / b)%js.
Proof.
  intros (x & -> & Hx)%xpos_inv (y & -> & Hy)%xpos_inv.
  change (xpos (xdiv (XNum x) (XNum y))). rewrite xdiv_num by lra. simpl.
  apply Qlt_shift_div_l; lra.
Qed.

Lemma xpos_min (a b : xnum) : xpos a -> xpos b -> xpos (nmin a b).
Proof.
  intros (x & -> & Hx)%xpos_inv (y & -> & Hy)%xpos_inv. simpl.
  now destruct (Qle_bool x y).
Qed.

Lemma vpos_inv (v : Vec4 xnum) :
  vpos v ->
  exists a b c d, v = mkVec4 (XNum a) (XNum b) (XNum c) (XNum d) /\
                  (0 < a /\ 0 < b /\ 0 < c /\ 0 < d)%Q.
Proof.
  destruct v as [a b c d]. unfold vpos; simpl.
  intros ((x & -> & Hx)%xpos_inv & (y & -> & Hy)%xpos_inv &
          (z & -> & Hz)%xpos_inv & (w & -> & Hw)%xpos_inv).
  exists x, y, z, w. auto.
Qed.

Lemma vpos_get (v : Vec4 xnum) (s : State) : vpos v -> xpos (vget v s).
Proof. intros (H0 & H1 & H2 & H3). now destruct s. Qed.

(** Dividing positive entries by their sum gives positive entries that
    sum to one; the divisor is not zero. *)
Lemma normalise_ok (v : Vec4 xnum) :
  vpos v -> row_ok (vmap (fun p => p / vsum v)%js v).
Proof.
  intros (a & b & c & d & -> & Ha & Hb & Hc & Hd)%vpos_inv.
  unfold row_ok, vpos, vmap, vsum; simpl.
  assert (~ (0 + a + b + c + d == 0)%Q) as Hs by lra.
  rewrite (Qeq_bool_false _ _ Hs). simpl.
  repeat split; try (apply Qlt_shift_div_l; lra).
  field. lra.
Qed.

Create HintDb xpos.
#[local] Hint Resolve xpos_if xpos_mul xpos_add xpos_div xpos_min vpos_get : xpos.
#[local] Hint Extern 1 (xpos (lit _)) => apply xpos_lit; reflexivity : xpos.

Lemma emission_ok (a r : xnum) (tf se : xnum) :
  xpos a -> xpos r -> row_ok (calculateEmissionProbabilities a r tf se).
Proof.
  intros Ha Hr. unfold calculateEmissionProbabilities; cbv zeta.
  apply normalise_ok.
  repeat split; cbn [v0 v1 v2 v3]; auto 8 with xpos.
Qed.

Lemma posterior_ok (e : Engine xnum) (em : Vec4 xnum) :
  matrix_ok (transitionMatrix e) -> vpos em -> row_ok (posterior e em).
Proof.
  intros Hm Hem. unfold posterior; cbv zeta.
  assert (vpos (vget (transitionMatrix e) (currentState e))) as Hrow.
  { destruct Hm as ((H0 & _) & (H1 & _) & (H2 & _) & (H3 & _)).
    now destruct (currentState e). }
  apply normalise_ok.
  repeat split; cbn [v0 v1 v2 v3]; auto with xpos.
Qed.

Lemma xltb_num (x y : Q) : xltb (XNum x) (XNum y) = Qltb x y.
Proof. reflexivity. Qed.

(** Decide the next comparison of two rationals in the goal. *)
Ltac case_Qltb :=
  match goal with
  | |- context [Qltb ?x ?y] =>
      let E := fresh "E" in
      destruct (Qltb x y) eqn:E; [apply Qltb_lt in E | apply Qltb_ge in E]
  end.

(** The scan keeps the first of the largest entries. *)
Lemma select_best_first (p : Vec4 xnum) (cur : State) :
  vpos p ->
  let '(maxProb, best) := select_best p cur in
  maxProb = vget p best /\
  (forall j, (vget p j >? vget p best)%js = false) /\
  (forall j, (STATES j < STATES best)%nat -> (vget p j <? vget p best)%js = true).
Proof.
  intros (a & b & c & d & -> & Ha & Hb & Hc & Hd)%vpos_inv.
  unfold select_best, all_states, scan_step; simpl.
  assert (Qltb 0 a = true) as -> by now apply Qltb_lt.
  rewrite xltb_num; case_Qltb; rewrite xltb_num; case_Qltb;
    rewrite xltb_num; case_Qltb;
    (split; [reflexivity|]);
    (split; intros [| | |]; simpl; try lia; intros;
       first [ apply Qltb_lt; lra | apply Qltb_ge; lra ]).
Qed.

(** ** The moving-average blend keeps rows stochastic *)

Lemma of_nat_exact (n : nat) : of_nat n = XNum (inject_Z (Z.of_nat n)).
Proof. reflexivity. Qed.

Lemma rowSum_inject (c : Vec4 nat) :
  (inject_Z (Z.of_nat (rowSum c)) ==
     inject_Z (Z.of_nat (v0 c)) + inject_Z (Z.of_nat (v1 c))
     + inject_Z (Z.of_nat (v2 c)) + inject_Z (Z.of_nat (v3 c)))%Q.
Proof.
  unfold rowSum; simpl.
  rewrite !Nat2Z.inj_add, !inject_Z_plus. reflexivity.
Qed.

Lemma inject_nat_nonneg (n : nat) : (0 <= inject_Z (Z.of_nat n))%Q.
Proof. change 0%Q with (inject_Z 0). rewrite <- Zle_Qle. lia. Qed.

Lemma share_nonneg (x r : Q) : (0 <= x)%Q -> (0 < r)%Q -> (0 <= x / r)%Q.
Proof. intros Hx Hr. apply Qle_shift_div_l; lra. Qed.

(** The arithmetic of one blended row: [R] is the row's count total and
    [c0 .. c3] its counts. *)
Lemma blend_arith (a b c d c0 c1 c2 c3 R : Q) :
  (0 < a)%Q -> (0 < b)%Q -> (0 < c)%Q -> (0 < d)%Q ->
  (0 + a + b + c + d == 1)%Q ->
  (0 <= c0)%Q -> (0 <= c1)%Q -> (0 <= c2)%Q -> (0 <= c3)%Q ->
  (0 < R)%Q -> (R == c0 + c1 + c2 + c3)%Q ->
  (0 < (1 - 0.1) * a + 0.1 * (c0 / R))%Q /\
  (0 < (1 - 0.1) * b + 0.1 * (c1 / R))%Q /\
  (0 < (1 - 0.1) * c + 0.1 * (c2 / R))%Q /\
  (0 < (1 - 0.1) * d + 0.1 * (c3 / R))%Q /\
  (0 + ((1 - 0.1) * a + 0.1 * (c0 / R)) + ((1 - 0.1) * b + 0.1 * (c1 / R))
     + ((1 - 0.1) * c + 0.1 * (c2 / R)) + ((1 - 0.1) * d + 0.1 * (c3 / R)) == 1)%Q.
Proof.
  intros Ha Hb Hc Hd Hsum H0 H1 H2 H3 HR Hinj.
  assert (c0 / R + c1 / R + c2 / R + c3 / R == 1)%Q as Hshares.
  { transitivity ((c0 + c1 + c2 + c3) / R)%Q; [field; lra|].
    rewrite <- Hinj. field. lra. }
  pose proof (share_nonneg c0 R H0 HR) as S0.
  pose proof (share_nonneg c1 R H1 HR) as S1.
  pose proof (share_nonneg c2 R H2 HR) as S2.
  pose proof (share_nonneg c3 R H3 HR) as S3.
  set (x0 := (c0 / R)%Q) in *. set (x1 := (c1 / R)%Q) in *.
  set (x2 := (c2 / R)%Q) in *. set (x3 := (c3 / R)%Q) in *.
  repeat split; lra.
Qed.

Lemma blend_row_ok (old : Vec4 xnum) (counts : Vec4 nat) :
  row_ok old -> row_ok (blend_row old counts).
Proof.
  intros Hold. unfold blend_row; cbv zeta.
  destruct (0 <? rowSum counts)%nat eqn:Hrs; [|exact Hold].
  apply Nat.ltb_lt in Hrs.
  destruct Hold as ((a & b & c & d & -> & Ha & Hb & Hc & Hd)%vpos_inv & Hsum).
  unfold vsum in Hsum; simpl in Hsum.
  assert (0 < inject_Z (Z.of_nat (rowSum counts)))%Q as Hpos.
  { change 0%Q with (inject_Z 0). rewrite <- Zlt_Qlt. lia. }
  assert (Qeq_bool (inject_Z (Z.of_nat (rowSum counts))) 0 = false) as HR
    by (apply Qeq_bool_false; lra).
  destruct (blend_arith a b c d _ _ _ _ _ Ha Hb Hc Hd Hsum
              (inject_nat_nonneg (v0 counts)) (inject_nat_nonneg (v1 counts))
              (inject_nat_nonneg (v2 counts)) (inject_nat_nonneg (v3 counts))
              Hpos (rowSum_inject counts)) as (P0 & P1 & P2 & P3 & PS).
  unfold row_ok, vpos, vsum, alpha; simpl.
  rewrite !HR; simpl.
  repeat split; assumption.
Qed.

Lemma initialMatrix_ok : matrix_ok initialMatrix.
Proof.
  unfold matrix_ok, row_ok, vpos, vsum; simpl. repeat split; reflexivity.
Qed.

Lemma run_matrix_ok (c : Call xnum) (e : Engine xnum) :
  matrix_ok (transitionMatrix e) -> matrix_ok (transitionMatrix (run c e)).
Proof.
  intros Hm. destruct c as [now ind| | |]; simpl; try exact Hm.
  - now rewrite detectRegime_matrix.
  - unfold updateTransitionMatrix.
    destruct (length (stateHistory e) <? 20)%nat; [exact Hm|].
    destruct Hm as (H0 & H1 & H2 & H3).
    cbn [transitionMatrix]. repeat split; apply blend_row_ok; assumption.
Qed.

Lemma run_all_matrix_ok (cs : list (Call xnum)) (e : Engine xnum) :
  matrix_ok (transitionMatrix e) -> matrix_ok (transitionMatrix (run_all cs e)).
Proof.
  revert e. induction cs as [|c cs IH]; intros e Hm; [exact Hm|].
  simpl. apply IH, run_matrix_ok, Hm.
Qed.

Lemma matrix_ok_row (m : Vec4 (Vec4 xnum)) (s : State) :
  matrix_ok m -> row_ok (vget m s).
Proof. intros (H0 & H1 & H2 & H3). now destruct s. Qed.

(** In exact arithmetic, after any sequence of calls from the initial
    engine, each of the four rows of the transition matrix sums to exactly
    1, so within 1e-6, and every entry stays positive. *)
Lemma transition_rows_exact (cs : list (Call xnum)) (s : State) :
  xis (vsum (vget (transitionMatrix (run_all cs initial)) s))
      (fun q => Qabs (q - 1) <= 1e-6)%Q.
Proof.
  pose proof (run_all_matrix_ok cs initial initialMatrix_ok) as Hm.
  apply (matrix_ok_row _ s) in Hm. destruct Hm as [_ Hsum].
  destruct (vsum _) as [q|]; simpl in *; [|exact Hsum].
  apply (proj2 (Qabs_Qle_condition (q - 1) 1e-6)).
  change (1e-6)%Q with (1 # 1000000)%Q. split; lra.
Qed.

(** One run on doubles: thirty observations alternating between a strong
    trend and a quiet range, then two updates of the matrix. The rows of
    the visited states have moved, the first row sums to
    1.0000000000000002 and every row to 1 within 1e-6. *)
Example blend_on_doubles :
  let calls : list (Call float) :=
    flat_map (fun k => [CDetectRegime k (observe 35 0.008 1);
                        CDetectRegime k (observe 10 0.008 1)])
             (map Z.of_nat (seq 0 15))
    ++ [CUpdateTransitionMatrix; CUpdateTransitionMatrix] in
  let m := transitionMatrix (run_all calls initial) in
  (vget (vget m RANGING) TRENDING >? lit 0.3)%js = true /\
  PrimFloat.eqb (vsum (vget m TRENDING)) 1.0000000000000002 = true /\
  forallb (fun s => ((vsum (vget m s) - lit 1 <? lit 1e-6)
                     && (lit (-1e-6) <? vsum (vget m s) - lit 1))%js) all_states = true.
Proof. vm_compute. repeat split; reflexivity. Qed.

(** ** Which state the scan selects *)


(** In exact arithmetic, for an observation with positive [adx], [atr] and
    [avgPrice] in any engine reached from the initial one, the normalised
    posterior is a vector of positive numbers summing to one; the new state
    is an argmax of it, the first among several, the confidence is 100
    times the maximum, and the new state becomes the held state. *)
Lemma detectRegime_exact_argmax
    (cs : list (Call xnum)) (now : Z) (a t p : Q) (tf se : option xnum) :
  (0 < a)%Q -> (0 < t)%Q -> (0 < p)%Q ->
  let e := run_all cs initial in
  let ind := {| adx := Some (XNum a); atr := Some (XNum t); avgPrice := Some (XNum p);
                tickFrequency := tf; spreadEstimate := se |} in
  let '(r, e') := detectRegime now ind e in
  row_ok (stateProbs r) /\
  (forall j, (vget (stateProbs r) j >? vget (stateProbs r) (state r))%js = false) /\
  (forall j, (STATES j < STATES (state r))%nat ->
             (vget (stateProbs r) j <? vget (stateProbs r) (state r))%js = true) /\
  confidence r = (vget (stateProbs r) (state r) * lit 100)%js /\
  currentState e' = state r.
Proof.
  intros Ha Ht Hp e ind.
  pose proof (run_all_matrix_ok cs initial initialMatrix_ok) as Hm. fold e in Hm.
  unfold detectRegime, ind; cbn [adx atr avgPrice tickFrequency spreadEstimate].
  rewrite !falsy_exact, !Qeq_bool_false by lra. cbn [orb num].
  set (em := calculateEmissionProbabilities _ _ _ _).
  assert (row_ok em) as [Hem _].
  { apply emission_ok; [exact Ha|].
    apply (xpos_div (XNum t) (XNum p)); assumption. }
  pose proof (posterior_ok e em Hm Hem) as Hpost.
  pose proof (select_best_first (posterior e em) (currentState e) (proj1 Hpost)) as Hsel.
  destruct (select_best (posterior e em) (currentState e)) as [maxProb best].
  destruct Hsel as (-> & Hmax & Hfirst).
  cbn [state stateProbs confidence currentState].
  repeat split; try assumption; apply Hpost.
Qed.






End HMMProperties.

(* ===================================================================== *)
(** * RLEngine: properties *)
(* ===================================================================== *)

Section RLProperties.
Import RLEngine.

Lemma qget_qset {N} `{JSNumber N} (row : QRow N) (a : Action) (x : N) :
  qget (qset row a x) a = x /\ qget (qset row a x) (other a) = qget row (other a).
Proof. destruct a; split; reflexivity. Qed.

Lemma push_reward_cases {N} `{JSNumber N} (h : list (RewardEvent N)) (x : RewardEvent N) :
  (length h < MAX_HISTORY /\ push_reward h x = h ++ [x]) \/
  (MAX_HISTORY <= length h /\ push_reward h x = tl h ++ [x]).
Proof.
  unfold push_reward; cbv zeta. rewrite length_app; simpl.
  destruct (MAX_HISTORY <? length h + 1)%nat eqn:E.
  - right. apply Nat.ltb_lt in E. split; [lia|].
    destruct h as [|y h]; [simpl in E; unfold MAX_HISTORY in E; lia | reflexivity].
  - left. apply Nat.ltb_ge in E. split; [lia | reflexivity].
Qed.

(** What [qTable[name]] finds, from what the table holds. *)
Lemma slot_own {N} `{JSNumber N} (t : gmap string (QRow N)) (name : string) (row : QRow N) :
  t !! name = Some row -> slot t name = Own row.
Proof. intros Hrow. unfold slot. now rewrite Hrow. Qed.

Lemma slot_plain {N} `{JSNumber N} (t : gmap string (QRow N)) (name : string) :
  inherited name = false ->
  read (slot t name) = t !! name.
Proof. intros Hname. unfold slot. rewrite Hname. now destruct (t !! name). Qed.

Lemma read_Some {N} `{JSNumber N} (t : gmap string (QRow N)) (name : string) (row : QRow N) :
  read (slot t name) = Some row ->
  t !! name = Some row \/
  (t !! name = None /\ inherited name = true /\ row = {| q_BUY := nan; q_SELL := nan |}).
Proof.
  unfold slot. destruct (t !! name) as [row'|]; cbn [read].
  - intros [= ->]. now left.
  - destruct (inherited name); cbn [read]; [|discriminate].
    intros [= <-]. right. auto.
Qed.

(** The update between two rows of the table. *)
Lemma updateQValue_rows {N} `{JSNumber N}
    (now : Z) (regime : string) (a : Action) (r : N) (nextRegime : string)
    (e : Engine N) (row next : QRow N) :
  qTable e !! regime = Some row -> qTable e !! nextRegime = Some next ->
  updateQValue now regime a r nextRegime e =
  let currentQ := qget row a in
  let newQ :=
    (currentQ
     + LEARNING_RATE * (r + DISCOUNT_FACTOR * nmax (q_BUY next) (q_SELL next) - currentQ))%js in
  {| qTable := <[regime := qset row a newQ]> (qTable e);
     totalUpdates := S (totalUpdates e);
     rewardHistory :=
       push_reward (rewardHistory e)
         {| timestamp := now; ev_regime := regime; ev_action := a;
            reward := r; oldQ := currentQ; newQ := newQ |} |}.
Proof.
  intros Hrow Hnext. unfold updateQValue.
  now rewrite (slot_own _ _ _ Hrow), (slot_own _ _ _ Hnext).
Qed.

(** The update the guard lets through, whatever the two names found. *)
Lemma updateQValue_read {N} `{JSNumber N}
    (now : Z) (regime : string) (a : Action) (r : N) (nextRegime : string)
    (e : Engine N) (row next : QRow N) :
  read (slot (qTable e) regime) = Some row ->
  read (slot (qTable e) nextRegime) = Some next ->
  let currentQ := qget row a in
  let newQ :=
    (currentQ
     + LEARNING_RATE * (r + DISCOUNT_FACTOR * nmax (q_BUY next) (q_SELL next) - currentQ))%js in
  let e' := updateQValue now regime a r nextRegime e in
  totalUpdates e' = S (totalUpdates e) /\
  rewardHistory e' =
    push_reward (rewardHistory e)
      {| timestamp := now; ev_regime := regime; ev_action := a;
         reward := r; oldQ := currentQ; newQ := newQ |} /\
  qTable e' =
    match qTable e !! regime with
    | Some _ => <[regime := qset row a newQ]> (qTable e)
    | None => qTable e
    end.
Proof.
  intros Hrow Hnext currentQ newQ e'. unfold e', updateQValue.
  rewrite Hrow, Hnext. cbn [totalUpdates rewardHistory qTable].
  repeat split. unfold slot.
  destruct (qTable e !! regime); [reflexivity|].
  now destruct (inherited regime).
Qed.

(** Between names that are no properties of [Object.prototype] the update
    is the one of the table's own rows. *)
Lemma updateQValue_plain {N} `{JSNumber N}
    (now : Z) (regime : string) (a : Action) (r : N) (nextRegime : string)
    (e : Engine N) :
  inherited regime = false -> inherited nextRegime = false ->
  updateQValue now regime a r nextRegime e =
  match qTable e !! regime, qTable e !! nextRegime with
  | Some row, Some next =>
      let currentQ := qget row a in
      let newQ :=
        (currentQ
         + LEARNING_RATE * (r + DISCOUNT_FACTOR * nmax (q_BUY next) (q_SELL next) - currentQ))%js in
      {| qTable := <[regime := qset row a newQ]> (qTable e);
         totalUpdates := S (totalUpdates e);
         rewardHistory :=
           push_reward (rewardHistory e)
             {| timestamp := now; ev_regime := regime; ev_action := a;
                reward := r; oldQ := currentQ; newQ := newQ |} |}
  | _, _ => e
  end.
Proof.
  intros Hregime Hnext.
  destruct (qTable e !! regime) as [row|] eqn:Erow;
    [destruct (qTable e !! nextRegime) as [next|] eqn:Enext|].
  - now apply updateQValue_rows.
  - unfold updateQValue. rewrite (slot_plain _ nextRegime Hnext), Enext.
    now destruct (read (slot (qTable e) regime)).
  - unfold updateQValue. now rewrite (slot_plain _ regime Hregime), Erow.
Qed.

(** C6: with both regime keys present, [updateQValue] stores
    [Q + 0.1 * (reward + 0.9 * max(Q'.BUY, Q'.SELL) - Q)] at
    [(regime, action)], leaves every other entry of the table alone, counts
    the update, and appends one event to the reward history, dropping the
    oldest event once 500 are held.  When [qTable[name]] is [undefined] for
    one of the two names, the engine is left exactly as it was.  A name that
    is no key of the table but a property every object inherits passes the
    guard: the call is then no no-op, it counts an update and appends an
    event computed from NaN, and leaves the rows of the table alone when
    the inherited name is the first. *)
Theorem updateQValue_spec {N} `{JSNumber N}
    (now : Z) (regime : string) (a : Action) (r : N) (nextRegime : string)
    (e : Engine N) :
  (forall row next,
      qTable e !! regime = Some row -> qTable e !! nextRegime = Some next ->
      let newQ :=
        (qget row a
         + lit 0.1 * (r + lit 0.9 * nmax (q_BUY next) (q_SELL next) - qget row a))%js in
      let ev := {| timestamp := now; ev_regime := regime; ev_action := a;
                   reward := r; oldQ := qget row a; newQ := newQ |} in
      let e' := updateQValue now regime a r nextRegime e in
      q_of regime a e' = newQ /\
      q_of regime (other a) e' = q_of regime (other a) e /\
      (forall k, k <> regime -> qTable e' !! k = qTable e !! k) /\
      totalUpdates e' = S (totalUpdates e) /\
      ((length (rewardHistory e) < 500 /\
        rewardHistory e' = rewardHistory e ++ [ev]) \/
       (500 <= length (rewardHistory e) /\
        rewardHistory e' = tl (rewardHistory e) ++ [ev])))
  /\
  (slot (qTable e) regime = Missing \/ slot (qTable e) nextRegime = Missing ->
   updateQValue now regime a r nextRegime e = e)
  /\
  (forall row next,
      read (slot (qTable e) regime) = Some row ->
      read (slot (qTable e) nextRegime) = Some next ->
      qTable e !! regime = None \/ qTable e !! nextRegime = None ->
      let newQ :=
        (qget row a
         + lit 0.1 * (r + lit 0.9 * nmax (q_BUY next) (q_SELL next) - qget row a))%js in
      let ev := {| timestamp := now; ev_regime := regime; ev_action := a;
                   reward := r; oldQ := qget row a; newQ := newQ |} in
      let e' := updateQValue now regime a r nextRegime e in
      e' <> e /\
      totalUpdates e' = S (totalUpdates e) /\
      ((length (rewardHistory e) < 500 /\
        rewardHistory e' = rewardHistory e ++ [ev]) \/
       (500 <= length (rewardHistory e) /\
        rewardHistory e' = tl (rewardHistory e) ++ [ev])) /\
      (qTable e !! regime = None -> qTable e' = qTable e)).
Proof.
  split; [|split].
  - intros row next Hrow Hnext newQ ev e'.
    assert (e' = {| qTable := <[regime := qset row a newQ]> (qTable e);
                    totalUpdates := S (totalUpdates e);
                    rewardHistory := push_reward (rewardHistory e) ev |}) as ->.
    { unfold e'. now rewrite (updateQValue_rows now regime a r nextRegime e row next). }
    unfold q_of; cbn [qTable totalUpdates rewardHistory].
    rewrite lookup_insert_eq, Hrow.
    destruct (qget_qset row a newQ) as [-> ->].
    repeat split.
    + intros k Hk. now apply lookup_insert_ne.
    + apply push_reward_cases.
  - unfold updateQValue. intros [-> | ->]; cbn [read]; [reflexivity|].
    now destruct (read (slot (qTable e) regime)).
  - intros row next Hrow Hnext _ newQ ev e'.
    destruct (updateQValue_read now regime a r nextRegime e row next Hrow Hnext)
      as (Hcount & Hhist & Htable).
    fold e' in Hcount, Hhist, Htable.
    split; [|split; [exact Hcount|split]].
    + intros Heq. rewrite Heq in Hcount. lia.
    + rewrite Hhist. apply push_reward_cases.
    + intros Hnone. now rewrite Htable, Hnone.
Qed.

(** The three parts at work on the initial table: an update of
    [(TRENDING, BUY)] with reward [+1], a call naming a regime the table
    does not hold, and a call whose next regime is [constructor]. *)
Lemma updateQValue_spec_witness :
  (let e : Engine float := initial in
   qTable e !! "TRENDING" = Some fresh_row /\ qTable e !! "RANGING" = Some fresh_row /\
   q_of "TRENDING" BUY (updateQValue 7 "TRENDING" BUY (lit 1) "RANGING" e)
     = (lit 0.5 + lit 0.1 * (lit 1 + lit 0.9 * nmax (lit 0.5) (lit 0.5) - lit 0.5))%js)
  /\
  (let e : Engine float := initial in
   slot (qTable e) "SIDEWAYS" = Missing /\
   updateQValue 7 "SIDEWAYS" BUY (lit 1) "RANGING" e = e)
  /\
  (let e : Engine float := initial in
   qTable e !! "constructor" = None /\
   updateQValue 7 "TRENDING" BUY (lit 1) "constructor" e <> e).
Proof.
  pose proof (updateQValue_spec (N := float) 7 "TRENDING" BUY (lit 1) "RANGING" initial)
    as [Hpresent _].
  pose proof (updateQValue_spec (N := float) 7 "SIDEWAYS" BUY (lit 1) "RANGING" initial)
    as (_ & Habsent & _).
  pose proof (updateQValue_spec (N := float) 7 "TRENDING" BUY (lit 1) "constructor" initial)
    as (_ & _ & Hinherited).
  split; [|split].
  - split; [reflexivity|]. split; [reflexivity|].
    exact (proj1 (Hpresent fresh_row fresh_row eq_refl eq_refl)).
  - split; [reflexivity|]. apply Habsent. left. reflexivity.
  - split; [reflexivity|].
    exact (proj1 (Hinherited fresh_row {| q_BUY := nan; q_SELL := nan |}
                    eq_refl eq_refl (or_intror eq_refl))).
Defined.

(** C6, the failing call: [updateQValue('TRENDING', 'BUY', 1, 'constructor')]
    on the initial engine.  The table has no key [constructor], yet the
    update is counted, an event is appended, and the value stored for
    [(TRENDING, BUY)] is NaN. *)
Lemma updateQValue_inherited_name :
  let e : Engine float := initial in
  let e' := updateQValue 7 "TRENDING" BUY (lit 1) "constructor" e in
  qTable e !! "constructor" = None /\
  totalUpdates e' = 1%nat /\
  length (rewardHistory e') = 1%nat /\
  q_of "TRENDING" BUY e = lit 0.5 /\
  q_of "TRENDING" BUY e' = nan.
Proof. repeat split; vm_compute; reflexivity. Qed.

(** ** Ten thousand rewarded updates *)

(** Repeated updates of one regime rewrite the row of that regime only. *)
Lemma repeat_update_table {N} `{JSNumber N}
    (regime : string) (a : Action) (e : Engine N) (row : QRow N) (n : nat) :
  qTable e !! regime = Some row ->
  qTable (repeat_update n regime a e) = <[regime := Nat.iter n (row_step a) row]> (qTable e).
Proof.
  intros Hrow. induction n as [|n IH]; simpl.
  - symmetry. now apply insert_id.
  - rewrite (updateQValue_rows _ regime a (lit 1) regime _
               (Nat.iter n (row_step a) row) (Nat.iter n (row_step a) row))
      by (rewrite IH; apply lookup_insert_eq).
    cbn [qTable]. rewrite IH. now rewrite insert_insert_eq.
Qed.

Lemma repeat_update_q {N} `{JSNumber N}
    (regime : string) (a b : Action) (e : Engine N) (row : QRow N) (n : nat) :
  qTable e !! regime = Some row ->
  q_of regime b (repeat_update n regime a e) = qget (Nat.iter n (row_step a) row) b.
Proof.
  intros Hrow. unfold q_of.
  now rewrite (repeat_update_table regime a e row n Hrow), lookup_insert_eq.
Qed.

Lemma updateQValue_q {N} `{JSNumber N}
    (now : Z) (regime : string) (a b : Action) (e : Engine N) (row : QRow N) :
  qTable e !! regime = Some row ->
  q_of regime b (updateQValue now regime a (lit 1) regime e) = qget (row_step a row) b.
Proof.
  intros Hrow. unfold q_of.
  rewrite (updateQValue_rows now regime a (lit 1) regime e row row Hrow Hrow).
  cbn [qTable]. now rewrite lookup_insert_eq.
Qed.

Lemma initial_rows {N} `{JSNumber N} (k : string) (row : QRow N) :
  qTable initial !! k = Some row -> row = fresh_row.
Proof.
  unfold initial, initialQTable; cbn [qTable].
  rewrite !lookup_insert_Some, lookup_empty. intuition congruence.
Qed.

Lemma initial_regimes {N} `{JSNumber N} (regime : string) :
  In regime regimes -> qTable initial !! regime = Some fresh_row.
Proof.
  intros [<-|[<-|[<-|[<-|[]]]]]; reflexivity.
Qed.

Lemma run_ok_sound (climb : nat) (a : Action) (row0 : QRow float) (m k : nat) :
  run_ok climb m k a (Nat.iter k (row_step a) row0) = true ->
  forall n, (k <= n < k + m)%nat ->
    call_ok climb n a (Nat.iter n (row_step a) row0) (Nat.iter (S n) (row_step a) row0) = true.
Proof.
  revert k. induction m as [|m IH]; intros k Hrun n Hn; [lia|].
  simpl in Hrun. apply andb_true_iff in Hrun as [Hcall Hrest].
  destruct (Nat.eq_dec n k) as [->|Hne]; [exact Hcall|].
  apply (IH (S k)); [exact Hrest | lia].
Qed.

Lemma ten_thousand_updates_ok (a : Action) :
  run_ok 3196 (Z.to_nat 10000) 0 a fresh_row = true.
Proof. destruct a; vm_compute; reflexivity. Qed.

(** C7 fails as stated: in double precision the climb stops short of the
    fixed point. After 3196 calls the Q-value is 9.9999999999999076, still
    below 10, and call 3197 stores the very same value: the increment
    [0.1 * (1 + 0.9 * Q - Q)] is then smaller than half a unit in the last
    place of [Q]. *)
Lemma q_value_stalls_below_fixed_point :
  let before : Engine float := repeat_update 3196 "TRENDING" BUY initial in
  let after := updateQValue 3196 "TRENDING" BUY (lit 1) "TRENDING" before in
  PrimFloat.eqb (q_of "TRENDING" BUY before) 9.9999999999999076 = true /\
  (q_of "TRENDING" BUY before <? lit 10)%js = true /\
  (q_of "TRENDING" BUY before <? q_of "TRENDING" BUY after)%js = false /\
  PrimFloat.eqb (q_of "TRENDING" BUY after) (q_of "TRENDING" BUY before) = true.
Proof. vm_compute. repeat split; reflexivity. Qed.

(** C7, as amended: from the initial table, for each regime and action,
    during 10,000 repeated calls [updateQValue(regime, action, +1, regime)]
    every Q-value of the table stays finite and the updated value stays
    below the fixed point 10 and never decreases; it strictly increases on
    each of the first 3196 calls and is unchanged by every later one. *)
Theorem q_value_climbs_then_stalls (regime : string) (a : Action) (n : nat) :
  In regime regimes -> (Z.of_nat n < 10000)%Z ->
  let before : Engine float := repeat_update n regime a initial in
  let after := updateQValue (Z.of_nat n) regime a (lit 1) regime before in
  (forall k row, qTable after !! k = Some row ->
     PrimFloat.is_finite (q_BUY row) = true /\ PrimFloat.is_finite (q_SELL row) = true) /\
  (q_of regime a after <? lit 10)%js = true /\
  (q_of regime a after <? q_of regime a before)%js = false /\
  ((n < 3196)%nat -> (q_of regime a before <? q_of regime a after)%js = true) /\
  ((3196 <= n)%nat ->
   PrimFloat.eqb (q_of regime a after) (q_of regime a before) = true).
Proof.
  intros Hregime Hn before after.
  apply (initial_regimes (N := float)) in Hregime.
  change after with (repeat_update (S n) regime a (initial (N := float))).
  unfold before.
  rewrite !(repeat_update_q regime a a initial fresh_row) by exact Hregime.
  rewrite (repeat_update_table regime a initial fresh_row (S n) Hregime).
  assert (call_ok 3196 n a (Nat.iter n (row_step a) fresh_row)
            (Nat.iter (S n) (row_step a) fresh_row) = true) as Hcall.
  { apply (run_ok_sound 3196 a fresh_row (Z.to_nat 10000) 0 (ten_thousand_updates_ok a)).
    lia. }
  unfold call_ok in Hcall.
  apply andb_true_iff in Hcall as [Hcall Hstep].
  apply andb_true_iff in Hcall as [Hcall Hmono].
  apply andb_true_iff in Hcall as [Hfin Hlt].
  apply negb_true_iff in Hmono.
  split.
  { intros k row. rewrite lookup_insert_Some. intros [[_ <-] | [_ Hk]].
    - now apply andb_true_iff in Hfin.
    - apply initial_rows in Hk as ->. split; reflexivity. }
  split; [exact Hlt|]. split; [exact Hmono|].
  destruct (n <? 3196)%nat eqn:En.
  - apply Nat.ltb_lt in En. split; [intros _; exact Hstep | lia].
  - apply Nat.ltb_ge in En. split; [lia | intros _; exact Hstep].
Qed.

(** Call number 3197 of the run on [(TRENDING, BUY)] is one of the later
    calls. *)
Lemma q_value_climbs_then_stalls_witness :
  In "TRENDING" regimes /\ (Z.of_nat 3196 < 10000)%Z /\
  let before : Engine float := repeat_update 3196 "TRENDING" BUY initial in
  let after := updateQValue (Z.of_nat 3196) "TRENDING" BUY (lit 1) "TRENDING" before in
  (q_of "TRENDING" BUY after <? lit 10)%js = true /\
  (q_of "TRENDING" BUY after <? q_of "TRENDING" BUY before)%js = false.
Proof.
  assert (In "TRENDING" regimes) as Hin by (left; reflexivity).
  assert (Z.of_nat 3196 < 10000)%Z as Hlt by reflexivity.
  split; [exact Hin|]. split; [exact Hlt|].
  pose proof (q_value_climbs_then_stalls "TRENDING" BUY 3196 Hin Hlt) as H.
  cbv zeta in H. destruct H as (_ & Hbelow & Hmono & _).
  split; assumption.
Defined.

(** ** The same run in exact arithmetic *)

Lemma row_step_climbing (a : Action) (row : QRow xnum) :
  climbing a row ->
  climbing a (row_step a row) /\
  (qget row a <? qget (row_step a row) a)%js = true /\
  (qget (row_step a row) a <? lit 10)%js = true.
Proof.
  intros (x & Hx & Hy & Hlo & Hhi).
  destruct row as [b s]; destruct a; simpl in Hx, Hy; subst;
    unfold row_step, climbing; simpl.
  - destruct (Qle_bool x 0.5) eqn:E;
      [apply Qle_bool_iff in E | apply not_true_iff_false in E; rewrite Qle_bool_iff in E];
      (split; [eexists; split; [reflexivity|]; split; [reflexivity|]; lra|]);
      split; apply Qltb_lt; lra.
  - destruct (Qle_bool 0.5 x) eqn:E;
      [apply Qle_bool_iff in E | apply not_true_iff_false in E; rewrite Qle_bool_iff in E];
      (split; [eexists; split; [reflexivity|]; split; [reflexivity|]; lra|]);
      split; apply Qltb_lt; lra.
Qed.

Lemma iter_climbing (a : Action) (n : nat) :
  climbing a (Nat.iter n (row_step a) fresh_row).
Proof.
  induction n as [|n IH]; simpl.
  - exists 0.5%Q. destruct a; repeat split; try reflexivity; simpl; lra.
  - now apply row_step_climbing.
Qed.

(** Without rounding the claim of C7 holds for every number of calls: each
    call strictly increases the Q-value, which stays a rational below the
    fixed point 10. *)
Theorem q_value_climbs_exact (regime : string) (a : Action) (n : nat) :
  In regime regimes ->
  let before : Engine xnum := repeat_update n regime a initial in
  let after := updateQValue (Z.of_nat n) regime a (lit 1) regime before in
  (q_of regime a before <? q_of regime a after)%js = true /\
  (q_of regime a after <? lit 10)%js = true.
Proof.
  intros Hregime before after.
  apply (initial_regimes (N := xnum)) in Hregime.
  change after with (repeat_update (S n) regime a (initial (N := xnum))).
  unfold before.
  rewrite !(repeat_update_q regime a a initial fresh_row) by exact Hregime.
  apply (row_step_climbing a (Nat.iter n (row_step a) fresh_row)), iter_climbing.
Qed.

Lemma q_value_climbs_exact_witness :
  In "VOLATILE" regimes /\
  let before : Engine xnum := repeat_update 40 "VOLATILE" SELL initial in
  let after := updateQValue 40 "VOLATILE" SELL (lit 1) "VOLATILE" before in
  (q_of "VOLATILE" SELL before <? q_of "VOLATILE" SELL after)%js = true /\
  (q_of "VOLATILE" SELL after <? lit 10)%js = true.
Proof.
  assert (In "VOLATILE" regimes) as Hin by (right; right; left; reflexivity).
  split; [exact Hin|].
  exact (q_value_climbs_exact "VOLATILE" SELL 40 Hin).
Defined.

End RLProperties.

(* ===================================================================== *)
(** * BacktestingEngine: properties *)
(* ===================================================================== *)

Section BacktestProperties.
Import BacktestingEngine.

Lemma loop_counts {N} `{JSNumber N} (signals : list Signal) (a : Loop N) :
  l_wins (fold_left loop_body signals a) = (l_wins a + count_result WIN signals)%nat /\
  l_losses (fold_left loop_body signals a) = (l_losses a + count_result LOSS signals)%nat.
Proof.
  revert a. induction signals as [|s signals IH]; intros a.
  - unfold count_result; simpl. lia.
  - cbn [fold_left]. destruct (IH (loop_body a s)) as [-> ->].
    unfold count_result, loop_body, is_result.
    destruct s as [[[|]|] name]; simpl; lia.
Qed.

(** C8, as amended: for every non-empty list of signals, [wins] and
    [losses] are the numbers of WIN and LOSS signals of the list, and the
    returned profit factor is [(wins * 10 * 0.85) / (losses * 10)] when
    the list holds at least one LOSS, and 0 when it holds none. *)
Theorem runBacktest_profitFactor {N} `{JSNumber N}
    (now : Z) (signals : list Signal) (log : list (Z * BacktestResult N)) :
  signals <> [] ->
  exists r,
    fst (runBacktest now signals log) = Results r /\
    r_wins r = count_result WIN signals /\
    r_losses r = count_result LOSS signals /\
    profitFactor r =
      if (0 <? r_losses r)%nat
      then ((of_nat (r_wins r) * lit 10 * lit 0.85) / (of_nat (r_losses r) * lit 10))%js
      else lit 0.
Proof.
  intros Hne. destruct signals as [|s signals]; [congruence|].
  unfold runBacktest. eexists. split; [reflexivity|].
  cbn [r_wins r_losses profitFactor].
  destruct (loop_counts (s :: signals) loop_start) as [Hw Hl].
  rewrite Hw, Hl. repeat split.
Qed.

Lemma runBacktest_profitFactor_witness :
  let signals :=
    [ {| result := Some WIN; regime := Some "TRENDING" |};
      {| result := Some LOSS; regime := Some "RANGING" |};
      {| result := Some WIN; regime := None |} ] in
  signals <> [] /\
  exists r : BacktestResult float,
    fst (runBacktest 0 signals []) = Results r /\
    r_wins r = count_result WIN signals /\
    r_losses r = count_result LOSS signals /\
    profitFactor r =
      if (0 <? r_losses r)%nat
      then ((of_nat (r_wins r) * lit 10 * lit 0.85) / (of_nat (r_losses r) * lit 10))%js
      else lit 0.
Proof.
  intros signals.
  assert (signals <> []) as Hne by discriminate.
  split; [exact Hne|].
  exact (runBacktest_profitFactor (N := float) 0 signals [] Hne).
Defined.

(** C8 fails as stated on a list without a LOSS: for a single WIN the
    quotient [(1 * 10 * 0.85) / (0 * 10)] is [Infinity] (no number at all
    in exact arithmetic), while the profit factor returned is 0. *)
Lemma profitFactor_without_losses :
  let signals := [ {| result := Some WIN; regime := Some "TRENDING" |} ] in
  (exists r : BacktestResult float,
      fst (runBacktest 0 signals []) = Results r /\
      r_wins r = 1%nat /\ r_losses r = 0%nat /\
      PrimFloat.eqb (profitFactor r) 0 = true /\
      PrimFloat.eqb ((of_nat 1 * lit 10 * lit 0.85) / (of_nat 0 * lit 10))%js
                    PrimFloat.infinity = true /\
      PrimFloat.eqb (profitFactor r)
                    ((of_nat 1 * lit 10 * lit 0.85) / (of_nat 0 * lit 10))%js = false)
  /\
  (exists r : BacktestResult xnum,
      fst (runBacktest 0 signals []) = Results r /\
      r_wins r = 1%nat /\ r_losses r = 0%nat /\
      profitFactor r = XNum 0 /\
      ((of_nat 1 * lit 10 * lit 0.85) / (of_nat 0 * lit 10))%js = XNaN).
Proof.
  split; eexists; (split; [reflexivity|]); vm_compute; repeat split; reflexivity.
Qed.

End BacktestProperties.

(* ===================================================================== *)
(** * AIEngine: properties *)
(* ===================================================================== *)

Section NetworkProperties.
Import AIEngine.
Context {N : Type} `{NaNLaws N}.
Variable exp : N -> N.
Hypothesis exp_nan : exp nan = nan.

(** ** The orientation of the weight matrices *)

Lemma length_randomRow (rnd : nat -> N) (k cols : nat) :
  length (randomRow rnd k cols) = cols.
Proof. unfold randomRow. now rewrite length_map, length_seq. Qed.

(** [randomMatrix(rows, cols)] has [rows] rows of [cols] entries: the
    first dimension is the one [matmul] maps over. *)
Lemma randomMatrix_shape (rnd : nat -> N) (k rows cols : nat) :
  length (randomMatrix rnd k rows cols) = rows /\
  Forall (fun row => length row = cols) (randomMatrix rnd k rows cols).
Proof.
  unfold randomMatrix. split.
  - now rewrite length_map, length_seq.
  - apply Forall_map, Forall_forall. intros i _. apply length_randomRow.
Qed.

Lemma dot_from_nan (i : nat) (row vector : list N) : dot_from i row vector nan = nan.
Proof.
  revert i. induction row as [|val row IH]; intros i; simpl; [reflexivity|].
  rewrite add_nan_l. apply IH.
Qed.

(** A row longer than the vector reads [undefined] past its end. *)
Lemma dot_from_short (i : nat) (row vector : list N) (sum : N) :
  (i <= length vector < i + length row)%nat -> dot_from i row vector sum = nan.
Proof.
  revert i sum. induction row as [|val row IH]; intros i sum Hlen; simpl in *; [lia|].
  destruct (vector !! i) as [x|] eqn:Hx.
  - apply IH. apply lookup_lt_Some in Hx. lia.
  - simpl. rewrite mul_nan_r, add_nan_r. apply dot_from_nan.
Qed.

(** A row meeting a vector that starts with NaN. *)
Lemma dot_from_nan_head (row vector : list N) (sum : N) :
  row <> [] -> vector !! 0%nat = Some nan -> dot_from 0 row vector sum = nan.
Proof.
  intros Hrow Hv. destruct row as [|val row]; [congruence|]. simpl.
  rewrite Hv; simpl. rewrite mul_nan_r, add_nan_r. apply dot_from_nan.
Qed.

Lemma map_const_repeat {A B} (f : A -> B) (b : B) (l : list A) :
  Forall (fun x => f x = b) l -> map f l = repeat b (length l).
Proof. induction 1 as [|x l Hx _ IH]; simpl; [reflexivity | now rewrite Hx, IH]. Qed.

Lemma imap_repeat_nan (f : nat -> N -> N) (n : nat) :
  (forall i, f i nan = nan) -> imap f (repeat nan n) = repeat nan n.
Proof.
  revert f. induction n as [|n IH]; intros f Hf; simpl; [reflexivity|].
  rewrite Hf. f_equal. apply IH. intros i. apply Hf.
Qed.

Lemma relu_nan : relu nan = nan.
Proof. apply nmax_nan_r. Qed.

Lemma fold_nmax_nan (l : list N) : fold_left nmax l nan = nan.
Proof. induction l as [|x l IH]; simpl; [reflexivity | now rewrite nmax_nan_l]. Qed.

Lemma fold_add_nan (l : list N) : fold_left add l nan = nan.
Proof. induction l as [|x l IH]; simpl; [reflexivity | now rewrite add_nan_l]. Qed.

Lemma softmax_nan (n : nat) : softmax exp (repeat nan (S n)) = repeat nan (S n).
Proof.
  unfold softmax; cbn [repeat max_of]. rewrite fold_nmax_nan.
  cbn [map fold_left]. rewrite sub_nan_l, exp_nan, add_nan_r, fold_add_nan.
  rewrite div_nan_l. f_equal.
  rewrite (map_const_repeat _ nan).
  - now rewrite length_map, repeat_length.
  - apply Forall_forall. intros x _. apply div_nan_r.
Qed.

(** The forward pass of a freshly constructed network: every activation
    and every output is NaN, whatever the input of five features and
    whatever the random weights. *)
Lemma forward_fresh (rnd : nat -> N) (input : list N) :
  length input = 5%nat ->
  forward exp (new_SimpleNN rnd 5 16 8 2) input =
    {| h1 := repeat nan 5; h2 := repeat nan 16; output := repeat nan 8 |}.
Proof.
  intros Hin. unfold forward, new_SimpleNN; cbn [w1 b1 w2 b2 w3 b3].
  destruct (randomMatrix_shape rnd 0 5 16) as [L1 S1].
  destruct (randomMatrix_shape rnd (5 * 16 + 16) 16 8) as [L2 S2].
  destruct (randomMatrix_shape rnd (5 * 16 + 16 + 16 * 8 + 8) 8 2) as [L3 S3].
  assert (matmul (randomMatrix rnd 0 5 16) input = repeat nan 5) as ->.
  { unfold matmul. rewrite (map_const_repeat _ nan), L1; [reflexivity|].
    eapply Forall_impl; [exact S1|]. intros row Hrow.
    apply dot_from_short. rewrite Hin, Hrow. lia. }
  rewrite imap_repeat_nan
    by (intros i; rewrite add_nan_l; apply relu_nan).
  assert (matmul (randomMatrix rnd (5 * 16 + 16) 16 8) (repeat nan 5) = repeat nan 16) as ->.
  { unfold matmul. rewrite (map_const_repeat _ nan), L2; [reflexivity|].
    eapply Forall_impl; [exact S2|]. intros row Hrow.
    apply dot_from_nan_head; [|reflexivity].
    intros ->. discriminate. }
  rewrite imap_repeat_nan
    by (intros i; rewrite add_nan_l; apply relu_nan).
  assert (matmul (randomMatrix rnd (5 * 16 + 16 + 16 * 8 + 8) 8 2) (repeat nan 16)
          = repeat nan 8) as ->.
  { unfold matmul. rewrite (map_const_repeat _ nan), L3; [reflexivity|].
    eapply Forall_impl; [exact S3|]. intros row Hrow.
    apply dot_from_nan_head; [|reflexivity].
    intros ->. discriminate. }
  rewrite imap_repeat_nan by (intros i; apply add_nan_l).
  now rewrite (softmax_nan 7).
Qed.

(** C2 does not hold of the code: [matmul] maps over the rows of a weight
    matrix, but [randomMatrix(inputSize, hiddenSize1)] makes one row per
    input, so every dot product reads past the end of the input vector and
    the whole forward pass is NaN. [predict] then answers SELL with
    [buyProb], [sellProb] and [confidence] all NaN, for every input and
    every random initialisation: the probabilities do not sum to 1. *)
Theorem predict_fresh_model_is_nan
    (rnd : nat -> N) (ind : AIIndicators N) (td : list (Sample N)) (count : nat) :
  predict exp ind
    {| model := Some (new_SimpleNN rnd 5 16 8 2); isModelReady := true;
       trainingData := td; signalCount := count |}
  = Some {| action := SELL; buyProb := nan; sellProb := nan; confidence := nan |}.
Proof.
  unfold predict; cbn [model isModelReady negb]. unfold nn_predict.
  rewrite forward_fresh by reflexivity.
  cbn [output repeat lookup list_lookup num].
  now rewrite ltb_nan_nan, nmax_nan_l, mul_nan_l.
Qed.

End NetworkProperties.

(** The same on doubles, for the reading of a quiet market. The weights
    come from the pseudo-random values [k mod 10 / 10]; the function taken
    for [Math.exp] is its second-order Taylor polynomial, which, like
    [Math.exp], sends NaN to NaN. *)
Lemma predict_fresh_model_is_nan_witness :
  let exp2 (x : float) := (lit 1 + x + x * x / lit 2)%js in
  let rnd (k : nat) : float := (of_nat (k mod 10) / lit 10)%js in
  let ind : AIIndicators float :=
    {| rsi := lit 50; adx := lit 30; atr := lit 0.001;
       williamsR := lit (-50); cci := lit 0 |} in
  exp2 nan = nan /\
  AIEngine.predict exp2 ind
    {| AIEngine.model := Some (AIEngine.new_SimpleNN rnd 5 16 8 2);
       AIEngine.isModelReady := true;
       AIEngine.trainingData := []; AIEngine.signalCount := 0 |}
  = Some {| AIEngine.action := SELL; AIEngine.buyProb := nan;
            AIEngine.sellProb := nan; AIEngine.confidence := nan |}.
Proof.
  intros exp2 rnd ind.
  assert (exp2 nan = nan) as Hexp by reflexivity.
  split; [exact Hexp|].
  exact (predict_fresh_model_is_nan exp2 Hexp rnd ind [] 0).
Defined.

Section TrainingBuffer.
Context {N : Type} `{JSNumber N}.
Variable exp : N -> N.
Variable TFModel : Type.
Variable fit : TFModel -> list (list N) -> list (list N) -> TFModel.

Lemma retrain_buffer (e : AIEngine.Engine N) :
  AIEngine.trainingData (AIEngine.retrain exp e) = AIEngine.trainingData e /\
  AIEngine.signalCount (AIEngine.retrain exp e) = AIEngine.signalCount e.
Proof.
  unfold AIEngine.retrain. destruct (AIEngine.model e); [|now split].
  destruct (_ || _); now split.
Qed.

Lemma retrain_buffer_tf (e : AIEngineTF.Engine N TFModel) :
  AIEngineTF.trainingData (AIEngineTF.retrain fit e) = AIEngineTF.trainingData e /\
  AIEngineTF.signalCount (AIEngineTF.retrain fit e) = AIEngineTF.signalCount e.
Proof.
  unfold AIEngineTF.retrain. destruct (AIEngineTF.model e); [|now split].
  destruct (_ || _); now split.
Qed.

(** C10: on the same indicators, action, outcome and prior buffer state, the
    pure JavaScript engine and the TensorFlow engine compute the same
    feature vector and the same one-hot label, keep the same buffer (the
    last 500 samples, the oldest dropped first) and the same counter, and
    take the same decision to retrain: the counter is a multiple of 50 and
    the buffer holds at least 20 samples. Their models and readiness flags
    may differ. *)
Theorem addTrainingSample_variants_agree
    (ind : AIIndicators N) (a : Action) (wasWin : bool)
    (td : list (Sample N)) (count : nat)
    (m_js : option (AIEngine.SimpleNN N)) (ready_js : bool)
    (m_tf : option TFModel) (ready_tf : bool) :
  let e_js := {| AIEngine.model := m_js; AIEngine.isModelReady := ready_js;
                 AIEngine.trainingData := td; AIEngine.signalCount := count |} in
  let e_tf := {| AIEngineTF.model := m_tf; AIEngineTF.isModelReady := ready_tf;
                 AIEngineTF.trainingData := td; AIEngineTF.signalCount := count |} in
  let js := AIEngine.addTrainingSample exp ind a wasWin e_js in
  let tf := AIEngineTF.addTrainingSample fit ind a wasWin e_tf in
  let x := {| features := AIEngine.normalizeFeatures (rsi ind) (adx ind) (atr ind)
                            (williamsR ind) (cci ind);
              label := AIEngine.make_label a wasWin |} in
  AIEngine.normalizeFeatures (rsi ind) (adx ind) (atr ind) (williamsR ind) (cci ind)
    = AIEngineTF.normalizeFeatures (rsi ind) (adx ind) (atr ind) (williamsR ind) (cci ind) /\
  AIEngine.make_label a wasWin = AIEngineTF.make_label a wasWin /\
  AIEngine.trainingData (fst js) = pushed_buffer td x /\
  AIEngineTF.trainingData (fst tf) = pushed_buffer td x /\
  AIEngine.signalCount (fst js) = S count /\
  AIEngineTF.signalCount (fst tf) = S count /\
  snd js = ((S count mod 50 =? 0)%nat && (20 <=? length (pushed_buffer td x))%nat) /\
  snd tf = snd js.
Proof.
  intros e_js e_tf js tf x.
  assert (forall l : list (Sample N),
             (if (500 <? length l)%nat then skipn (length l - 500) l else l)
             = skipn (length l - 500) l) as Hcut.
  { intros l. destruct (500 <? length l)%nat eqn:E; [reflexivity|].
    apply Nat.ltb_ge in E. now replace (length l - 500)%nat with 0%nat by lia. }
  subst e_js e_tf js tf.
  unfold pushed_buffer, AIEngine.addTrainingSample, AIEngineTF.addTrainingSample,
    AIEngine.keep_last, AIEngineTF.keep_last,
    AIEngine.MAX_TRAINING_DATA, AIEngineTF.MAX_TRAINING_DATA,
    AIEngine.RETRAIN_INTERVAL, AIEngineTF.RETRAIN_INTERVAL.
  cbv zeta. cbn [AIEngine.trainingData AIEngineTF.trainingData
                 AIEngine.signalCount AIEngineTF.signalCount
                 AIEngine.model AIEngineTF.model
                 AIEngine.isModelReady AIEngineTF.isModelReady].
  change (AIEngineTF.normalizeFeatures (rsi ind) (adx ind) (atr ind) (williamsR ind) (cci ind))
    with (AIEngine.normalizeFeatures (rsi ind) (adx ind) (atr ind) (williamsR ind) (cci ind)).
  change (AIEngineTF.make_label a wasWin) with (AIEngine.make_label a wasWin).
  fold x. rewrite !Hcut.
  destruct ((S count mod 50 =? 0)%nat
            && (20 <=? length (skipn (length (td ++ [x]) - 500) (td ++ [x])))%nat);
    cbn [fst snd].
  - rewrite (proj1 (retrain_buffer _)), (proj2 (retrain_buffer _)),
      (proj1 (retrain_buffer_tf _)), (proj2 (retrain_buffer_tf _)).
    cbn [AIEngine.trainingData AIEngineTF.trainingData
         AIEngine.signalCount AIEngineTF.signalCount].
    repeat split; reflexivity.
  - repeat split; reflexivity.
Qed.

End TrainingBuffer.

(* ===================================================================== *)
(** * HMMEngine: further properties *)
(* ===================================================================== *)

Section HMMInvariants.
Import HMMEngine.

(** ** The history ring *)

Lemma push_history_cases {N} `{JSNumber N} (h : list (HistoryEntry N)) (x : HistoryEntry N) :
  (length h < MAX_HISTORY /\ push_history h x = h ++ [x])%nat \/
  (MAX_HISTORY <= length h /\ push_history h x = tl h ++ [x])%nat.
Proof.
  unfold push_history; cbv zeta. rewrite length_app; simpl.
  destruct (MAX_HISTORY <? length h + 1)%nat eqn:E.
  - right. apply Nat.ltb_lt in E. split; [lia|].
    destruct h as [|y h]; [simpl in E; unfold MAX_HISTORY in E; lia | reflexivity].
  - left. apply Nat.ltb_ge in E. split; [lia | reflexivity].
Qed.

Lemma Forall_tl {A} (P : A -> Prop) (l : list A) : Forall P l -> Forall P (tl l).
Proof. destruct 1; [constructor | assumption]. Qed.

Lemma length_tl {A} (l : list A) : length (tl l) = pred (length l).
Proof. now destruct l. Qed.

Lemma run_history_ok {N} `{JSNumber N} (c : Call N) (e : Engine N) :
  history_ok e -> history_ok (run c e).
Proof.
  intros (Hlen & Hnames & Hlast).
  destruct c as [now ind| | |]; simpl.
  - unfold detectRegime.
    destruct (falsy (adx ind) || falsy (atr ind) || falsy (avgPrice ind));
      [now repeat split|].
    destruct (select_best _ _) as [maxProb best]; cbn [snd].
    unfold history_ok; cbn [stateHistory currentState].
    match goal with |- context [push_history _ ?x] => set (entry := x) end.
    destruct (push_history_cases (stateHistory e) entry) as [[Hl ->] | [Hl ->]].
    + repeat split.
      * rewrite length_app; simpl. lia.
      * apply Forall_app. split; [exact Hnames | now repeat constructor].
      * intros h. rewrite last_snoc. now intros [= <-].
    + repeat split.
      * rewrite length_app, length_tl; simpl. unfold MAX_HISTORY in *. lia.
      * apply Forall_app. split; [now apply Forall_tl | now repeat constructor].
      * intros h. rewrite last_snoc. now intros [= <-].
  - now repeat split.
  - unfold updateTransitionMatrix.
    destruct (length (stateHistory e) <? 20)%nat; now repeat split.
  - repeat split; cbn [reset stateHistory]; [simpl; lia | constructor | discriminate].
Qed.

(** Every engine reached from the initial one holds at most 100 history
    entries, oldest first; each entry carries the name of its state, and
    the newest entry, when there is one, records the state the engine
    holds. *)
Theorem history_ring_invariant {N} `{JSNumber N} (cs : list (Call N)) :
  let e := run_all cs initial in
  (length (stateHistory e) <= 100)%nat /\
  Forall (fun h => h_stateName h = STATE_NAMES (h_state h)) (stateHistory e) /\
  (forall h, last (stateHistory e) = Some h -> h_state h = currentState e).
Proof.
  cbv zeta. change 100%nat with MAX_HISTORY.
  assert (history_ok (N := N) initial) as Hinit.
  { repeat split; cbn; [lia | constructor | discriminate]. }
  revert Hinit. generalize (initial (N := N)) as e.
  induction cs as [|c cs IH]; intros e He; [exact He|].
  simpl. apply IH, run_history_ok, He.
Qed.

(** ** The transition counts *)

Lemma bump_total (t : Vec4 (Vec4 nat)) (a b : State) :
  total_counts (bump t a b) = S (total_counts t).
Proof.
  destruct t as [[? ? ? ?] [? ? ? ?] [? ? ? ?] [? ? ? ?]].
  destruct a, b; unfold total_counts, bump, rowSum; simpl; lia.
Qed.

Lemma count_from_total {N} `{JSNumber N}
    (prev : State) (rest : list (HistoryEntry N)) (t : Vec4 (Vec4 nat)) :
  total_counts (count_from prev rest t) = (total_counts t + length rest)%nat.
Proof.
  revert prev t. induction rest as [|x rest IH]; intros prev t; simpl; [lia|].
  rewrite IH, bump_total. lia.
Qed.

(** [updateTransitionMatrix] counts every pair of consecutive history
    entries exactly once: the sixteen counts add up to the length of the
    history minus one (and to zero for an empty history). *)
Theorem count_transitions_total {N} `{JSNumber N} (h : list (HistoryEntry N)) :
  total_counts (count_transitions h) = pred (length h).
Proof.
  destruct h as [|x rest]; [reflexivity|].
  unfold count_transitions. rewrite count_from_total. reflexivity.
Qed.

(** ** Emission and posterior as distributions *)

Create HintDb xpos.
#[local] Hint Resolve xpos_if xpos_mul xpos_add xpos_div xpos_min vpos_get : xpos.
#[local] Hint Extern 1 (xpos (lit _)) => apply xpos_lit; reflexivity : xpos.

Lemma emission_row_ok (a r : Q) (tf se : xnum) :
  row_ok (calculateEmissionProbabilities (XNum a) (XNum r) tf se).
Proof.
  unfold calculateEmissionProbabilities; cbv zeta. apply normalise_ok.
  repeat split; cbn [v0 v1 v2 v3].
  - change (lit 25 <? XNum a)%js with (Qltb 25 a).
    destruct (Qltb 25 a) eqn:E; [apply Qltb_lt in E | auto with xpos].
    apply xpos_mul; [apply xpos_min|]; auto with xpos.
    apply (xpos_div (XNum a) (lit 50)); [unfold xpos; simpl; lra | auto with xpos].
  - auto 8 with xpos.
  - change (lit 0.015 <? XNum r)%js with (Qltb 0.015 r).
    destruct (Qltb 0.015 r) eqn:E; [apply Qltb_lt in E | cbn [andb]; auto with xpos].
    cbn [andb]. apply xpos_if; [|auto with xpos].
    apply xpos_mul; [apply xpos_min|]; auto with xpos.
    apply (xpos_div (XNum r) (lit 0.03)); [unfold xpos; simpl; lra | auto with xpos].
  - auto 8 with xpos.
Qed.

(** For every finite [adx] and [atrRatio], of either sign,
    [calculateEmissionProbabilities] returns four positive numbers that
    sum to one: each rule yields a positive likelihood, so the normalising
    sum cannot vanish. *)
Theorem emission_is_distribution (a r : Q) (tf se : xnum) :
  let em := calculateEmissionProbabilities (XNum a) (XNum r) tf se in
  (forall s, xis (vget em s) (fun q => 0 < q)%Q) /\
  xis (vsum em) (fun q => q == 1)%Q.
Proof.
  cbv zeta. destruct (emission_row_ok a r tf se) as [Hpos Hsum].
  split; [intros s; now apply vpos_get | exact Hsum].
Qed.

Lemma truthy_exact (o : option xnum) :
  falsy o = false -> exists q, o = Some (XNum q) /\ ~ (q == 0)%Q.
Proof.
  destruct o as [[q|]|]; cbn; try discriminate.
  intros E. exists q. split; [reflexivity|].
  apply negb_false_iff, negb_true_iff in E.
  intros Hq. apply Qeq_bool_iff in Hq. congruence.
Qed.

(** The largest of four positive numbers that sum to one lies in
    [[1/4, 1]]. *)
Lemma best_of_four (p : Vec4 xnum) (best : State) :
  row_ok p ->
  (forall j, (vget p best <? vget p j)%js = false) ->
  xis (vget p best * lit 100)%js (fun c => 25 <= c <= 100)%Q.
Proof.
  intros ((a & b & c & d & -> & Ha & Hb & Hc & Hd)%vpos_inv & Hsum) Hmax.
  unfold vsum in Hsum; simpl in Hsum.
  pose proof (Hmax TRENDING) as H0. pose proof (Hmax RANGING) as H1.
  pose proof (Hmax VOLATILE) as H2. pose proof (Hmax CHAOTIC) as H3.
  destruct best; simpl in *;
    apply Qltb_ge in H0; apply Qltb_ge in H1; apply Qltb_ge in H2; apply Qltb_ge in H3;
    lra.
Qed.

(** Whatever the observation (missing, NaN, zero or negative readings
    included), in every engine reached from the initial one [detectRegime]
    returns a probability vector of four positive numbers that sum to one
    and a confidence between 25 and 100. *)
Theorem detectRegime_confidence_range
    (cs : list (Call xnum)) (now : Z) (ind : Indicators xnum) :
  let r := fst (detectRegime now ind (run_all cs initial)) in
  (forall s, xis (vget (stateProbs r) s) (fun q => 0 < q)%Q) /\
  xis (vsum (stateProbs r)) (fun q => q == 1)%Q /\
  xis (confidence r) (fun c => 25 <= c <= 100)%Q.
Proof.
  cbv zeta.
  pose proof (run_all_matrix_ok cs initial initialMatrix_ok) as Hm.
  set (e := run_all cs initial) in *.
  unfold detectRegime.
  destruct (falsy (adx ind) || falsy (atr ind) || falsy (avgPrice ind)) eqn:Hguard.
  - cbn [fst stateProbs confidence]. repeat split; try (intros [| | |]); simpl; lra.
  - apply orb_false_iff in Hguard as [Hguard Hp].
    apply orb_false_iff in Hguard as [Ha Ht].
    apply truthy_exact in Ha as (a & -> & Ha).
    apply truthy_exact in Ht as (t & -> & Ht).
    apply truthy_exact in Hp as (p & -> & Hp).
    cbn [num]. change (XNum t / XNum p)%js with (xdiv (XNum t) (XNum p)).
    rewrite xdiv_num by exact Hp.
    set (em := calculateEmissionProbabilities _ _ _ _).
    assert (vpos em) as Hem by apply emission_row_ok.
    pose proof (posterior_ok e em Hm Hem) as Hpost.
    pose proof (select_best_first (posterior e em) (currentState e) (proj1 Hpost)) as Hsel.
    destruct (select_best (posterior e em) (currentState e)) as [maxProb best].
    destruct Hsel as (-> & Hmax & _).
    cbn [fst stateProbs confidence].
    split; [intros s; apply vpos_get, Hpost|]. split; [apply Hpost|].
    now apply best_of_four.
Qed.

(** ** What the answer depends on *)

Lemma emission_ignores_microstructure {N} `{JSNumber N} (a r tf se tf' se' : N) :
  calculateEmissionProbabilities a r tf se = calculateEmissionProbabilities a r tf' se'.
Proof. reflexivity. Qed.

(** The answer of [detectRegime] and the state it moves to depend on the
    held state, the transition matrix and the readings [adx], [atr] and
    [avgPrice] only: [tickFrequency] and [spreadEstimate], the clock and
    the history play no part. *)
Theorem detectRegime_depends_on (N : Type) `{JSNumber N}
    (now now' : Z) (ind ind' : Indicators N) (e e' : Engine N) :
  adx ind = adx ind' -> atr ind = atr ind' -> avgPrice ind = avgPrice ind' ->
  currentState e = currentState e' -> transitionMatrix e = transitionMatrix e' ->
  fst (detectRegime now ind e) = fst (detectRegime now' ind' e') /\
  currentState (snd (detectRegime now ind e)) = currentState (snd (detectRegime now' ind' e')).
Proof.
  intros Ha Ht Hp Hs Hm. unfold detectRegime, posterior.
  rewrite Ha, Ht, Hp, Hs, Hm.
  destruct (falsy (adx ind') || falsy (atr ind') || falsy (avgPrice ind'));
    [now split|].
  rewrite (emission_ignores_microstructure _ _ _ _
             (match tickFrequency ind' with Some t => t | None => lit 1 end)
             (match spreadEstimate ind' with Some t => t | None => lit 0.0001 end)).
  destruct (select_best _ _); now split.
Qed.

(** Two engines that differ in their history and clock only, asked about
    the same readings with different microstructure figures. *)
Lemma detectRegime_depends_on_witness :
  let e : Engine float := snd (detectRegime 5 (observe 10 0.008 1) initial) in
  let ind : Indicators float :=
    {| adx := Some (lit 30); atr := Some (lit 0.008); avgPrice := Some (lit 1);
       tickFrequency := Some (lit 12); spreadEstimate := Some (lit 0.5) |} in
  currentState e = currentState (initial (N := float)) /\
  stateHistory e <> stateHistory (initial (N := float)) /\
  fst (detectRegime 9 ind e) = fst (detectRegime 0 (observe 30 0.008 1) initial).
Proof.
  intros e ind.
  assert (currentState e = currentState (initial (N := float))) as Hs by reflexivity.
  split; [exact Hs|]. split; [discriminate|].
  exact (proj1 (detectRegime_depends_on float 9 0 ind (observe 30 0.008 1) e initial
                  eq_refl eq_refl eq_refl Hs eq_refl)).
Defined.

(** ** Stability *)

Lemma filter_length_le {A} (f : A -> bool) (l : list A) :
  (length (List.filter f l) <= length l)%nat.
Proof. induction l as [|x l IH]; simpl; [lia|]. destruct (f x); simpl; lia. Qed.

Lemma run_all_history_ok {N} `{JSNumber N} (cs : list (Call N)) :
  history_ok (run_all cs initial).
Proof.
  assert (history_ok (N := N) initial) as Hinit.
  { repeat split; cbn; [lia | constructor | discriminate]. }
  revert Hinit. generalize (initial (N := N)) as e.
  induction cs as [|c cs IH]; intros e He; [exact He|].
  simpl. apply IH, run_history_ok, He.
Qed.

Lemma STATE_NAMES_eqb (a b : State) :
  String.eqb (STATE_NAMES a) (STATE_NAMES b) = (STATES a =? STATES b)%nat.
Proof. destruct a, b; reflexivity. Qed.

Lemma filter_ext_Forall {A} (f g : A -> bool) (l : list A) :
  Forall (fun x => f x = g x) l -> List.filter f l = List.filter g l.
Proof.
  induction 1 as [|x l Hx _ IH]; [reflexivity|].
  cbn [List.filter]. now rewrite Hx, IH.
Qed.

Lemma Forall_skipn {A} (P : A -> Prop) (n : nat) (l : list A) :
  Forall P l -> Forall P (skipn n l).
Proof.
  revert l. induction n as [|n IH]; intros l Hl; [exact Hl|].
  destruct Hl; [constructor | now apply IH].
Qed.

Lemma last_skipn {A} (n : nat) (l : list A) :
  (n < length l)%nat -> last (skipn n l) = last l.
Proof.
  revert l. induction n as [|n IH]; intros l Hn; [reflexivity|].
  destruct l as [|x l]; [simpl in Hn; lia|].
  cbn [skipn]. rewrite IH by (simpl in Hn; lia).
  destruct l as [|y l]; [simpl in Hn; lia | reflexivity].
Qed.

Lemma filter_last_positive {A} (f : A -> bool) (l : list A) (x : A) :
  last l = Some x -> f x = true -> (1 <= length (List.filter f l))%nat.
Proof.
  induction l as [|y l IH]; [discriminate|].
  destruct l as [|z l].
  - intros [= ->] Hx. cbn [List.filter]. rewrite Hx. simpl. lia.
  - intros Hl Hx. specialize (IH Hl Hx).
    cbn [List.filter] in IH |- *. destruct (f y); simpl; lia.
Qed.

Lemma last_is_Some {A} (l : list A) : l <> [] -> exists x, last l = Some x.
Proof.
  induction l as [|y l IH]; [congruence|]. intros _.
  destruct l as [|z l]; [now exists y|].
  destruct IH as [x Hx]; [discriminate|]. now exists x.
Qed.

(** In every engine reached from the initial one, [getStateStability]
    answers 50 while fewer than ten entries are held; afterwards it answers
    [k / 10 * 100], where [k] is the number of the last ten history entries
    that record the state the engine holds, and [k] is at least 1 since the
    newest entry always does.  That number is [10 * k], exactly so in exact
    arithmetic and also after the two roundings of the doubles. *)
Theorem stability_range {N} `{JSNumber N} (cs : list (Call N)) :
  let e := run_all cs initial in
  let recent := skipn (length (stateHistory e) - 10) (stateHistory e) in
  let k := length (List.filter (records_state (currentState e)) recent) in
  ((length (stateHistory e) < 10)%nat -> getStateStability e = lit 50) /\
  ((10 <= length (stateHistory e))%nat ->
   length recent = 10%nat /\ (1 <= k <= 10)%nat /\
   getStateStability e = ((of_nat k / lit 10) * lit 100)%js) /\
  (forall k : nat,
      xis ((of_nat k / lit 10) * lit 100)%js
          (fun q => q == inject_Z (Z.of_nat (10 * k)))%Q) /\
  (forall k : nat, (k <= 10)%nat ->
      ((of_nat k / lit 10) * lit 100)%js = (of_nat (10 * k) : float)).
Proof.
  intros e recent k.
  destruct (run_all_history_ok cs) as (_ & Hnames & Hlast). fold e in Hnames, Hlast.
  split; [|split; [|split]].
  - intros Hshort. unfold getStateStability.
    now apply Nat.ltb_lt in Hshort as ->.
  - intros Hlong.
    assert (length recent = 10%nat) as Hrecent
      by (unfold recent; rewrite length_skipn; lia).
    assert (List.filter
              (fun h => String.eqb (h_stateName h) (STATE_NAMES (currentState e))) recent
            = List.filter (records_state (currentState e)) recent) as Hsame.
    { apply filter_ext_Forall. unfold recent. apply Forall_skipn.
      revert Hnames. apply List.Forall_impl. intros h ->.
      apply STATE_NAMES_eqb. }
    split; [exact Hrecent|]. split; [split|].
    + destruct (last_is_Some recent) as [h Hh].
      { intros E. rewrite E in Hrecent. discriminate Hrecent. }
      apply (filter_last_positive _ recent h Hh).
      unfold recent in Hh. rewrite last_skipn in Hh by lia.
      unfold records_state. rewrite (Hlast h Hh). apply Nat.eqb_refl.
    + unfold k. rewrite <- Hrecent. apply filter_length_le.
    + unfold getStateStability.
      apply Nat.ltb_ge in Hlong as ->. cbv zeta. fold recent.
      now rewrite Hsame.
  - intros n.
    replace ((of_nat n / lit 10) * lit 100)%js
      with (XNum (inject_Z (Z.of_nat n) / 10 * 100)) by reflexivity.
    unfold xis. rewrite Nat2Z.inj_mul, inject_Z_mult.
    change (inject_Z (Z.of_nat 10)) with 10%Q. field.
  - intros n Hn.
    do 11 (destruct n as [|n]; [vm_compute; reflexivity|]). lia.
Qed.

(** Eight strong trends and then three quiet markets: the engine holds
    RANGING, three of the last ten entries record it, and the stability is
    30; after the first eight alone it is still 50. *)
Lemma stability_range_witness :
  let quiet : list (Call float) := repeat (CDetectRegime 0 (observe 10 0.008 1)) 3 in
  let trend : list (Call float) := repeat (CDetectRegime 0 (observe 30 0.008 1)) 8 in
  (let e := run_all trend initial in
   (length (stateHistory e) < 10)%nat /\ getStateStability e = lit 50) /\
  (let e := run_all (List.app trend quiet) initial in
   (10 <= length (stateHistory e))%nat /\
   currentState e = RANGING /\
   length (List.filter (records_state (currentState e))
             (skipn (length (stateHistory e) - 10) (stateHistory e))) = 3%nat /\
   getStateStability e = lit 30).
Proof.
  intros quiet trend. split.
  - intros e.
    assert (length (stateHistory e) < 10)%nat as Hshort by (vm_compute; lia).
    split; [exact Hshort|].
    exact (proj1 (stability_range trend) Hshort).
  - intros e.
    assert (10 <= length (stateHistory e))%nat as Hlong by (vm_compute; lia).
    split; [exact Hlong|]. split; [vm_compute; reflexivity|].
    split; [vm_compute; reflexivity|].
    destruct (proj1 (proj2 (stability_range (List.app trend quiet))) Hlong)
      as (_ & _ & Hvalue).
    fold e in Hvalue. rewrite Hvalue. vm_compute. reflexivity.
Defined.

End HMMInvariants.

(* ===================================================================== *)
(** * HMMEngine: the transition matrix on doubles *)
(* ===================================================================== *)

(** The blend [0.9 * old + 0.1 * observed] on doubles.  Each entry costs
    four roundings, and the two weights add up to [1 + 2^-55]; the
    deviation of a row sum from 1 is multiplied by 0.9 and grows by less
    than [2^-48] in an update, so it never leaves [1e-12]. *)

Section HMMDoubles.
Import HMMEngine.
Local Open Scope Q_scope.

Lemma nonneg_finite_value (x : float) : nonneg_finite x = true -> 0 <= F2Q x.
Proof. apply SFnonneg_value. Qed.

Lemma share_range (rs c : nat) :
  (1 <= rs)%nat -> (c <= rs)%nat ->
  0 <= inject_Z (Z.of_nat c) / inject_Z (Z.of_nat rs) <= 1.
Proof.
  intros Hrs Hc.
  assert (0 < inject_Z (Z.of_nat rs)) as Hpos
    by (change 0 with (inject_Z 0); rewrite <- Zlt_Qlt; lia).
  assert (0 <= inject_Z (Z.of_nat c)) as Hc0
    by (change 0 with (inject_Z 0); rewrite <- Zle_Qle; lia).
  assert (inject_Z (Z.of_nat c) <= inject_Z (Z.of_nat rs)) as Hle
    by (rewrite <- Zle_Qle; lia).
  split.
  - apply Qle_shift_div_l; lra.
  - apply Qle_shift_div_r; lra.
Qed.

Lemma share_double (rs c : nat) :
  (1 <= rs <= 99)%nat -> (c <= rs)%nat ->
  let o : float := (of_nat c / of_nat rs)%js in
  nonneg_finite o = true /\
  Qabs (F2Q o - inject_Z (Z.of_nat c) / inject_Z (Z.of_nat rs)) <= half_ulp.
Proof.
  intros Hrs Hc o.
  pose proof shares_checked as Hall.
  rewrite forallb_forall in Hall.
  specialize (Hall rs ltac:(apply in_seq; lia)).
  rewrite forallb_forall in Hall.
  specialize (Hall c ltac:(apply in_seq; lia)).
  unfold share_ok in Hall. cbv zeta in Hall. fold o in Hall.
  apply andb_true_iff in Hall as [Hnn Hle].
  split; [exact Hnn|]. now apply Qle_bool_iff.
Qed.

(** One entry of the blended row: three roundings on top of the one of
    the observed frequency. *)
Lemma blend_entry (x o : float) (s : Q) :
  nonneg_finite x = true -> F2Q x <= 11 # 10 ->
  nonneg_finite o = true -> 0 <= s <= 1 -> Qabs (F2Q o - s) <= half_ulp ->
  let y : float := ((lit 1 - alpha) * x + alpha * o)%js in
  nonneg_finite y = true /\
  Qabs (F2Q y - (keep_weight * F2Q x + new_weight * s)) <= 4 * half_ulp.
Proof.
  intros Hx Hx1 Ho Hs Hos y.
  destruct keep_weight_double as [HA HAq]. destruct new_weight_double as [HB HBq].
  pose proof (nonneg_finite_value x Hx) as Hx0.
  pose proof (nonneg_finite_value o Ho) as Ho0.
  apply Qabs_Qle_condition in Hos. unfold half_ulp in Hos.
  destruct (float_mul_error (lit 1 - alpha)%js x HA Hx) as (Hp & Hp0 & Hperr).
  { rewrite HAq. unfold keep_weight. lra. }
  destruct (float_mul_error alpha o HB Ho) as (Hq & Hq0 & Hqerr).
  { rewrite HBq. unfold new_weight. lra. }
  rewrite HAq in Hperr. rewrite HBq in Hqerr.
  apply Qabs_Qle_condition in Hperr, Hqerr.
  unfold half_ulp, keep_weight, new_weight in Hperr, Hqerr.
  destruct (float_add_error _ _ Hp Hq) as (Hy & Hy0 & Hyerr).
  { lra. }
  apply Qabs_Qle_condition in Hyerr. unfold half_ulp in Hyerr.
  split; [exact Hy|].
  apply Qabs_Qle_condition. unfold half_ulp, keep_weight, new_weight.
  fold y in Hyerr. split; lra.
Qed.

Lemma rowSum_parts (c : Vec4 nat) : rowSum c = (v0 c + v1 c + v2 c + v3 c)%nat.
Proof. reflexivity. Qed.

Lemma blend_row_good (old : Vec4 float) (counts : Vec4 nat) :
  row_good old -> (rowSum counts <= 99)%nat -> row_good (blend_row old counts).
Proof.
  intros [Hnn Hsum] Hrs. unfold blend_row; cbv zeta.
  destruct (0 <? rowSum counts)%nat eqn:Epos; [|split; assumption].
  apply Nat.ltb_lt in Epos.
  pose proof (rowSum_parts counts) as Hparts.
  set (rs := rowSum counts) in *.
  apply Qabs_Qle_condition in Hsum.
  pose proof (nonneg_finite_value _ (Hnn TRENDING)) as H0.
  pose proof (nonneg_finite_value _ (Hnn RANGING)) as H1.
  pose proof (nonneg_finite_value _ (Hnn VOLATILE)) as H2.
  pose proof (nonneg_finite_value _ (Hnn CHAOTIC)) as H3.
  cbn [vget] in H0, H1, H2, H3.
  assert (forall j, F2Q (vget old j) <= 11 # 10) as Hle
    by (intros []; cbn [vget]; lra).
  assert (forall j, (vget counts j <= rs)%nat) as Hc
    by (intros []; cbn [vget]; lia).
  pose proof (fun j => share_double rs (vget counts j) ltac:(lia) (Hc j)) as Hshare.
  pose proof (fun j => share_range rs (vget counts j) ltac:(lia) (Hc j)) as Hrange.
  cbv zeta in Hshare.
  pose proof (fun j => blend_entry (vget old j) _ _ (Hnn j) (Hle j)
                         (proj1 (Hshare j)) (Hrange j) (proj2 (Hshare j))) as Hentry.
  cbv zeta in Hentry.
  assert (inject_Z (Z.of_nat (vget counts TRENDING)) / inject_Z (Z.of_nat rs)
          + inject_Z (Z.of_nat (vget counts RANGING)) / inject_Z (Z.of_nat rs)
          + inject_Z (Z.of_nat (vget counts VOLATILE)) / inject_Z (Z.of_nat rs)
          + inject_Z (Z.of_nat (vget counts CHAOTIC)) / inject_Z (Z.of_nat rs) == 1)
    as Hone.
  { cbn [vget]. rewrite Hparts.
    rewrite !Nat2Z.inj_add, !inject_Z_plus. field.
    rewrite <- !inject_Z_plus, <- !Nat2Z.inj_add, <- Hparts.
    change 0 with (inject_Z 0). rewrite inject_Z_injective. lia. }
  split.
  - intros j.
    destruct j;
      [ exact (proj1 (Hentry TRENDING)) | exact (proj1 (Hentry RANGING))
      | exact (proj1 (Hentry VOLATILE)) | exact (proj1 (Hentry CHAOTIC)) ].
  - cbn [vget v0 v1 v2 v3].
    destruct (Hentry TRENDING) as [_ E0]. destruct (Hentry RANGING) as [_ E1].
    destruct (Hentry VOLATILE) as [_ E2]. destruct (Hentry CHAOTIC) as [_ E3].
    apply Qabs_Qle_condition in E0, E1, E2, E3.
    cbn [vget] in E0, E1, E2, E3, Hone.
    unfold half_ulp, keep_weight, new_weight in E0, E1, E2, E3.
    apply Qabs_Qle_condition. split; lra.
Qed.

Lemma initial_rows_good (s : State) : row_good (vget (initialMatrix (N := float)) s).
Proof.
  split.
  - intros j. destruct s, j; vm_compute; reflexivity.
  - apply Qle_bool_iff. destruct s; vm_compute; reflexivity.
Qed.

Lemma rowSum_le_total (t : Vec4 (Vec4 nat)) (s : State) :
  (rowSum (vget t s) <= total_counts t)%nat.
Proof. unfold total_counts. destruct s; cbn [vget]; lia. Qed.

Lemma run_good (c : Call float) (e : Engine float) :
  engine_good e -> engine_good (run c e).
Proof.
  intros [Hh Hm]. split; [now apply run_history_ok|].
  destruct c as [now ind| | |]; cbn [run].
  - now rewrite detectRegime_matrix.
  - exact Hm.
  - unfold updateTransitionMatrix.
    destruct (length (stateHistory e) <? 20)%nat; [exact Hm|].
    cbn [transitionMatrix].
    assert (forall s, (rowSum (vget (count_transitions (stateHistory e)) s) <= 99)%nat)
      as Hcounts.
    { intros s. etransitivity; [apply rowSum_le_total|].
      rewrite count_transitions_total.
      destruct Hh as [Hlen _]. unfold MAX_HISTORY in Hlen. lia. }
    intros s.
    destruct s; cbn [vget v0 v1 v2 v3]; apply blend_row_good;
      first [ exact (Hm TRENDING) | exact (Hm RANGING) | exact (Hm VOLATILE)
            | exact (Hm CHAOTIC) | exact (Hcounts TRENDING) | exact (Hcounts RANGING)
            | exact (Hcounts VOLATILE) | exact (Hcounts CHAOTIC) ].
  - exact Hm.
Qed.

Lemma run_all_good (cs : list (Call float)) (e : Engine float) :
  engine_good e -> engine_good (run_all cs e).
Proof.
  revert e. induction cs as [|c cs IH]; intros e He; [exact He|].
  cbn [run_all fold_left]. apply IH, run_good, He.
Qed.

(** The sum [reduce((a, b) => a + b, 0)] of a good row, as the doubles
    compute it: four more roundings. *)
Lemma vsum_good (r : Vec4 float) :
  row_good r ->
  nonneg_finite (vsum r) = true /\
  Qabs (F2Q (vsum r) - (F2Q (v0 r) + F2Q (v1 r) + F2Q (v2 r) + F2Q (v3 r)))
    <= 4 * half_ulp.
Proof.
  intros [Hnn Hsum]. apply Qabs_Qle_condition in Hsum.
  pose proof (nonneg_finite_value _ (Hnn TRENDING)) as H0.
  pose proof (nonneg_finite_value _ (Hnn RANGING)) as H1.
  pose proof (nonneg_finite_value _ (Hnn VOLATILE)) as H2.
  pose proof (nonneg_finite_value _ (Hnn CHAOTIC)) as H3.
  cbn [vget] in H0, H1, H2, H3.
  unfold vsum, vlist. cbn [fold_left].
  assert (nonneg_finite (lit 0 : float) = true) as Hz by (vm_compute; reflexivity).
  assert (F2Q (lit 0 : float) == 0) as Hzq by (vm_compute; reflexivity).
  destruct (float_add_error (lit 0) (v0 r) Hz (Hnn TRENDING)) as (Ha & Ha0 & Ea).
  { rewrite Hzq. lra. }
  rewrite Hzq in Ea. apply Qabs_Qle_condition in Ea. unfold half_ulp in Ea.
  destruct (float_add_error _ (v1 r) Ha (Hnn RANGING)) as (Hb & Hb0 & Eb).
  { cbn [vget]. lra. }
  apply Qabs_Qle_condition in Eb. unfold half_ulp in Eb. cbn [vget] in Eb.
  destruct (float_add_error _ (v2 r) Hb (Hnn VOLATILE)) as (Hc & Hc0 & Ec).
  { cbn [vget]. lra. }
  apply Qabs_Qle_condition in Ec. unfold half_ulp in Ec. cbn [vget] in Ec.
  destruct (float_add_error _ (v3 r) Hc (Hnn CHAOTIC)) as (Hd & Hd0 & Ed).
  { cbn [vget]. lra. }
  apply Qabs_Qle_condition in Ed. unfold half_ulp in Ed. cbn [vget] in Ed.
  split; [exact Hd|].
  apply Qabs_Qle_condition. unfold half_ulp. split; lra.
Qed.

(** C3: on doubles, starting from the initial engine, after any sequence
    of calls (every [updateTransitionMatrix] among them blending the rows
    that have observed transitions), the four entries of each row of the
    transition matrix are finite and not negative, their exact sum is 1
    within 1e-12, and the sum the doubles themselves give for the row is
    1 within 1e-6. *)
Theorem transition_rows_sum_to_one (cs : list (Call float)) (s : State) :
  let row := vget (transitionMatrix (run_all cs initial)) s in
  (forall j, nonneg_finite (vget row j) = true) /\
  Qabs (F2Q (v0 row) + F2Q (v1 row) + F2Q (v2 row) + F2Q (v3 row) - 1) <= 1e-12 /\
  nonneg_finite (vsum row) = true /\
  Qabs (F2Q (vsum row) - 1) <= 1e-6.
Proof.
  intros row.
  assert (engine_good initial) as Hinit.
  { split; [|exact initial_rows_good].
    repeat split; cbn; [lia | constructor | discriminate]. }
  destruct (run_all_good cs initial Hinit) as [_ Hm].
  specialize (Hm s). fold row in Hm.
  destruct (vsum_good row Hm) as [Hfinite Hfloat].
  destruct Hm as [Hnn Hsum].
  split; [exact Hnn|]. split; [exact Hsum|]. split; [exact Hfinite|].
  apply Qabs_Qle_condition in Hsum, Hfloat. unfold half_ulp in Hfloat.
  change (1e-6) with (1 # 1000000).
  apply Qabs_Qle_condition. split; lra.
Qed.

End HMMDoubles.

(* ===================================================================== *)
(** * RLEngine: further properties *)
(* ===================================================================== *)

Section RLInvariants.
Import RLEngine.

Lemma rl_run_ok {N} `{JSNumber N} (c : RLCall N) (e : Engine N) :
  rl_ok e -> rl_ok (rl_run c e).
Proof.
  intros [Hlen Hkeys]. destruct c as [now regime a r nextRegime|]; simpl.
  - destruct (read (slot (qTable e) regime)) as [row|] eqn:Hrow;
      [|unfold updateQValue; rewrite Hrow; now split].
    destruct (read (slot (qTable e) nextRegime)) as [next|] eqn:Hnext;
      [|unfold updateQValue; rewrite Hrow, Hnext; now split].
    destruct (updateQValue_read now regime a r nextRegime e row next Hrow Hnext)
      as (Hcount & Hhist & Htable).
    split.
    + rewrite Hhist, Hcount.
      match goal with |- context [push_reward _ ?x] => set (ev := x) end.
      unfold MAX_HISTORY in *.
      destruct (push_reward_cases (rewardHistory e) ev) as [[Hl ->] | [Hl ->]];
        unfold MAX_HISTORY in *; rewrite length_app; simpl.
      * lia.
      * rewrite length_tl. lia.
    + intros k Hk. rewrite Htable.
      destruct (qTable e !! regime) eqn:Erow; [|now apply Hkeys].
      destruct (decide (regime = k)) as [->|Hne].
      * rewrite lookup_insert_eq. eauto.
      * rewrite lookup_insert_ne by exact Hne. now apply Hkeys.
  - unfold reset. split; [reflexivity|].
    intros k Hk. rewrite (initial_regimes k Hk). eauto.
Qed.

(** In every engine reached from the initial one by updates and resets,
    the reward history holds exactly [min(totalUpdates, 500)] events, and
    the four regime names are still keys of the Q-table. *)
Theorem reward_ring_invariant {N} `{JSNumber N} (cs : list (RLCall N)) :
  let e := rl_run_all cs initial in
  length (rewardHistory e) = Nat.min (totalUpdates e) 500 /\
  (forall regime, In regime regimes -> is_Some (qTable e !! regime)).
Proof.
  cbv zeta. change 500%nat with MAX_HISTORY.
  assert (rl_ok (N := N) initial) as Hinit.
  { split; [reflexivity|]. intros k Hk. rewrite (initial_regimes k Hk). eauto. }
  revert Hinit. generalize (initial (N := N)) as e.
  induction cs as [|c cs IH]; intros e He; [exact He|].
  simpl. apply IH, rl_run_ok, He.
Qed.

(** ** The Bellman bounds *)

Lemma within_ten_inv (a : xnum) : within_ten a -> exists q, a = XNum q /\ (-10 <= q <= 10)%Q.
Proof. destruct a as [q|]; simpl; [eauto | tauto]. Qed.

Lemma update_bounded (a : Action) (r : xnum) (row next : QRow xnum) :
  xis r (fun q => -1 <= q <= 1)%Q -> row_bounded row -> row_bounded next ->
  row_bounded
    (qset row a
       (qget row a
        + LEARNING_RATE * (r + DISCOUNT_FACTOR * nmax (q_BUY next) (q_SELL next) - qget row a))%js).
Proof.
  destruct r as [r|]; [|simpl; tauto]. intros Hr.
  destruct row as [b s], next as [b' s']. unfold row_bounded at 1 2; simpl.
  intros [(x & -> & Hx)%within_ten_inv (y & -> & Hy)%within_ten_inv]
         [(x' & -> & Hx')%within_ten_inv (y' & -> & Hy')%within_ten_inv].
  simpl in Hr.
  destruct a; unfold row_bounded, within_ten; simpl;
    destruct (Qle_bool x' y'); simpl; repeat split; lra.
Qed.

Lemma rl_run_bounded (c : RLCall xnum) (e : Engine xnum) :
  fair_call c ->
  map_Forall (fun _ row => row_bounded row) (qTable e) ->
  map_Forall (fun _ row => row_bounded row) (qTable (rl_run c e)).
Proof.
  intros Hc Hm. destruct c as [now regime a r nextRegime|]; simpl in *.
  - rewrite updateQValue_plain
      by (apply negb_true_iff; first [exact (proj1 Hc) | exact (proj1 (proj2 Hc))]).
    destruct (qTable e !! regime) as [row|] eqn:Hrow; [|exact Hm].
    destruct (qTable e !! nextRegime) as [next|] eqn:Hnext; [|exact Hm].
    cbn [qTable]. apply map_Forall_insert_2; [|exact Hm].
    apply update_bounded;
      [exact (proj2 (proj2 Hc)) | exact (Hm _ _ Hrow) | exact (Hm _ _ Hnext)].
  - unfold reset. intros k row Hk. apply initial_rows in Hk as ->.
    split; simpl; lra.
Qed.

Lemma rl_run_all_bounded (cs : list (RLCall xnum)) (e : Engine xnum) :
  Forall fair_call cs ->
  map_Forall (fun _ row => row_bounded row) (qTable e) ->
  map_Forall (fun _ row => row_bounded row) (qTable (rl_run_all cs e)).
Proof.
  intros Hcs. revert e.
  induction Hcs as [|c cs Hc _ IH]; intros e He; [exact He|].
  simpl. apply IH, rl_run_bounded; assumption.
Qed.

(** With rewards between [-1] and [+1], and regime names that are not
    names every object inherits, every Q-value of every engine reached
    from the initial one is a rational between [-10] and [10], the bounds
    [1 / (1 - 0.9)] of the discounted return. *)
Theorem q_values_within_bellman_bounds
    (cs : list (RLCall xnum)) (k : string) (row : QRow xnum) :
  Forall fair_call cs ->
  qTable (rl_run_all cs initial) !! k = Some row ->
  xis (q_BUY row) (fun q => -10 <= q <= 10)%Q /\
  xis (q_SELL row) (fun q => -10 <= q <= 10)%Q.
Proof.
  intros Hcs Hk.
  assert (map_Forall (fun _ row => row_bounded row) (qTable (initial (N := xnum)))) as Hinit.
  { intros j r Hj. apply initial_rows in Hj as ->. split; simpl; lra. }
  exact (rl_run_all_bounded cs initial Hcs Hinit k row Hk).
Qed.

(** Three losses and a win on one entry, then a reset and a win. *)
Lemma q_values_within_bellman_bounds_witness :
  let cs : list (RLCall xnum) :=
    [ RUpdate 1 "CHAOTIC" SELL (lit (-1)) "CHAOTIC";
      RUpdate 2 "CHAOTIC" SELL (lit (-1)) "VOLATILE";
      RUpdate 3 "CHAOTIC" SELL (lit (-1)) "CHAOTIC";
      RUpdate 4 "CHAOTIC" BUY (lit 1) "TRENDING";
      RReset;
      RUpdate 5 "RANGING" BUY (lit 1) "RANGING" ] in
  Forall fair_call cs /\
  exists row, qTable (rl_run_all cs initial) !! "RANGING" = Some row /\
    xis (q_BUY row) (fun q => -10 <= q <= 10)%Q /\
    xis (q_SELL row) (fun q => -10 <= q <= 10)%Q.
Proof.
  intros cs.
  assert (Forall fair_call cs) as Hcs.
  { repeat match goal with |- Forall _ _ => constructor end; cbn [fair_call];
      try exact I; (split; [reflexivity|]; split; [reflexivity|]); simpl; lra. }
  split; [exact Hcs|].
  eexists. split; [reflexivity|].
  exact (q_values_within_bellman_bounds cs "RANGING" _ Hcs eq_refl).
Defined.

(** ** Selection and confidence adjustment *)

Ltac cases_Qltb :=
  match goal with
  | |- context [Qltb ?x ?y] =>
      let E := fresh "E" in
      destruct (Qltb x y) eqn:E; [apply Qltb_lt in E | apply Qltb_ge in E]
  end.

Lemma adjustment_cases (regime : string) (a : Action) (e : Engine xnum) (b s : Q) :
  qTable e !! regime = Some {| q_BUY := XNum b; q_SELL := XNum s |} ->
  let d := (match a with BUY => b - s | SELL => s - b end)%Q in
  (0.2 < d /\ getConfidenceAdjustment regime a e = lit 10)%Q \/
  (0.1 < d <= 0.2 /\ getConfidenceAdjustment regime a e = lit 5)%Q \/
  (d < -0.1 /\ getConfidenceAdjustment regime a e = lit (-5))%Q \/
  (-0.1 <= d <= 0.1 /\ getConfidenceAdjustment regime a e = lit 0)%Q.
Proof.
  intros Hrow d. unfold getConfidenceAdjustment. rewrite Hrow.
  destruct a; cbn [qget q_BUY q_SELL]; cbv zeta;
    change (XNum ?x - XNum ?y)%js with (XNum (x - y));
    change (lit ?c <? XNum ?x)%js with (Qltb c x);
    change (XNum ?x <? lit ?c)%js with (Qltb x c);
    fold d;
    repeat cases_Qltb;
    first [ exfalso; lra
          | left; split; [lra | reflexivity]
          | right; left; split; [lra | reflexivity]
          | right; right; left; split; [lra | reflexivity]
          | right; right; right; split; [lra | reflexivity] ].
Qed.

(** For a row of finite Q-values, [getConfidenceAdjustment] answers 10,
    5, 0 or -5; a positive adjustment for one action means -5 for the
    other; and outside exploration [selectAction], with or without an AI
    suggestion, never returns an action whose adjustment is -5. *)
Theorem selection_is_never_penalised
    (regime : string) (e : Engine xnum) (b s : Q) :
  qTable e !! regime = Some {| q_BUY := XNum b; q_SELL := XNum s |} ->
  (forall a, In (getConfidenceAdjustment regime a e) [lit 10; lit 5; lit 0; lit (-5)]) /\
  (forall a, In (getConfidenceAdjustment regime a e) [lit 10; lit 5] ->
             getConfidenceAdjustment regime (other a) e = lit (-5)) /\
  (forall u1 u2 aiAction,
      (u1 <? EXPLORATION_RATE)%js = false ->
      getConfidenceAdjustment regime (selectAction u1 u2 regime aiAction e) e <> lit (-5)).
Proof.
  intros Hrow.
  pose proof (fun a => adjustment_cases regime a e b s Hrow) as Hadj.
  split; [|split].
  - intros a. destruct (Hadj a) as [[_ ->]|[[_ ->]|[[_ ->]|[_ ->]]]]; simpl; auto.
  - intros a Ha.
    destruct (Hadj a) as [[Hd E]|[[Hd E]|[[Hd E]|[Hd E]]]]; rewrite E in Ha;
      destruct Ha as [Ha|[Ha|[]]]; try discriminate Ha;
      destruct (Hadj (other a)) as [[Hd' E']|[[Hd' E']|[[Hd' E']|[Hd' E']]]];
      try exact E'; destruct a; simpl in *; lra.
  - intros u1 u2 aiAction Hu. unfold selectAction.
    rewrite Hu, (slot_own _ _ _ Hrow).
    cbn [read q_BUY q_SELL].
    change (XNum b - XNum s)%js with (XNum (b - s)).
    change (nabs (XNum (b - s))) with (XNum (Qabs (b - s))).
    change (XNum (Qabs (b - s)) <? lit 0.1)%js with (Qltb (Qabs (b - s)) 0.1).
    change (XNum s <? XNum b)%js with (Qltb s b).
    assert (forall a, (match a with BUY => b - s | SELL => s - b end >= -0.1)%Q ->
                      getConfidenceAdjustment regime a e <> lit (-5)) as Hsafe.
    { intros a Hd.
      destruct (Hadj a) as [[_ ->]|[[_ ->]|[[Hd' _]|[_ ->]]]];
        [discriminate | discriminate | destruct a; lra | discriminate]. }
    destruct aiAction as [a|].
    + destruct (Qltb (Qabs (b - s)) 0.1) eqn:Eabs.
      * apply Qltb_lt, Qabs_Qlt_condition in Eabs. apply Hsafe. destruct a; lra.
      * cases_Qltb; apply Hsafe; lra.
    + cases_Qltb; apply Hsafe; lra.
Qed.

(** A table that clearly prefers BUY while trending. *)
Lemma selection_is_never_penalised_witness :
  let e : Engine xnum :=
    {| qTable := <["TRENDING" := {| q_BUY := XNum 0.9; q_SELL := XNum 0.4 |}]> initialQTable;
       totalUpdates := 3; rewardHistory := [] |} in
  qTable e !! "TRENDING" = Some {| q_BUY := XNum 0.9; q_SELL := XNum 0.4 |} /\
  selectAction (lit 0.6) (lit 0.9) "TRENDING" (Some SELL) e = BUY /\
  getConfidenceAdjustment "TRENDING" BUY e = lit 10 /\
  getConfidenceAdjustment "TRENDING" SELL e = lit (-5).
Proof.
  intros e.
  assert (qTable e !! "TRENDING" = Some {| q_BUY := XNum 0.9; q_SELL := XNum 0.4 |})
    as Hrow by reflexivity.
  destruct (selection_is_never_penalised "TRENDING" e 0.9 0.4 Hrow) as (_ & Hother & _).
  split; [exact Hrow|]. split; [reflexivity|]. split; [reflexivity|].
  apply (Hother BUY). left. reflexivity.
Defined.

(** ** Win rates *)

Lemma win_rate_of_range (events : list (RewardEvent xnum)) :
  match win_rate_of events with
  | None => events = []
  | Some v => events <> [] /\ xis v (fun q => 0 <= q <= 100)%Q
  end.
Proof.
  unfold win_rate_of.
  destruct events as [|ev events]; [reflexivity|].
  set (l := ev :: events). cbn [length Nat.eqb].
  set (wins := length (List.filter _ l)).
  assert (wins <= length l)%nat as Hw by apply filter_length_le.
  split; [discriminate|].
  rewrite !of_nat_exact.
  assert (0 < inject_Z (Z.of_nat (length l)))%Q as Hn.
  { change 0%Q with (inject_Z 0). rewrite <- Zlt_Qlt. simpl. lia. }
  change (XNum ?x / XNum ?y)%js with (xdiv (XNum x) (XNum y)).
  rewrite xdiv_num by lra.
  change (0 <= inject_Z (Z.of_nat wins) / inject_Z (Z.of_nat (length l)) * 100 <= 100)%Q.
  assert (0 <= inject_Z (Z.of_nat wins) <= inject_Z (Z.of_nat (length l)))%Q as [H0 H1].
  { split; [apply inject_nat_nonneg | rewrite <- Zle_Qle; lia]. }
  set (w := inject_Z (Z.of_nat wins)) in *.
  set (n := inject_Z (Z.of_nat (length l))) in *.
  assert (0 <= w / n <= 1)%Q as [Hlo Hhi].
  { split; [apply Qle_shift_div_l; lra | apply Qle_shift_div_r; lra]. }
  set (x := (w / n)%Q) in *. lra.
Qed.

Lemma filter_nil_iff {A} (f : A -> bool) (l : list A) :
  List.filter f l = [] <-> Forall (fun x => f x = false) l.
Proof.
  induction l as [|x l IH]; simpl; [split; [constructor | reflexivity]|].
  destruct (f x) eqn:E; split.
  - discriminate.
  - intros Hall. inversion Hall; congruence.
  - intros Hnil. constructor; [exact E | now apply IH].
  - intros Hall. inversion Hall. now apply IH.
Qed.

(** [getRegimeWinRate] and [getActionWinRate] answer [null] exactly when
    the reward history holds no event of the regime (of the regime and
    action), and otherwise a percentage between 0 and 100, whatever rewards
    the events carry. *)
Theorem win_rates_are_percentages (regime : string) (a : Action) (e : Engine xnum) :
  match getRegimeWinRate regime e with
  | None => Forall (fun ev => ev_regime ev <> regime) (rewardHistory e)
  | Some v =>
      Exists (fun ev => ev_regime ev = regime) (rewardHistory e) /\
      xis v (fun q => 0 <= q <= 100)%Q
  end /\
  match getActionWinRate regime a e with
  | None => Forall (fun ev => ev_regime ev <> regime \/ ev_action ev <> a) (rewardHistory e)
  | Some v =>
      Exists (fun ev => ev_regime ev = regime /\ ev_action ev = a) (rewardHistory e) /\
      xis v (fun q => 0 <= q <= 100)%Q
  end.
Proof.
  assert (forall f : RewardEvent xnum -> bool,
             match (if (length (rewardHistory e) =? 0)%nat then None
                    else win_rate_of (List.filter f (rewardHistory e))) with
             | None => Forall (fun ev => f ev = false) (rewardHistory e)
             | Some v => Exists (fun ev => f ev = true) (rewardHistory e) /\
                         xis v (fun q => 0 <= q <= 100)%Q
             end) as Hgen.
  { intros f. destruct (length (rewardHistory e) =? 0)%nat eqn:E.
    - apply Nat.eqb_eq in E. destruct (rewardHistory e); [constructor | discriminate].
    - pose proof (win_rate_of_range (List.filter f (rewardHistory e))) as Hr.
      destruct (win_rate_of _) as [v|].
      + destruct Hr as [Hne Hv]. split; [|exact Hv].
        destruct (List.filter f (rewardHistory e)) as [|ev rest] eqn:Hf; [congruence|].
        assert (In ev (List.filter f (rewardHistory e))) as Hin by (rewrite Hf; now left).
        apply filter_In in Hin as [Hin Hev].
        apply List.Exists_exists. exists ev. split; assumption.
      + now apply filter_nil_iff. }
  split.
  - pose proof (Hgen (fun r : RewardEvent xnum => String.eqb (ev_regime r) regime)) as H.
    unfold getRegimeWinRate. match type of H with match ?t with _ => _ end => destruct t as [v|] end.
    + destruct H as [Hex Hv]. split; [|exact Hv].
      eapply Exists_impl; [exact Hex|]. intros ev Hev. now apply String.eqb_eq.
    + eapply Forall_impl; [exact H|]. intros ev Hev. now apply String.eqb_neq.
  - pose proof (Hgen (fun r : RewardEvent xnum => String.eqb (ev_regime r) regime
                                && action_eqb (ev_action r) a)) as H.
    unfold getActionWinRate. match type of H with match ?t with _ => _ end => destruct t as [v|] end.
    + destruct H as [Hex Hv]. split; [|exact Hv].
      eapply Exists_impl; [exact Hex|]. intros ev Hev.
      apply andb_true_iff in Hev as [Hr Ha]. apply String.eqb_eq in Hr.
      split; [exact Hr|]. destruct (ev_action ev), a; (reflexivity || discriminate).
    + eapply Forall_impl; [exact H|]. intros ev Hev.
      apply andb_false_iff in Hev as [Hr|Ha].
      * left. now apply String.eqb_neq.
      * right. intros Heq. rewrite Heq in Ha. destruct a; discriminate.
Qed.

(** ** Performance statistics *)

Lemma push_reward_fair (h : list (RewardEvent xnum)) (x : RewardEvent xnum) :
  Forall fair_event h -> fair_event x -> Forall fair_event (push_reward h x).
Proof.
  intros Hh Hx.
  destruct (push_reward_cases h x) as [[_ ->]|[_ ->]];
    apply Forall_app; (split; [|now constructor]); [exact Hh | now apply Forall_tl].
Qed.

Lemma rl_run_all_fair (cs : list (RLCall xnum)) (e : Engine xnum) :
  Forall fair_call cs -> Forall fair_event (rewardHistory e) ->
  Forall fair_event (rewardHistory (rl_run_all cs e)).
Proof.
  intros Hcs. revert e.
  induction Hcs as [|c cs Hc _ IH]; intros e He; [exact He|].
  simpl. apply IH. destruct c as [now regime a r nextRegime|]; simpl.
  - rewrite updateQValue_plain
      by (apply negb_true_iff; first [exact (proj1 Hc) | exact (proj1 (proj2 Hc))]).
    destruct (qTable e !! regime) as [row|]; [|exact He].
    destruct (qTable e !! nextRegime) as [next|]; [|exact He].
    cbn [rewardHistory]. apply push_reward_fair; [exact He|].
    exact (proj2 (proj2 Hc)).
  - constructor.
Qed.

Lemma total_reward_bounds (h : list (RewardEvent xnum)) (t : Q) :
  Forall fair_event h ->
  xis (fold_left (fun sum r => sum + reward r)%js h (XNum t))
      (fun q => t - inject_Z (Z.of_nat (length h)) <= q
                <= t + inject_Z (Z.of_nat (length h)))%Q.
Proof.
  intros Hh. revert t. induction Hh as [|ev h Hev _ IH]; intros t.
  - cbn [fold_left length xis]. change (inject_Z (Z.of_nat 0)) with 0%Q. lra.
  - cbn [fold_left length]. unfold fair_event in Hev.
    destruct (reward ev) as [r|]; [|contradiction]. cbn [xis] in Hev.
    change (XNum t + XNum r)%js with (XNum (t + r)).
    specialize (IH (t + r)%Q).
    destruct (fold_left _ h (XNum (t + r))) as [q|]; [|contradiction].
    cbn [xis] in IH |- *.
    rewrite Nat2Z.inj_succ, <- Z.add_1_r, inject_Z_plus.
    change (inject_Z 1) with 1%Q. lra.
Qed.

(** After any sequence of resets and of updates with rewards between [-1]
    and [+1], [getPerformanceStats()] reports the size of the reward
    history, at most 500, an average reward between [-1] and [+1] and a win
    rate between 0 and 100 percent; on an empty history all four are 0. *)
Theorem performance_of_fair_history (cs : list (RLCall xnum)) :
  Forall fair_call cs ->
  let e := rl_run_all cs initial in
  let p := getPerformanceStats e in
  sampleSize p = Nat.min (totalUpdates e) 500 /\
  xis (avgReward p) (fun q => -1 <= q <= 1)%Q /\
  xis (p_winRate p) (fun q => 0 <= q <= 100)%Q /\
  (sampleSize p = 0%nat -> p = {| totalRewards := lit 0; avgReward := lit 0;
                                  p_winRate := lit 0; sampleSize := 0 |}).
Proof.
  intros Hcs. cbv zeta.
  assert (rl_ok (N := xnum) initial) as Hinit.
  { split; [reflexivity|]. intros k Hk. rewrite (initial_regimes k Hk). eauto. }
  assert (rl_ok (rl_run_all cs initial)) as [Hlen _].
  { clear Hcs. revert Hinit. generalize (initial (N := xnum)) as e.
    induction cs as [|c cs IH]; intros e He; [exact He|].
    simpl. apply IH, rl_run_ok, He. }
  pose proof (rl_run_all_fair cs initial Hcs (List.Forall_nil _)) as Hfair.
  set (e := rl_run_all cs initial) in *.
  unfold getPerformanceStats.
  destruct (length (rewardHistory e) =? 0)%nat eqn:E.
  - apply Nat.eqb_eq in E. cbn [sampleSize avgReward p_winRate].
    split; [unfold MAX_HISTORY in Hlen; lia|].
    split; [simpl; lra|]. split; [simpl; lra|]. reflexivity.
  - apply Nat.eqb_neq in E. cbn [sampleSize avgReward p_winRate].
    split; [exact Hlen|].
    pose proof (win_rate_of_range (rewardHistory e)) as Hw.
    unfold win_rate_of in Hw.
    destruct (length (rewardHistory e) =? 0)%nat eqn:E';
      [apply Nat.eqb_eq in E'; contradiction|].
    split; [|split; [exact (proj2 Hw) | intros H0; contradiction]].
    pose proof (total_reward_bounds (rewardHistory e) 0 Hfair) as Ht.
    change (lit 0) with (XNum 0).
    destruct (fold_left _ (rewardHistory e) (XNum 0)) as [t|]; [|contradiction].
    cbn [xis] in Ht. rewrite of_nat_exact.
    assert (0 < inject_Z (Z.of_nat (length (rewardHistory e))))%Q as Hn.
    { change 0%Q with (inject_Z 0). rewrite <- Zlt_Qlt. lia. }
    set (n := inject_Z (Z.of_nat (length (rewardHistory e)))) in *.
    change (XNum t / XNum n)%js with (xdiv (XNum t) (XNum n)).
    rewrite xdiv_num by lra. cbn [xis].
    split; [apply Qle_shift_div_l | apply Qle_shift_div_r]; lra.
Qed.

Lemma performance_of_fair_history_witness :
  let cs : list (RLCall xnum) :=
    [ RUpdate 1 "TRENDING" BUY (lit 1) "TRENDING";
      RUpdate 2 "TRENDING" BUY (lit (-1)) "RANGING";
      RUpdate 3 "RANGING" SELL (lit 1) "RANGING" ] in
  Forall fair_call cs /\
  sampleSize (getPerformanceStats (rl_run_all cs initial)) = 3%nat /\
  xis (avgReward (getPerformanceStats (rl_run_all cs initial))) (fun q => -1 <= q <= 1)%Q.
Proof.
  intros cs.
  assert (Forall fair_call cs) as Hcs.
  { repeat match goal with |- Forall _ _ => constructor end; cbn [fair_call];
      (split; [reflexivity|]; split; [reflexivity|]); simpl; lra. }
  split; [exact Hcs|].
  destruct (performance_of_fair_history cs Hcs) as (Hn & Havg & _).
  split; [exact Hn | exact Havg].
Defined.

End RLInvariants.

(* ===================================================================== *)
(** * BacktestingEngine: what a backtest reports *)
(* ===================================================================== *)

Section BacktestInvariants.
Import HMMEngine BacktestingEngine.

Lemma vec4_ext {A} (p q : Vec4 A) : (forall s, vget p s = vget q s) -> p = q.
Proof.
  intros Hpq. destruct p as [p0 p1 p2 p3], q as [q0 q1 q2 q3].
  pose proof (Hpq TRENDING) as E0. pose proof (Hpq RANGING) as E1.
  pose proof (Hpq VOLATILE) as E2. pose proof (Hpq CHAOTIC) as E3.
  simpl in *. congruence.
Qed.

Lemma loop_tallies {N} `{JSNumber N} (signals : list Signal) (a : Loop N) (s : State) :
  vget (l_regimePerformance (fold_left loop_body signals a)) s =
    {| wins := wins (vget (l_regimePerformance a) s) + wins (tally_of s signals);
       losses := losses (vget (l_regimePerformance a) s) + losses (tally_of s signals) |}.
Proof.
  revert a. induction signals as [|x signals IH]; intros a.
  - simpl. rewrite !Nat.add_0_r. now destruct (vget _ s).
  - cbn [fold_left]. rewrite IH. clear IH.
    unfold tally_of; cbn [List.filter wins losses].
    unfold loop_body, tally_win, tally_loss, in_regime, is_result.
    destruct (l_regimePerformance a) as [[a0 b0] [a1 b1] [a2 b2] [a3 b3]].
    destruct (result x) as [[|]|]; destruct (regime_key (regime x)) as [[| | |]|];
      destruct s; cbn; f_equal; lia.
Qed.

Lemma filter_length_perm {A} (f : A -> bool) (l1 l2 : list A) :
  Permutation l1 l2 -> length (List.filter f l1) = length (List.filter f l2).
Proof.
  induction 1 as [|x l1 l2 _ IH|x y l|l1 l2 l3 _ IH1 _ IH2]; simpl.
  - reflexivity.
  - destruct (f x); simpl; now rewrite IH.
  - destruct (f x), (f y); reflexivity.
  - now rewrite IH1.
Qed.

(** What [runBacktest] counts does not depend on the order of the
    signals: two lists that are permutations of each other give the same
    numbers of signals, trades, wins and losses, the same win rate and
    profit factor, and the same tallies and win rates per regime; this holds
    of doubles as of exact numbers. (The equity curve and the drawdown do
    depend on the order.) *)
Theorem runBacktest_counts_ignore_order {N} `{JSNumber N}
    (now1 now2 : Z) (s1 s2 : list Signal) (log1 log2 : list (Z * BacktestResult N)) :
  Permutation s1 s2 ->
  match fst (runBacktest now1 s1 log1), fst (runBacktest now2 s2 log2) with
  | Results r1, Results r2 =>
      totalSignals r1 = totalSignals r2 /\
      totalTrades r1 = totalTrades r2 /\
      r_wins r1 = r_wins r2 /\
      r_losses r1 = r_losses r2 /\
      winRate r1 = winRate r2 /\
      profitFactor r1 = profitFactor r2 /\
      regimePerformance r1 = regimePerformance r2 /\
      regimeWinRates r1 = regimeWinRates r2
  | NoSignals, NoSignals => s1 = [] /\ s2 = []
  | _, _ => False
  end.
Proof.
  intros Hp.
  destruct s1 as [|x1 s1], s2 as [|x2 s2].
  - now split.
  - now apply Permutation_nil in Hp.
  - symmetry in Hp. now apply Permutation_nil in Hp.
  - unfold runBacktest; cbn [fst totalSignals totalTrades r_wins r_losses winRate
                             profitFactor regimePerformance regimeWinRates].
    set (l1 := x1 :: s1) in *. set (l2 := x2 :: s2) in *.
    destruct (loop_counts l1 (loop_start (N := N))) as [W1 L1].
    destruct (loop_counts l2 (loop_start (N := N))) as [W2 L2].
    assert (count_result WIN l1 = count_result WIN l2) as EW
      by (apply filter_length_perm, Hp).
    assert (count_result LOSS l1 = count_result LOSS l2) as EL
      by (apply filter_length_perm, Hp).
    assert (l_regimePerformance (fold_left loop_body l1 (loop_start (N := N)))
            = l_regimePerformance (fold_left loop_body l2 loop_start)) as EP.
    { apply vec4_ext. intros s. rewrite !loop_tallies. unfold tally_of; cbn [wins losses].
      now rewrite (filter_length_perm _ l1 l2 Hp),
                  (filter_length_perm (fun x => is_result LOSS x && in_regime s x) l1 l2 Hp). }
    rewrite W1, W2, L1, L2, EW, EL, EP, (Permutation_length Hp).
    repeat split; reflexivity.
Qed.

Lemma runBacktest_counts_ignore_order_witness :
  let w := {| result := Some WIN; regime := Some "TRENDING" |} in
  let l := {| result := Some LOSS; regime := Some "CHAOTIC" |} in
  Permutation [w; l; w] [l; w; w] /\
  match fst (runBacktest (N := float) 1 [w; l; w] []),
        fst (runBacktest (N := float) 2 [l; w; w] []) with
  | Results r1, Results r2 =>
      totalSignals r1 = totalSignals r2 /\
      totalTrades r1 = totalTrades r2 /\
      r_wins r1 = r_wins r2 /\
      r_losses r1 = r_losses r2 /\
      winRate r1 = winRate r2 /\
      profitFactor r1 = profitFactor r2 /\
      regimePerformance r1 = regimePerformance r2 /\
      regimeWinRates r1 = regimeWinRates r2
  | NoSignals, NoSignals => [w; l; w] = [] /\ [l; w; w] = []
  | _, _ => False
  end.
Proof.
  intros w l.
  assert (Permutation [w; l; w] [l; w; w]) as Hp by apply perm_swap.
  split; [exact Hp|].
  exact (runBacktest_counts_ignore_order (N := float) 1 2 [w; l; w] [l; w; w] [] [] Hp).
Defined.

(** ** Tallies per regime *)

Lemma regime_cases (x : Signal) :
  (in_regime TRENDING x, in_regime RANGING x, in_regime VOLATILE x, in_regime CHAOTIC x,
   no_regime x)
  ∈ [ (true, false, false, false, false); (false, true, false, false, false);
      (false, false, true, false, false); (false, false, false, true, false);
      (false, false, false, false, true) ].
Proof.
  unfold in_regime, no_regime.
  destruct (regime_key (regime x)) as [[| | |]|]; cbn [same_state];
    rewrite !elem_of_cons; tauto.
Qed.

Lemma count_split (o : Outcome) (signals : list Signal) :
  count_result o signals =
    (length (List.filter (fun x => is_result o x && in_regime TRENDING x) signals)
     + length (List.filter (fun x => is_result o x && in_regime RANGING x) signals)
     + length (List.filter (fun x => is_result o x && in_regime VOLATILE x) signals)
     + length (List.filter (fun x => is_result o x && in_regime CHAOTIC x) signals)
     + unattributed o signals)%nat.
Proof.
  unfold count_result, unattributed.
  induction signals as [|x signals IH]; [reflexivity|].
  cbn [List.filter].
  destruct (is_result o x); cbn [andb]; [|exact IH].
  pose proof (regime_cases x) as Hx.
  repeat (apply elem_of_cons in Hx as [Hx|Hx]); [..|now apply elem_of_nil in Hx];
    injection Hx as -> -> -> -> ->; cbn [length]; lia.
Qed.

(** [regimePerformance] holds, for each of the four regimes, the numbers of
    WIN and of LOSS signals that name this regime. A signal whose regime is
    missing or is no regime's name counts in [wins] or [losses] only, so
    the tallies of the four regimes add up to [wins] and [losses] exactly
    when there is no such signal. A regime's win rate is [null] exactly
    when no resolved signal names it. *)
Theorem runBacktest_regime_tallies {N} `{JSNumber N}
    (now : Z) (signals : list Signal) (log : list (Z * BacktestResult N)) :
  signals <> [] ->
  exists r,
    fst (runBacktest now signals log) = Results r /\
    (forall s, vget (regimePerformance r) s = tally_of s signals) /\
    (forall s, vget (regimeWinRates r) s = None <->
               wins (tally_of s signals) = 0%nat /\ losses (tally_of s signals) = 0%nat) /\
    r_wins r = (fold_right Nat.add 0 (map (fun s => wins (tally_of s signals)) all_states)
                + unattributed WIN signals)%nat /\
    r_losses r = (fold_right Nat.add 0 (map (fun s => losses (tally_of s signals)) all_states)
                  + unattributed LOSS signals)%nat.
Proof.
  intros Hne. destruct signals as [|x signals]; [congruence|].
  set (l := x :: signals).
  unfold runBacktest. eexists. split; [reflexivity|].
  cbn [regimePerformance regimeWinRates r_wins r_losses].
  assert (forall s, vget (l_regimePerformance (fold_left loop_body l (loop_start (N := N)))) s
                    = tally_of s l) as Ht.
  { intros s. rewrite loop_tallies. now destruct s. }
  destruct (loop_counts l (loop_start (N := N))) as [-> ->].
  split; [exact Ht|]. split.
  - intros s.
    assert (vget (vmap regime_win_rate
                   (l_regimePerformance (fold_left loop_body l (loop_start (N := N))))) s
            = regime_win_rate (tally_of s l)) as ->.
    { rewrite <- Ht. now destruct s. }
    unfold regime_win_rate.
    destruct (0 <? _)%nat eqn:E.
    + apply Nat.ltb_lt in E. split; [discriminate | lia].
    + apply Nat.ltb_ge in E. split; [lia | reflexivity].
  - cbn [loop_start l_wins l_losses all_states map fold_right tally_of wins losses].
    rewrite (count_split WIN l), (count_split LOSS l). lia.
Qed.

Lemma runBacktest_regime_tallies_witness :
  let signals :=
    [ {| result := Some WIN; regime := Some "TRENDING" |};
      {| result := Some LOSS; regime := Some "weekend" |};
      {| result := None; regime := Some "RANGING" |};
      {| result := Some WIN; regime := None |} ] in
  signals <> [] /\
  unattributed WIN signals = 1%nat /\
  unattributed LOSS signals = 1%nat /\
  exists r : BacktestResult float,
    fst (runBacktest 0 signals []) = Results r /\
    regimePerformance r =
      mkVec4 {| wins := 1; losses := 0 |} {| wins := 0; losses := 0 |}
             {| wins := 0; losses := 0 |} {| wins := 0; losses := 0 |} /\
    r_wins r = 2%nat /\ r_losses r = 1%nat.
Proof.
  intros signals.
  assert (signals <> []) as Hne by discriminate.
  split; [exact Hne|]. split; [reflexivity|]. split; [reflexivity|].
  destruct (runBacktest_regime_tallies (N := float) 0 signals [] Hne)
    as (r & Hr & Ht & _ & Hw & Hl).
  exists r. split; [exact Hr|]. split; [|split; [exact Hw | exact Hl]].
  apply vec4_ext. intros s. rewrite Ht. now destruct s.
Defined.

(** ** The equity curve *)

Lemma loop_curve {N} `{JSNumber N} (signals : list Signal) (a : Loop N) :
  l_equityCurve (fold_left loop_body signals a) =
    l_equityCurve a ++
    map (fun k => l_equity (fold_left loop_body (take (S k) signals) a))
        (seq 0 (length signals)).
Proof.
  revert a. induction signals as [|x signals IH]; intros a.
  - simpl. now rewrite app_nil_r.
  - cbn [fold_left length seq map]. rewrite IH.
    assert (l_equityCurve (loop_body a x) = l_equityCurve a ++ [l_equity (loop_body a x)])
      as -> by (unfold loop_body; destruct (result x) as [[|]|]; reflexivity).
    rewrite <- app_assoc. cbn [app]. do 2 f_equal.
    rewrite <- seq_shift, map_map. reflexivity.
Qed.

(** The equity curve of a backtest starts with the balance 1000 and holds
    one more entry per signal, resolved or not; entry [k] is the end
    balance of a backtest of the first [k] signals alone, so the last entry
    is the end balance returned. The log of backtests grows by exactly this
    result. *)
Theorem runBacktest_equity_curve {N} `{JSNumber N}
    (now : Z) (signals : list Signal) (log : list (Z * BacktestResult N)) :
  signals <> [] ->
  exists r,
    runBacktest now signals log = (Results r, log ++ [(now, r)]) /\
    totalSignals r = length signals /\
    length (equityCurve r) = S (length signals) /\
    equityCurve r !! 0%nat = Some (lit 1000) /\
    last (equityCurve r) = Some (endBalance r) /\
    (forall k now' log' rk,
        fst (runBacktest now' (take (S k) signals) log') = Results rk ->
        (k < length signals)%nat ->
        equityCurve r !! S k = Some (endBalance rk)).
Proof.
  intros Hne. destruct signals as [|x signals]; [congruence|].
  set (l := x :: signals).
  unfold runBacktest at 1. fold l. eexists. split; [reflexivity|].
  cbn [totalSignals equityCurve endBalance].
  rewrite loop_curve. cbn [loop_start l_equityCurve].
  split; [reflexivity|]. split.
  { cbn [app length]. now rewrite length_map, length_seq. }
  split; [reflexivity|]. split.
  { subst l. cbn [length]. rewrite seq_S, map_app, app_assoc. cbn [map].
    rewrite last_snoc. cbn [Nat.add].
    now rewrite <- (firstn_all (x :: signals)) at 2. }
  intros k now' log' rk Hrk Hk.
  cbn [app]. rewrite lookup_cons. cbv iota.
  rewrite list_lookup_fmap, lookup_seq_lt by exact Hk. cbn [fmap option_fmap option_map Nat.add].
  subst l. cbn [take] in Hrk |- *. unfold runBacktest in Hrk. cbn [fst] in Hrk.
  injection Hrk as <-. reflexivity.
Qed.

Lemma runBacktest_equity_curve_witness :
  let signals :=
    [ {| result := Some WIN; regime := Some "TRENDING" |};
      {| result := Some LOSS; regime := None |};
      {| result := None; regime := None |} ] in
  signals <> [] /\
  exists r : BacktestResult float,
    runBacktest 7 signals [] = (Results r, [(7%Z, r)]) /\
    equityCurve r = [lit 1000; lit 1008.5; lit 998.5; lit 998.5].
Proof.
  intros signals.
  assert (signals <> []) as Hne by discriminate.
  split; [exact Hne|].
  destruct (runBacktest_equity_curve (N := float) 7 signals [] Hne) as (r & Hr & _).
  exists r. split; [exact Hr|].
  injection Hr as <-. vm_compute. reflexivity.
Defined.

(** ** Balance and drawdown in exact arithmetic *)

Lemma equity_step (a : Loop xnum) (x : Signal) (e : Q) :
  l_equity a = XNum e ->
  exists e1, l_equity (loop_body a x) = XNum e1 /\ (e1 == e + stake (result x))%Q.
Proof.
  intros He. unfold loop_body. rewrite He.
  destruct (result x) as [[|]|]; cbv beta iota zeta; cbn [l_equity stake].
  - exists (e + 10 * 0.85)%Q. split; [reflexivity | lra].
  - exists (e - 10)%Q. split; [reflexivity | lra].
  - exists e. split; [reflexivity | lra].
Qed.

Lemma equity_run (signals : list Signal) (a : Loop xnum) (e : Q) :
  l_equity a = XNum e ->
  exists e1,
    l_equity (fold_left loop_body signals a) = XNum e1 /\
    (e1 == e + 8.5 * inject_Z (Z.of_nat (count_result WIN signals))
             - 10 * inject_Z (Z.of_nat (count_result LOSS signals)))%Q.
Proof.
  revert a e. induction signals as [|x signals IH]; intros a e He.
  - exists e. split; [exact He|]. unfold count_result; cbn [List.filter length].
    change (inject_Z (Z.of_nat 0)) with 0%Q. lra.
  - cbn [fold_left].
    destruct (equity_step a x e He) as (e1 & He1 & Ee1).
    destruct (IH _ _ He1) as (e2 & He2 & Ee2).
    exists e2. split; [exact He2|]. rewrite Ee2, Ee1.
    unfold count_result, is_result; cbn [List.filter].
    destruct (result x) as [[|]|]; cbn [stake length];
      rewrite ?Nat2Z.inj_succ, <- ?Z.add_1_r, ?inject_Z_plus;
      change (inject_Z 1) with 1%Q; lra.
Qed.

(** In exact arithmetic the end balance of a backtest is
    [1000 + 8.5 * wins - 10 * losses], the net profit is what was added to
    1000 and the ROI a tenth of it, in percent: none of them depends on the
    order of the signals. *)
Theorem runBacktest_balance
    (now : Z) (signals : list Signal) (log : list (Z * BacktestResult xnum)) :
  signals <> [] ->
  exists r,
    fst (runBacktest now signals log) = Results r /\
    let gain := (8.5 * inject_Z (Z.of_nat (r_wins r))
                 - 10 * inject_Z (Z.of_nat (r_losses r)))%Q in
    xis (endBalance r) (fun q => q == 1000 + gain)%Q /\
    xis (netProfit r) (fun q => q == gain)%Q /\
    xis (roi r) (fun q => q == gain / 10)%Q /\
    startBalance r = XNum 1000.
Proof.
  intros Hne. destruct signals as [|x signals]; [congruence|].
  set (l := x :: signals).
  unfold runBacktest. eexists. split; [reflexivity|].
  cbn [endBalance netProfit roi startBalance r_wins r_losses].
  destruct (loop_counts l (loop_start (N := xnum))) as [-> ->].
  assert (l_equity (loop_start (N := xnum)) = XNum 1000) as Hstart by reflexivity.
  destruct (equity_run l _ _ Hstart) as (e & -> & Ee).
  cbn [loop_start l_wins l_losses Nat.add].
  change (XNum e - lit 1000)%js with (XNum (e - 1000)).
  change (XNum (e - 1000) / lit 1000)%js with (xdiv (XNum (e - 1000)) (XNum 1000)).
  rewrite xdiv_num by (intros E; discriminate E).
  change (XNum ?u * lit 100)%js with (XNum (u * 100)).
  unfold xis. repeat split; try lra.
  rewrite Ee. field.
Qed.

Lemma runBacktest_balance_witness :
  let signals :=
    [ {| result := Some LOSS; regime := None |};
      {| result := Some WIN; regime := Some "RANGING" |};
      {| result := Some WIN; regime := None |} ] in
  signals <> [] /\
  exists r : BacktestResult xnum,
    fst (runBacktest 0 signals []) = Results r /\
    xis (endBalance r) (fun q => q == 1007)%Q.
Proof.
  intros signals.
  assert (signals <> []) as Hne by discriminate.
  split; [exact Hne|].
  destruct (runBacktest_balance 0 signals [] Hne) as (r & Hr & Hend & _).
  exists r. split; [exact Hr|].
  injection Hr as <-. reflexivity.
Defined.

Lemma tracking_step (calm : bool) (a : Loop xnum) (x : Signal) :
  tracking calm a ->
  (calm = true -> result x <> Some LOSS) ->
  tracking calm (loop_body a x).
Proof.
  intros (e & p & d & He & Hp & Hd & Hd0 & Hpk & Hcalm) Hx.
  destruct (equity_step a x e He) as (e1 & He1 & Ee1).
  assert (l_peak (loop_body a x) = if Qltb p e1 then XNum e1 else XNum p) as Hp1.
  { unfold loop_body in He1 |- *. rewrite Hp.
    destruct (result x) as [[|]|]; cbv beta iota zeta in He1 |- *;
      cbn [l_equity l_peak] in He1 |- *; rewrite He1; reflexivity. }
  assert (l_maxDrawdown (loop_body a x) =
          let pk := l_peak (loop_body a x) in
          let dd := ((pk - l_equity (loop_body a x)) / pk * lit 100)%js in
          if (XNum d <? dd)%js then dd else XNum d) as Hd1.
  { unfold loop_body. rewrite Hd.
    destruct (result x) as [[|]|]; reflexivity. }
  cbv zeta in Hd1. rewrite Hp1, He1 in Hd1.
  exists e1.
  assert (-10 <= stake (result x))%Q as Hs by (destruct (result x) as [[|]|]; cbn; lra).
  assert (calm = true -> 0 <= stake (result x))%Q as Hs'.
  { intros Hc. specialize (Hx Hc). destruct (result x) as [[|]|]; cbn; try lra. congruence. }
  destruct (Qltb p e1) eqn:E; rewrite ?E in Hp1, Hd1;
    [apply Qltb_lt in E | apply Qltb_ge in E].
  - (* a new peak *)
    assert (0 < e1)%Q as Hpos by lra.
    change (XNum e1 - XNum e1)%js with (XNum (e1 - e1)) in Hd1.
    change (XNum (e1 - e1) / XNum e1)%js with (xdiv (XNum (e1 - e1)) (XNum e1)) in Hd1.
    rewrite xdiv_num in Hd1 by lra.
    change (XNum ?u * lit 100)%js with (XNum (u * 100)) in Hd1.
    change (XNum d <? XNum ?u)%js with (Qltb d u) in Hd1.
    assert ((e1 - e1) / e1 * 100 == 0)%Q as Hzero by (field; lra).
    assert (Qltb d ((e1 - e1) / e1 * 100) = false) as Hno by (apply Qltb_ge; lra).
    rewrite Hno in Hd1.
    exists e1, d.
    split; [exact He1|]. split; [exact Hp1|]. split; [exact Hd1|]. split; [exact Hd0|].
    split; [right; lra|].
    intros Hc. split; [now apply Hcalm | right; reflexivity].
  - (* below the peak *)
    assert (0 < p)%Q as Hpos by lra.
    change (XNum p - XNum e1)%js with (XNum (p - e1)) in Hd1.
    change (XNum (p - e1) / XNum p)%js with (xdiv (XNum (p - e1)) (XNum p)) in Hd1.
    rewrite xdiv_num in Hd1 by lra.
    change (XNum ?u * lit 100)%js with (XNum (u * 100)) in Hd1.
    change (XNum d <? XNum ?u)%js with (Qltb d u) in Hd1.
    assert (0 <= (p - e1) / p * 100)%Q as Hdd.
    { apply Qmult_le_0_compat; [|lra]. apply Qle_shift_div_l; lra. }
    assert (calm = true -> e1 == p)%Q as Hpeak.
    { intros Hc. destruct (Hcalm Hc) as [_ [Hp0|Hep]]; [lra|].
      specialize (Hs' Hc). lra. }
    assert (calm = true -> (p - e1) / p * 100 == 0)%Q as Hflat.
    { intros Hc. rewrite (Hpeak Hc). field. lra. }
    set (dd := ((p - e1) / p * 100)%Q) in *.
    destruct (Qltb d dd) eqn:E'; rewrite ?E' in Hd1;
      [apply Qltb_lt in E' | apply Qltb_ge in E'].
    + exists p, dd.
      split; [exact He1|]. split; [exact Hp1|]. split; [exact Hd1|]. split; [exact Hdd|].
      split; [right; lra|].
      intros Hc. split; [now apply Hflat | right; now apply Hpeak].
    + exists p, d.
      split; [exact He1|]. split; [exact Hp1|]. split; [exact Hd1|]. split; [exact Hd0|].
      split; [right; lra|].
      intros Hc. split; [now apply Hcalm | right; now apply Hpeak].
Qed.

Lemma tracking_run (calm : bool) (signals : list Signal) (a : Loop xnum) :
  tracking calm a ->
  (calm = true -> count_result LOSS signals = 0%nat) ->
  tracking calm (fold_left loop_body signals a).
Proof.
  revert a. induction signals as [|x signals IH]; intros a Ha Hc; [exact Ha|].
  cbn [fold_left]. apply IH.
  - apply tracking_step; [exact Ha|].
    intros Hcalm Hx. specialize (Hc Hcalm).
    unfold count_result, is_result in Hc. cbn [List.filter] in Hc.
    rewrite Hx in Hc. discriminate Hc.
  - intros Hcalm. specialize (Hc Hcalm).
    unfold count_result, is_result in Hc |- *. cbn [List.filter] in Hc.
    destruct (result x) as [[|]|]; [exact Hc | discriminate Hc | exact Hc].
Qed.

(** In exact arithmetic the largest drawdown reported is a number, never
    NaN: the peak it divides by is positive from the first signal on. It
    is not negative, and it is 0 when no signal of the list is a LOSS. *)
Theorem runBacktest_drawdown
    (now : Z) (signals : list Signal) (log : list (Z * BacktestResult xnum)) :
  signals <> [] ->
  exists r,
    fst (runBacktest now signals log) = Results r /\
    xis (maxDrawdown r) (fun d => 0 <= d)%Q /\
    (count_result LOSS signals = 0%nat -> xis (maxDrawdown r) (fun d => d == 0)%Q).
Proof.
  intros Hne. destruct signals as [|x signals]; [congruence|].
  set (l := x :: signals).
  unfold runBacktest. eexists. split; [reflexivity|].
  cbn [maxDrawdown].
  assert (forall calm, tracking calm (loop_start (N := xnum))) as Hstart.
  { intros calm. exists 1000%Q, 0%Q, 0%Q.
    split; [reflexivity|]. split; [reflexivity|]. split; [reflexivity|].
    split; [lra|]. split; [left; split; [reflexivity | lra]|].
    intros _. split; [reflexivity | left; reflexivity]. }
  split.
  - destruct (tracking_run false l loop_start (Hstart false))
      as (e & p & d & _ & _ & -> & Hd & _); [discriminate | exact Hd].
  - intros Hl.
    destruct (tracking_run true l loop_start (Hstart true) (fun _ => Hl))
      as (e & p & d & _ & _ & -> & _ & _ & Hc).
    now apply Hc.
Qed.

Lemma runBacktest_drawdown_witness :
  let signals :=
    [ {| result := Some WIN; regime := None |};
      {| result := Some LOSS; regime := None |} ] in
  signals <> [] /\
  exists r : BacktestResult xnum,
    fst (runBacktest 0 signals []) = Results r /\
    xis (maxDrawdown r) (fun d => 0 <= d)%Q.
Proof.
  intros signals.
  assert (signals <> []) as Hne by discriminate.
  split; [exact Hne|].
  destruct (runBacktest_drawdown 0 signals [] Hne) as (r & Hr & Hd & _).
  exists r. split; [exact Hr | exact Hd].
Defined.

(** ** Forward test *)

(** [runForwardTest] refuses a list shorter than the period and leaves the
    log alone; otherwise it backtests a suffix of the list: the last
    [testPeriod] signals, or, for the period 0, the whole list, as
    [slice(-0)] cuts nothing off. *)
Theorem runForwardTest_window {N} `{JSNumber N}
    (now : Z) (signals : list Signal) (testPeriod : nat)
    (log : list (Z * BacktestResult N)) :
  if (length signals <? testPeriod)%nat
  then runForwardTest now signals testPeriod log
       = (Insufficient testPeriod (length signals), log)
  else exists older window,
         signals = older ++ window /\
         length window = (if (testPeriod =? 0)%nat then length signals else testPeriod) /\
         runForwardTest now signals testPeriod log
         = (Forward (fst (runBacktest now window log)) testPeriod,
            snd (runBacktest now window log)).
Proof.
  unfold runForwardTest.
  destruct (length signals <? testPeriod)%nat eqn:E; [reflexivity|].
  apply Nat.ltb_ge in E.
  exists (take (length signals - length (slice_last testPeriod signals)) signals),
         (slice_last testPeriod signals).
  unfold slice_last.
  destruct (testPeriod =? 0)%nat eqn:E0.
  - rewrite Nat.sub_diag. cbn [take app].
    split; [reflexivity|]. split; [reflexivity|].
    now destruct (runBacktest now signals log).
  - rewrite length_skipn.
    replace (length signals - (length signals - (length signals - testPeriod)))%nat
      with (length signals - testPeriod)%nat by lia.
    split; [now rewrite firstn_skipn|]. split; [lia|].
    now destruct (runBacktest now _ log).
Qed.

(** ** Monte Carlo simulation *)

Lemma runBacktest_fst {N} `{JSNumber N}
    (now now' : Z) (signals : list Signal) (log log' : list (Z * BacktestResult N)) :
  sim_of (fst (runBacktest now signals log)) = sim_of (fst (runBacktest now' signals log')).
Proof. now destruct signals. Qed.

Lemma runBacktest_log {N} `{JSNumber N}
    (now : Z) (signals : list Signal) (log : list (Z * BacktestResult N)) :
  signals <> [] -> length (snd (runBacktest now signals log)) = S (length log).
Proof.
  intros Hne. destruct signals; [congruence|].
  unfold runBacktest; cbn [snd]. rewrite length_app. simpl. lia.
Qed.

Lemma runBacktest_rates {N} `{JSNumber N}
    (now : Z) (signals : list Signal) (log : list (Z * BacktestResult N))
    (r : BacktestResult N) :
  fst (runBacktest now signals log) = Results r ->
  let w := count_result WIN signals in
  let l := count_result LOSS signals in
  winRate r = (if (0 <? w + l)%nat
               then (of_nat w / of_nat (w + l)) * lit 100 else lit 0)%js /\
  profitFactor r = (if (0 <? l)%nat
                    then (of_nat w * tradeSize * payoutRatio) / (of_nat l * tradeSize)
                    else lit 0)%js.
Proof.
  destruct signals as [|x signals]; [discriminate|].
  unfold runBacktest; cbn [fst]. intros [= <-]. cbn [winRate profitFactor].
  destruct (loop_counts (x :: signals) (loop_start (N := N))) as [Hw Hl].
  cbn [fold_left] in Hw, Hl. rewrite Hw, Hl.
  split; reflexivity.
Qed.

Lemma rates_perm {N} `{JSNumber N}
    (now1 now2 : Z) (s1 s2 : list Signal) (log1 log2 : list (Z * BacktestResult N))
    (b1 b2 : BacktestResult N) :
  Permutation s1 s2 ->
  fst (runBacktest now1 s1 log1) = Results b1 ->
  fst (runBacktest now2 s2 log2) = Results b2 ->
  winRate b1 = winRate b2 /\ profitFactor b1 = profitFactor b2.
Proof.
  intros Hp H1 H2.
  destruct (runBacktest_rates now1 s1 log1 b1 H1) as [-> ->].
  destruct (runBacktest_rates now2 s2 log2 b2 H2) as [-> ->].
  unfold count_result.
  rewrite (filter_length_perm (is_result WIN) s1 s2 Hp),
          (filter_length_perm (is_result LOSS) s1 s2 Hp).
  split; reflexivity.
Qed.

Section MonteCarlo.
Context {N : Type} `{JSNumber N}.
Variable sort_numbers : list N -> list N.
Variable pow : N -> N -> N.
Variable sqrt : N -> N.
Variable shuffle : nat -> list Signal -> list Signal.
Hypothesis shuffle_permutes : forall i l, Permutation (shuffle i l) l.

Lemma simulate_unfold (clock : nat -> Z) (signals : list Signal) (todo i : nat)
    (results : list (SimResult (N := N))) (log : list (Z * BacktestResult N)) :
  signals <> [] ->
  fst (simulate shuffle clock signals todo i results log)
    = results ++ map (fun k => sim_of (fst (runBacktest (clock k) (shuffle k signals) [])))
                     (seq i todo) /\
  length (snd (simulate shuffle clock signals todo i results log)) = (length log + todo)%nat.
Proof.
  intros Hne. revert i results log.
  induction todo as [|todo IH]; intros i results log; cbn [simulate seq map].
  - cbn [fst snd]. rewrite app_nil_r. split; [reflexivity | lia].
  - destruct (runBacktest (clock i) (shuffle i signals) log) as [r log'] eqn:Hr.
    destruct (IH (S i) (results ++ [sim_of r]) log') as [-> ->].
    assert (shuffle i signals <> []) as Hne'.
    { intros E. pose proof (shuffle_permutes i signals) as Hp. rewrite E in Hp.
      now apply Permutation_nil in Hp. }
    pose proof (runBacktest_log (clock i) (shuffle i signals) log Hne') as Hlen.
    rewrite Hr in Hlen; cbn [snd] in Hlen.
    assert (sim_of r = sim_of (fst (runBacktest (clock i) (shuffle i signals) []))) as ->.
    { rewrite <- (runBacktest_fst (clock i) (clock i) (shuffle i signals) log []).
      now rewrite Hr. }
    rewrite <- app_assoc. split; [reflexivity | lia].
Qed.

(** Whatever permutation the shuffle draws in each iteration, the Monte
    Carlo simulation sees the same win rate and the same profit factor in
    every iteration, those of the plain backtest: their statistics are the
    statistics of a constant sample. Each iteration adds one entry to the
    log of backtests. *)
Theorem monteCarlo_counts_are_constant
    (clock : nat -> Z) (now : Z) (signals : list Signal) (iterations : nat)
    (log log0 : list (Z * BacktestResult N)) (r0 : BacktestResult N) :
  fst (runBacktest now signals log0) = Results r0 ->
  exists stats log',
    runMonteCarloSimulation sort_numbers pow sqrt shuffle clock signals iterations log
      = (Simulated stats, log') /\
    length log' = (length log + iterations)%nat /\
    mc_iterations stats = iterations /\
    mc_winRate stats = summarise sort_numbers pow sqrt (repeat (winRate r0) iterations) /\
    mc_profitFactor stats
      = summarise sort_numbers pow sqrt (repeat (profitFactor r0) iterations).
Proof.
  intros Hr0.
  assert (signals <> []) as Hne by (intros ->; discriminate Hr0).
  unfold runMonteCarloSimulation.
  destruct signals as [|x signals]; [congruence|].
  set (l := x :: signals) in *.
  destruct (simulate_unfold clock l iterations 0 [] log Hne) as [Hres Hlog].
  destruct (simulate shuffle clock l iterations 0 [] log) as [results log'].
  cbn [fst snd app] in Hres, Hlog. subst results.
  eexists. eexists. split; [reflexivity|]. split; [exact Hlog|].
  cbn [mc_iterations mc_winRate mc_profitFactor]. split; [reflexivity|].
  assert (forall (f : SimResult -> N) (g : BacktestResult N -> N),
             (forall b, f (sim_of (Results b)) = g b) ->
             (forall s1 s2 b1 b2, Permutation s1 s2 ->
                 fst (runBacktest 0 s1 []) = Results b1 ->
                 fst (runBacktest 0 s2 []) = Results b2 -> g b1 = g b2) ->
             forall ks,
             map f (map (fun k => sim_of (fst (runBacktest (clock k) (shuffle k l) []))) ks)
             = repeat (g r0) (length ks)) as Hconst.
  { intros f g Hfg Hperm ks. rewrite map_map.
    induction ks as [|k ks IH]; [reflexivity|]. cbn [map length repeat]. f_equal; [|exact IH].
    pose proof (shuffle_permutes k l) as Hp.
    destruct (shuffle k l) as [|y rest] eqn:Hs; [apply Permutation_nil in Hp; discriminate Hp|].
    rewrite <- Hs in *.
    rewrite (runBacktest_fst (clock k) 0 (shuffle k l) [] []).
    destruct (fst (runBacktest 0 (shuffle k l) [])) as [|b] eqn:Hb;
      [rewrite Hs in Hb; discriminate Hb|].
    rewrite Hfg. apply (Hperm (shuffle k l) l b r0 Hp Hb).
    subst l. unfold runBacktest in Hr0 |- *. exact Hr0. }
  split.
  - rewrite (Hconst sim_winRate winRate (fun b => eq_refl)); [now rewrite length_seq|].
    intros s1 s2 b1 b2 Hp H1 H2. apply (rates_perm 0 0 s1 s2 [] [] b1 b2 Hp H1 H2).
  - rewrite (Hconst sim_profitFactor profitFactor (fun b => eq_refl));
      [now rewrite length_seq|].
    intros s1 s2 b1 b2 Hp H1 H2. apply (rates_perm 0 0 s1 s2 [] [] b1 b2 Hp H1 H2).
Qed.

End MonteCarlo.

Lemma monteCarlo_counts_are_constant_witness :
  let shuffle (i : nat) (l : list Signal) := rev l in
  let signals :=
    [ {| result := Some WIN; regime := Some "TRENDING" |};
      {| result := Some LOSS; regime := None |};
      {| result := Some WIN; regime := None |} ] in
  (forall i l, Permutation (shuffle i l) l) /\
  exists (r0 : BacktestResult float) stats log',
    fst (runBacktest 0 signals []) = Results r0 /\
    runMonteCarloSimulation (fun l => l) (fun x _ => x) (fun x => x) shuffle
        (fun i => Z.of_nat i) signals 25 []
      = (Simulated stats, log') /\
    length log' = 25%nat /\
    mc_winRate stats
      = summarise (fun l => l) (fun x _ => x) (fun x => x) (repeat (winRate r0) 25).
Proof.
  intros shuffle signals.
  assert (forall i l, Permutation (shuffle i l) l) as Hp
    by (intros i l; symmetry; apply Permutation_rev).
  split; [exact Hp|].
  destruct (fst (runBacktest (N := float) 0 signals [])) as [|r0] eqn:Hr0;
    [discriminate Hr0|].
  destruct (monteCarlo_counts_are_constant (fun l => l) (fun x _ => x) (fun x => x)
              shuffle Hp (fun i => Z.of_nat i) 0 signals 25 [] [] r0 Hr0)
    as (stats & log' & Hrun & Hlen & _ & Hw & _).
  exists r0, stats, log'. repeat split; assumption.
Defined.

Section MonteCarloExact.
Variable sort_numbers : list xnum -> list xnum.
Variable pow : xnum -> xnum -> xnum.
Variable sqrt : xnum -> xnum.
Variable shuffle : nat -> list Signal -> list Signal.
Hypothesis shuffle_permutes : forall i l, Permutation (shuffle i l) l.

Lemma roi_exact (now : Z) (signals : list Signal) (log : list (Z * BacktestResult xnum)) :
  signals <> [] ->
  xis (sim_roi (sim_of (fst (runBacktest now signals log))))
      (fun q => q == (8.5 * inject_Z (Z.of_nat (count_result WIN signals))
                      - 10 * inject_Z (Z.of_nat (count_result LOSS signals))) / 10)%Q.
Proof.
  intros Hne. destruct signals as [|x signals]; [congruence|].
  unfold runBacktest; cbn [fst sim_of sim_roi roi].
  assert (l_equity (loop_start (N := xnum)) = XNum 1000) as Hstart by reflexivity.
  destruct (equity_run (x :: signals) _ _ Hstart) as (e & -> & Ee).
  change (XNum e - lit 1000)%js with (XNum (e - 1000)).
  change (XNum (e - 1000) / lit 1000)%js with (xdiv (XNum (e - 1000)) (XNum 1000)).
  rewrite xdiv_num by (intros E; discriminate E).
  change (XNum ?u * lit 100)%js with (XNum (u * 100)).
  unfold xis. rewrite Ee. field.
Qed.

(** In exact arithmetic the return of a backtest does not depend on the
    order of the signals either, so the simulations are profitable all
    together or not at all: [profitableSims] is [iterations] when the
    signals gain more than they lose, and 0 otherwise. *)
Theorem monteCarlo_all_or_none
    (clock : nat -> Z) (signals : list Signal) (iterations : nat)
    (log : list (Z * BacktestResult xnum)) :
  signals <> [] ->
  exists stats log',
    runMonteCarloSimulation sort_numbers pow sqrt shuffle clock signals iterations log
      = (Simulated stats, log') /\
    profitableSims stats =
      if Qltb (10 * inject_Z (Z.of_nat (count_result LOSS signals)))
              (8.5 * inject_Z (Z.of_nat (count_result WIN signals)))
      then iterations else 0%nat.
Proof.
  intros Hne. unfold runMonteCarloSimulation.
  destruct signals as [|x signals]; [congruence|].
  set (l := x :: signals) in *.
  destruct (simulate_unfold shuffle shuffle_permutes clock l iterations 0 [] log Hne)
    as [Hres _].
  destruct (simulate shuffle clock l iterations 0 [] log) as [results log'].
  cbn [fst app] in Hres. subst results.
  eexists. eexists. split; [reflexivity|]. cbn [profitableSims].
  set (gain := Qltb _ _).
  enough (forall ks,
             length (List.filter (fun r : SimResult => (lit 0 <? sim_roi r)%js)
                       (map (fun k => sim_of (fst (runBacktest (clock k) (shuffle k l) []))) ks))
             = if gain then length ks else 0%nat) as Hall
    by (rewrite Hall, length_seq; reflexivity).
  intros ks.
  assert (forall k, (lit 0 <? sim_roi (sim_of (fst (runBacktest (clock k) (shuffle k l) []))))%js
                    = gain) as Hk.
  { intros k. pose proof (shuffle_permutes k l) as Hp.
    assert (shuffle k l <> []) as Hne'.
    { intros E. rewrite E in Hp. now apply Permutation_nil in Hp. }
    pose proof (roi_exact (clock k) (shuffle k l) [] Hne') as Hroi.
    unfold count_result in Hroi.
    rewrite (filter_length_perm (is_result WIN) _ _ Hp),
            (filter_length_perm (is_result LOSS) _ _ Hp) in Hroi.
    fold (count_result WIN l) in Hroi. fold (count_result LOSS l) in Hroi.
    destruct (sim_roi _) as [q|]; [|contradiction]. unfold xis in Hroi.
    change (lit 0 <? XNum q)%js with (Qltb 0 q). subst gain.
    set (w := inject_Z (Z.of_nat (count_result WIN l))) in *.
    set (s := inject_Z (Z.of_nat (count_result LOSS l))) in *.
    assert (q * 10 == 8.5 * w - 10 * s)%Q as Hq by (rewrite Hroi; field).
    destruct (Qltb (10 * s) (8.5 * w)) eqn:E;
      [apply Qltb_lt in E; apply Qltb_lt | apply Qltb_ge in E; apply Qltb_ge]; lra. }
  induction ks as [|k ks IH]; cbn [map List.filter length].
  - now destruct gain.
  - rewrite Hk. destruct gain; cbn [length]; now rewrite IH.
Qed.

End MonteCarloExact.

Lemma monteCarlo_all_or_none_witness :
  let shuffle (i : nat) (l : list Signal) := rev l in
  let signals :=
    [ {| result := Some WIN; regime := Some "TRENDING" |};
      {| result := Some LOSS; regime := None |};
      {| result := Some WIN; regime := None |} ] in
  (forall i l, Permutation (shuffle i l) l) /\
  signals <> [] /\
  exists stats log',
    runMonteCarloSimulation (fun l => l) (fun x _ => x) (fun x => x) shuffle
        (fun i => Z.of_nat i) signals 40 []
      = (Simulated stats, log') /\
    profitableSims stats = 40%nat.
Proof.
  intros shuffle signals.
  assert (forall i l, Permutation (shuffle i l) l) as Hp
    by (intros i l; symmetry; apply Permutation_rev).
  assert (signals <> []) as Hne by discriminate.
  split; [exact Hp|]. split; [exact Hne|].
  destruct (monteCarlo_all_or_none (fun l => l) (fun x _ => x) (fun x => x)
              shuffle Hp (fun i => Z.of_nat i) signals 40 [] Hne)
    as (stats & log' & Hrun & Hprof).
  exists stats, log'. split; [exact Hrun | exact Hprof].
Defined.

End BacktestInvariants.

(* ===================================================================== *)
(** * AIEngine: the network under training, and the sample buffer *)
(* ===================================================================== *)

Section AIInvariants.
Import AIEngine.

Section Training.
Context {N : Type} `{NaNLaws N}.
Variable exp : N -> N.
Hypothesis exp_nan : exp nan = nan.

Lemma matmul_short (w : list (list N)) (v : list N) (cols : nat) :
  Forall (fun row => length row = cols) w -> (length v < cols)%nat ->
  matmul w v = repeat nan (length w).
Proof.
  intros Hw Hv. unfold matmul. apply map_const_repeat.
  eapply Forall_impl; [exact Hw|]. intros row Hrow. cbv beta in Hrow.
  apply dot_from_short. lia.
Qed.

Lemma matmul_nan_head (w : list (list N)) (n cols : nat) :
  Forall (fun row => length row = S cols) w ->
  matmul w (repeat nan (S n)) = repeat nan (length w).
Proof.
  intros Hw. unfold matmul. apply map_const_repeat.
  eapply Forall_impl; [exact Hw|]. intros row Hrow. cbv beta in Hrow.
  apply dot_from_nan_head; [|reflexivity].
  intros ->. discriminate Hrow.
Qed.

(** The forward pass of a network of this shape is NaN throughout,
    whatever its weights. *)
Lemma forward_shaped (m : SimpleNN N) (input : list N) :
  shaped m -> length input = 5%nat ->
  forward exp m input =
    {| h1 := repeat nan 5; h2 := repeat nan 16; output := repeat nan 8 |}.
Proof.
  intros (L1 & S1 & L2 & S2 & L3 & S3) Hin. unfold forward.
  rewrite (matmul_short (w1 m) input 16 S1) by lia. rewrite L1.
  rewrite imap_repeat_nan by (intros i; rewrite add_nan_l; apply relu_nan).
  rewrite (matmul_nan_head (w2 m) 4 7 S2), L2.
  rewrite imap_repeat_nan by (intros i; rewrite add_nan_l; apply relu_nan).
  rewrite (matmul_nan_head (w3 m) 15 1 S3), L3.
  rewrite imap_repeat_nan by (intros i; apply add_nan_l).
  now rewrite (softmax_nan exp exp_nan 7).
Qed.

Lemma update_weights_shape (lr : N) (w : list (list N)) (d a : list N) (cols : nat) :
  Forall (fun row => length row = cols) w ->
  length (update_weights lr w d a) = length w /\
  Forall (fun row => length row = cols) (update_weights lr w d a).
Proof.
  intros Hw. unfold update_weights. split; [apply length_imap|].
  apply Forall_lookup_2. intros i row Hrow.
  rewrite list_lookup_imap in Hrow.
  destruct (w !! i) as [row0|] eqn:Hi; [|discriminate Hrow].
  cbn in Hrow. injection Hrow as <-. rewrite length_imap.
  exact (Forall_lookup_1 _ _ _ _ Hw Hi).
Qed.

Lemma trainOne_shaped (m : SimpleNN N) (input label : list N) :
  shaped m -> shaped (trainOne exp m input label).
Proof.
  intros (L1 & S1 & L2 & S2 & L3 & S3). unfold shaped, trainOne; cbn [w1 w2 w3].
  repeat match goal with
  | |- context [update_weights ?lr ?w ?d ?a] =>
      lazymatch goal with
      | _ : length (update_weights lr w d a) = _ |- _ => fail
      | _ => idtac
      end;
      let HL := fresh "HL" in let HS := fresh "HS" in
      first [ destruct (update_weights_shape lr w d a 16 S1) as [HL HS]
            | destruct (update_weights_shape lr w d a 8 S2) as [HL HS]
            | destruct (update_weights_shape lr w d a 2 S3) as [HL HS] ];
      rewrite ?L1, ?L2, ?L3 in HL
  end.
  repeat split; assumption.
Qed.

Lemma train_shaped (inputs labels : list (list N)) (epochs : nat) (m : SimpleNN N) :
  shaped m -> shaped (train exp m inputs labels epochs).
Proof.
  revert m. induction epochs as [|epochs IH]; intros m Hm; [exact Hm|].
  cbn [train]. apply IH. clear IH.
  generalize (combine inputs labels). intros xs. revert m Hm.
  induction xs as [|[x y] xs IH]; intros m Hm; [exact Hm|].
  cbn [fold_left]. apply IH. now apply trainOne_shaped.
Qed.

Lemma new_SimpleNN_shaped (rnd : nat -> N) : shaped (new_SimpleNN rnd 5 16 8 2).
Proof.
  unfold shaped, new_SimpleNN; cbn [w1 w2 w3].
  destruct (randomMatrix_shape rnd 0 5 16) as [L1 S1].
  destruct (randomMatrix_shape rnd (5 * 16 + 16) 16 8) as [L2 S2].
  destruct (randomMatrix_shape rnd (5 * 16 + 16 + 16 * 8 + 8) 8 2) as [L3 S3].
  repeat split; assumption.
Qed.

Lemma retrain_ready (e : Engine N) : ready_shaped e -> ready_shaped (retrain exp e).
Proof.
  intros (Hr & m & Hm & Hs). unfold retrain. rewrite Hm, Hr. cbn [negb orb].
  destruct (_ <? _)%nat; [split; [exact Hr | exists m; now split]|].
  split; [reflexivity|]. eexists. split; [reflexivity|]. now apply train_shaped.
Qed.

Lemma ai_run_ready (c : AICall N) (e : Engine N) :
  (ready_shaped e \/ exists rnd saved, c = AInitialize rnd saved) ->
  ready_shaped (ai_run exp c e).
Proof.
  intros Hpre. destruct c as [rnd saved|ind a wasWin| |]; cbn [ai_run].
  - unfold initialize, loadTrainingData.
    destruct saved; (split; [reflexivity|]); eexists; (split; [reflexivity|]);
      apply new_SimpleNN_shaped.
  - destruct Hpre as [(Hr & m & Hm & Hs)|(? & ? & [=])].
    unfold addTrainingSample. cbv zeta.
    destruct (_ && _); cbn [fst]; [apply retrain_ready|];
      (split; [exact Hr|]); exists m; now split.
  - destruct Hpre as [Hpre|(? & ? & [=])]. now apply retrain_ready.
  - destruct Hpre as [(Hr & m & Hm & Hs)|(? & ? & [=])].
    split; [exact Hr|]. exists m. now split.
Qed.

Lemma ai_run_all_ready (cs : list (AICall N)) (e : Engine N) :
  ready_shaped e -> ready_shaped (ai_run_all exp cs e).
Proof.
  revert e. induction cs as [|c cs IH]; intros e He; [exact He|].
  cbn [ai_run_all fold_left]. apply IH, ai_run_ready. now left.
Qed.

(** No training repairs the network: once [initialize()] has run, and
    whatever samples are added, stored or retrained on afterwards,
    [predict] answers SELL with [buyProb], [sellProb] and [confidence] all
    NaN, for every reading of the indicators. Training keeps the shape of
    the weight matrices, and it is the shape that makes every dot product
    read past the end of its input. *)
Theorem predict_nan_survives_training
    (rnd : nat -> N) (saved : Stored N) (e0 : Engine N) (cs : list (AICall N))
    (ind : AIIndicators N) :
  predict exp ind (ai_run_all exp cs (initialize rnd saved e0))
  = Some {| action := SELL; buyProb := nan; sellProb := nan; confidence := nan |}.
Proof.
  assert (ready_shaped (ai_run_all exp cs (initialize rnd saved e0)))
    as (Hr & m & Hm & Hs).
  { apply ai_run_all_ready.
    apply (ai_run_ready (AInitialize rnd saved) e0). right. eauto. }
  unfold predict. rewrite Hm, Hr. cbn [negb]. unfold nn_predict.
  rewrite (forward_shaped m _ Hs) by reflexivity.
  cbn [output repeat lookup list_lookup num].
  now rewrite ltb_nan_nan, nmax_nan_l, mul_nan_l.
Qed.

End Training.

(** On doubles: a stored buffer of twenty samples, one more sample and a
    retraining; [Math.exp] is replaced by a polynomial that, like it,
    sends NaN to NaN. *)
Lemma predict_nan_survives_training_witness :
  let exp2 (x : float) := (lit 1 + x + x * x / lit 2)%js in
  let rnd (k : nat) : float := (of_nat (k mod 10) / lit 10)%js in
  let ind : AIIndicators float :=
    {| rsi := lit 50; adx := lit 30; atr := lit 0.001;
       williamsR := lit (-50); cci := lit 0 |} in
  let x : Sample float :=
    {| features := normalizeFeatures (lit 70) (lit 20) (lit 0.002) (lit (-20)) (lit 100);
       label := [lit 1; lit 0] |} in
  let saved := Saved (Some (repeat x 20)) (Some 49%nat) in
  exp2 nan = nan /\
  predict exp2 ind
    (ai_run_all exp2 [AAddSample ind BUY true; ARetrain] (initialize rnd saved unloaded))
  = Some {| action := SELL; buyProb := nan; sellProb := nan; confidence := nan |}.
Proof.
  intros exp2 rnd ind x saved.
  assert (exp2 nan = nan) as Hexp by reflexivity.
  split; [exact Hexp|].
  exact (predict_nan_survives_training exp2 Hexp rnd saved unloaded
           [AAddSample ind BUY true; ARetrain] ind).
Defined.

(** ** The buffer and the retraining cadence *)

Lemma addTrainingSample_counts {N} `{JSNumber N} (exp : N -> N)
    (ind : AIIndicators N) (a : Action) (wasWin : bool) (e : Engine N) :
  let r := addTrainingSample exp ind a wasWin e in
  signalCount (fst r) = S (signalCount e) /\
  length (trainingData (fst r)) = Nat.min (S (length (trainingData e))) 500 /\
  snd r = ((S (signalCount e) mod 50 =? 0)%nat
           && (20 <=? Nat.min (S (length (trainingData e))) 500)%nat).
Proof.
  cbv zeta. unfold addTrainingSample. cbv zeta.
  set (x := {| features := _; label := _ |}).
  set (data := if (_ <? _)%nat then _ else _).
  assert (length data = Nat.min (S (length (trainingData e))) 500) as Hlen.
  { subst data. unfold keep_last, MAX_TRAINING_DATA.
    destruct (500 <? _)%nat eqn:E;
      [apply Nat.ltb_lt in E; rewrite length_skipn | apply Nat.ltb_ge in E];
      rewrite length_app in *; cbn [length] in *; lia. }
  unfold RETRAIN_INTERVAL. rewrite Hlen.
  destruct (_ && _); cbn [fst snd].
  - destruct (retrain_buffer exp {| model := model e; isModelReady := isModelReady e;
                                    trainingData := data; signalCount := S (signalCount e) |})
      as [-> ->].
    cbn [trainingData signalCount]. now rewrite Hlen.
  - cbn [trainingData signalCount]. now rewrite Hlen.
Qed.

Lemma add_all_counts {N} `{JSNumber N} (exp : N -> N)
    (samples : list (AIIndicators N * Action * bool)) (e : Engine N) :
  (length (trainingData e) <= 500)%nat ->
  signalCount (fst (add_all exp samples e)) = (signalCount e + length samples)%nat /\
  length (trainingData (fst (add_all exp samples e)))
    = Nat.min (length (trainingData e) + length samples) 500 /\
  snd (add_all exp samples e)
    = map (fun k => ((signalCount e + S k) mod 50 =? 0)%nat
                    && (20 <=? Nat.min (length (trainingData e) + S k) 500)%nat)
          (seq 0 (length samples)).
Proof.
  revert e. induction samples as [|[[ind a] wasWin] samples IH]; intros e Hle.
  - cbn [add_all fst snd length seq map]. repeat split; lia.
  - cbn [add_all].
    pose proof (addTrainingSample_counts exp ind a wasWin e) as Hone. cbv zeta in Hone.
    destruct (addTrainingSample exp ind a wasWin e) as [e1 f] eqn:E1.
    cbn [fst snd] in Hone. destruct Hone as (Hc & Hl & Hf).
    assert (length (trainingData e1) <= 500)%nat as Hle1 by lia.
    specialize (IH e1 Hle1).
    destruct (add_all exp samples e1) as [e2 fs]. cbn [fst snd] in IH |- *.
    destruct IH as (-> & -> & ->). rewrite Hc, Hl, Hf. cbn [length seq map].
    split; [lia|]. split; [lia|].
    rewrite Nat.add_1_r. f_equal.
    + do 2 f_equal. f_equal. lia.
    + rewrite <- seq_shift, map_map. apply map_ext. intros k.
      replace (S (signalCount e) + S k)%nat with (signalCount e + S (S k))%nat by lia.
      do 2 f_equal. lia.
Qed.

(** After [reset()], the [n]-th sample added retrains exactly when [n] is
    a multiple of 50: the guard of twenty samples never stands in the way,
    as the buffer holds [min n 500] samples by then. [getStats()] counts
    down to the next retraining, from 50 to 1. *)
Theorem retrain_cadence_after_reset {N} `{JSNumber N} (exp : N -> N)
    (samples : list (AIIndicators N * Action * bool)) (e : Engine N) :
  let n := length samples in
  let r := add_all exp samples (reset e) in
  signalCount (fst r) = n /\
  length (trainingData (fst r)) = Nat.min n 500 /\
  snd r = map (fun k => (S k mod 50 =? 0)%nat) (seq 0 n) /\
  nextRetrainIn (getStats (fst r)) = (50 - n mod 50)%nat /\
  (1 <= nextRetrainIn (getStats (fst r)) <= 50)%nat.
Proof.
  cbv zeta.
  destruct (add_all_counts exp samples (reset e)) as (Hc & Hl & Hf);
    [cbn; lia|].
  cbn [reset trainingData signalCount length Nat.add] in Hc, Hl, Hf.
  split; [exact Hc|]. split; [exact Hl|]. split.
  - rewrite Hf. apply map_ext_in. intros k Hk. apply in_seq in Hk.
    destruct (S k mod 50 =? 0)%nat eqn:E; [|reflexivity]. cbn [andb].
    apply Nat.eqb_eq in E. apply Nat.leb_le.
    assert (S k = 50 * (S k / 50))%nat as Hdiv
      by (rewrite (Nat.div_mod_eq (S k) 50) at 1; lia).
    lia.
  - unfold getStats; cbn [nextRetrainIn]. unfold RETRAIN_INTERVAL. rewrite Hc.
    pose proof (Nat.mod_upper_bound (length samples) 50). lia.
Qed.

(** ** Normalised features *)

(** The five features lie between 0 and 1 exactly when the indicators lie
    in their documented ranges, RSI and ADX in 0..100, Williams %R in
    -100..0 and CCI in -200..200, and the ATR is not negative: only the ATR
    is clamped, and only from above. *)
Theorem normalizeFeatures_range (rsi adx atr williamsR cci : Q) :
  Forall (fun v => xis v (fun q => 0 <= q <= 1)%Q)
         (normalizeFeatures (XNum rsi) (XNum adx) (XNum atr) (XNum williamsR) (XNum cci))
  <-> (0 <= rsi <= 100 /\ 0 <= adx <= 100 /\ 0 <= atr /\
       -100 <= williamsR <= 0 /\ -200 <= cci <= 200)%Q.
Proof.
  unfold normalizeFeatures.
  change (XNum rsi / lit 100)%js with (xdiv (XNum rsi) (XNum 100)).
  change (XNum adx / lit 100)%js with (xdiv (XNum adx) (XNum 100)).
  change ((XNum williamsR + lit 100) / lit 100)%js
    with (xdiv (XNum (williamsR + 100)) (XNum 100)).
  change ((XNum cci + lit 200) / lit 400)%js with (xdiv (XNum (cci + 200)) (XNum 400)).
  change (nmin (XNum atr * lit 100) (lit 1))%js
    with (XNum (if Qle_bool (atr * 100) 1 then atr * 100 else 1)).
  rewrite !xdiv_num by (intros E; discriminate E).
  rewrite !Forall_cons, Forall_nil. unfold xis.
  assert (forall x c : Q, 0 < c -> (0 <= x / c <= 1 <-> 0 <= x <= c))%Q as Hdiv.
  { intros x c Hc. split; intros [Hlo Hhi].
    - assert (x == x / c * c)%Q as Hx by (field; lra).
      set (y := (x / c)%Q) in *.
      assert (0 <= y * c)%Q by (apply Qmult_le_0_compat; lra).
      assert (y * c <= 1 * c)%Q by (apply Qmult_le_compat_r; lra).
      lra.
    - split; [apply Qle_shift_div_l; lra | apply Qle_shift_div_r; lra]. }
  rewrite !Hdiv by lra.
  destruct (Qle_bool (atr * 100) 1) eqn:E;
    [apply Qle_bool_iff in E
    | apply not_true_iff_false in E; rewrite Qle_bool_iff in E; apply Qnot_le_lt in E];
    split; intros (H1 & H2 & H3 & H4 & H5); (split; [|split; [|split; [|split]]]);
    try assumption; lra.
Qed.

(** ** Softmax on numbers *)

Section SoftmaxExact.
Variable exp : xnum -> xnum.
Hypothesis exp_positive : forall q, xis (exp (XNum q)) (fun y => 0 < y)%Q.

Lemma fold_nmax_num (qs : list Q) (x : Q) :
  exists m, fold_left nmax (map XNum qs) (XNum x) = XNum m.
Proof.
  revert x. induction qs as [|q qs IH]; intros x; [now exists x|].
  cbn [map fold_left]. apply IH.
Qed.

Lemma exps_num (m : Q) (qs : list Q) :
  exists es,
    map (fun x => exp (x - XNum m)%js) (map XNum qs) = map XNum es /\
    length es = length qs /\ Forall (fun y => 0 < y)%Q es.
Proof.
  induction qs as [|q qs (es & Hes & Hlen & Hpos)]; [now exists []|].
  pose proof (exp_positive (q - m)) as Hq.
  destruct (exp (XNum (q - m))) as [y|] eqn:Ey; [|contradiction].
  exists (y :: es). cbn [map length].
  change (XNum q - XNum m)%js with (XNum (q - m)).
  rewrite Ey, Hes, Hlen. repeat split. now constructor.
Qed.

Lemma fold_add_num (es : list Q) (a : Q) :
  fold_left add (map XNum es) (XNum a) = XNum (fold_left Qplus es a).
Proof.
  revert a. induction es as [|y es IH]; intros a; [reflexivity|].
  cbn [map fold_left]. apply IH.
Qed.

Lemma fold_left_Qplus (es : list Q) (a : Q) :
  (fold_left Qplus es a == a + fold_right Qplus 0 es)%Q.
Proof.
  revert a. induction es as [|y es IH]; intros a; cbn [fold_left fold_right]; [lra|].
  rewrite IH. lra.
Qed.

Lemma sum_positive (es : list Q) :
  Forall (fun y => 0 < y)%Q es -> (0 <= fold_right Qplus 0 es)%Q.
Proof.
  induction 1 as [|y es Hy _ IH]; cbn [fold_right]; lra.
Qed.

Lemma sum_scaled (es : list Q) (s : Q) :
  ~ (s == 0)%Q ->
  (fold_right Qplus 0 (map (fun y => y / s) es) == fold_right Qplus 0 es / s)%Q.
Proof.
  intros Hs. induction es as [|y es IH]; cbn [map fold_right]; [field; exact Hs|].
  rewrite IH. field. exact Hs.
Qed.

(** On a non-empty array of numbers, and for an exponential that is
    positive, [softmax] answers as many numbers, all positive, that sum to
    one: the NaN of [predict] is not its doing. *)
Theorem softmax_is_distribution (qs : list Q) :
  qs <> [] ->
  exists ps,
    softmax exp (map XNum qs) = map XNum ps /\
    length ps = length qs /\
    Forall (fun p => 0 < p)%Q ps /\
    (fold_right Qplus 0 ps == 1)%Q.
Proof.
  intros Hne. unfold softmax.
  assert (exists m, max_of (map XNum qs) = XNum m) as (m & ->).
  { destruct qs as [|q qs]; [congruence|]. apply fold_nmax_num. }
  destruct (exps_num m qs) as (es & -> & Hlen & Hpos).
  change (lit 0) with (XNum 0). rewrite fold_add_num.
  set (s := fold_left Qplus es 0%Q).
  assert (s == fold_right Qplus 0 es)%Q as Hs
    by (subst s; rewrite fold_left_Qplus; lra).
  assert (0 < s)%Q as Hs0.
  { rewrite Hs. destruct Hpos as [|y es Hy Hes]; [destruct qs; [congruence | discriminate]|].
    cbn [fold_right]. pose proof (sum_positive es Hes). lra. }
  exists (map (fun y => y / s)%Q es).
  split; [|split; [|split]].
  - rewrite !map_map. apply map_ext. intros y.
    change (XNum y / XNum s)%js with (xdiv (XNum y) (XNum s)).
    apply xdiv_num. lra.
  - now rewrite length_map.
  - apply Forall_map. eapply Forall_impl; [exact Hpos|].
    intros y Hy. cbv beta in *. apply Qlt_shift_div_l; lra.
  - rewrite sum_scaled by lra. rewrite <- Hs. field. lra.
Qed.

End SoftmaxExact.

Lemma softmax_is_distribution_witness :
  let exp (x : xnum) :=
    match x with
    | XNum q => XNum (if Qltb q 0 then 1 / (1 - q) else 1 + q)
    | XNaN => XNaN
    end in
  (forall q, xis (exp (XNum q)) (fun y => 0 < y)%Q) /\
  [2; 0; -3]%Q <> [] /\
  exists ps,
    softmax exp (map XNum [2; 0; -3]%Q) = map XNum ps /\
    length ps = 3%nat /\
    Forall (fun p => 0 < p)%Q ps /\
    (fold_right Qplus 0 ps == 1)%Q.
Proof.
  intros exp.
  assert (forall q, xis (exp (XNum q)) (fun y => 0 < y)%Q) as Hexp.
  { intros q. unfold exp, xis.
    destruct (Qltb q 0) eqn:E; [apply Qltb_lt in E | apply Qltb_ge in E]; [|lra].
    apply Qlt_shift_div_l; lra. }
  assert ([2; 0; -3]%Q <> []) as Hne by discriminate.
  split; [exact Hexp|]. split; [exact Hne|].
  exact (softmax_is_distribution exp Hexp [2; 0; -3]%Q Hne).
Defined.

End AIInvariants.

(* ===================================================================== *)
(** * The regime names across the modules *)
(* ===================================================================== *)

Section RegimeNames.

Lemma state_named_name (s : HMMEngine.State) :
  HMMEngine.state_named (HMMEngine.STATE_NAMES s) = Some s.
Proof. now destruct s. Qed.

Lemma detectRegime_name {N} `{JSNumber N}
    (now : Z) (ind : HMMEngine.Indicators N) (e : HMMEngine.Engine N) :
  let r := fst (HMMEngine.detectRegime now ind e) in
  HMMEngine.stateName r = HMMEngine.STATE_NAMES (HMMEngine.state r) /\
  HMMEngine.state r = HMMEngine.currentState (snd (HMMEngine.detectRegime now ind e)).
Proof.
  cbv zeta. unfold HMMEngine.detectRegime.
  destruct (falsy _ || falsy _ || falsy _); [now split|].
  destruct (HMMEngine.select_best _ _); now split.
Qed.

Lemma rl_run_all_ok {N} `{JSNumber N} (cs : list (RLCall N)) (e : RLEngine.Engine N) :
  rl_ok e -> rl_ok (rl_run_all cs e).
Proof.
  revert e. induction cs as [|c cs IH]; intros e He; [exact He|].
  simpl. apply IH, rl_run_ok, He.
Qed.

(** The name under which [detectRegime] reports a regime is understood by
    the other modules, whatever the observation and the engine's past: it
    denotes the reported state, [getRegimeStrategy] answers this state's
    strategy and not the RANGING default, [runBacktest] tallies a signal
    carrying it under this state, and the Q-table has a row for it after
    any sequence of updates and resets, so that an update for this regime
    is never refused. *)
Theorem regime_name_is_understood {N} `{JSNumber N}
    (hmm_calls : list (HMMEngine.Call N)) (now : Z) (ind : HMMEngine.Indicators N)
    (rl_calls : list (RLCall N)) (o : BacktestingEngine.Outcome) :
  let r := fst (HMMEngine.detectRegime now ind
                  (HMMEngine.run_all hmm_calls HMMEngine.initial)) in
  let name := HMMEngine.stateName r in
  HMMEngine.state_named name = Some (HMMEngine.state r) /\
  HMMEngine.getRegimeStrategy (N := N) name = HMMEngine.strategies (HMMEngine.state r) /\
  in_regime (HMMEngine.state r)
    {| BacktestingEngine.result := Some o; BacktestingEngine.regime := Some name |} = true /\
  is_Some (RLEngine.qTable (rl_run_all rl_calls RLEngine.initial) !! name).
Proof.
  cbv zeta.
  destruct (detectRegime_name now ind (HMMEngine.run_all hmm_calls HMMEngine.initial))
    as [Hname _].
  rewrite Hname.
  set (s := HMMEngine.state _).
  split; [apply state_named_name|].
  split; [unfold HMMEngine.getRegimeStrategy; now rewrite state_named_name|].
  split; [now destruct s|].
  assert (rl_ok (N := N) RLEngine.initial) as Hinit.
  { split; [reflexivity|]. intros k Hk. rewrite (initial_regimes k Hk). eauto. }
  apply (rl_run_all_ok rl_calls _ Hinit).
  destruct s; simpl; tauto.
Qed.

End RegimeNames.

(* ===================================================================== *)
(** * PatternRecognition: peaks, windows, trendlines and clusters *)
(* ===================================================================== *)

Section PatternProperties.
Import PatternRecognition.

Lemma xltb_asym (a b : xnum) : xltb a b = true -> xltb b a = false.
Proof.
  destruct a as [x|], b as [y|]; simpl; try discriminate.
  intros Hxy. apply Qltb_lt in Hxy. apply Qltb_ge. lra.
Qed.

Section Extrema.
Context {N : Type}.
Variable gt : N -> N -> bool.
Hypothesis gt_asym : forall a b, gt a b = true -> gt b a = false.
Variable v : nat -> N.
Variable mk : nat -> Extremum N.
Hypothesis mk_index : forall i, index (mk i) = i.

Lemma scan_indexes (from count : nat) :
  map index (scan gt v mk from count) = List.filter (extreme_at gt v) (seq from count).
Proof.
  unfold scan. revert from. induction count as [|count IH]; intros from; [reflexivity|].
  cbn [seq flat_map List.filter]. rewrite map_app, IH.
  destruct (extreme_at gt v from); cbn [map app]; [now rewrite mk_index | reflexivity].
Qed.

Lemma extreme_excludes (i : nat) :
  (2 <= i)%nat -> extreme_at gt v i = true ->
  extreme_at gt v (i + 1) = false /\ extreme_at gt v (i + 2) = false.
Proof.
  unfold extreme_at. intros Hi Hext.
  apply andb_true_iff in Hext as [Hext H2]. apply andb_true_iff in Hext as [Hext H1].
  apply gt_asym in H1, H2.
  split.
  - replace (i + 1 - 1)%nat with i by lia. rewrite H1. reflexivity.
  - replace (i + 2 - 2)%nat with i by lia. rewrite H2.
    now rewrite andb_false_r.
Qed.

Lemma filter_seq_from (from count a : nat) (rest : list nat) :
  List.filter (extreme_at gt v) (seq from count) = a :: rest ->
  (from <= a < from + count)%nat /\ extreme_at gt v a = true.
Proof.
  intros Hf.
  assert (In a (List.filter (extreme_at gt v) (seq from count))) as Hin
    by (rewrite Hf; now left).
  apply filter_In in Hin as [Hin Ha]. apply in_seq in Hin. now split.
Qed.

Lemma filter_seq_gapped (from count : nat) :
  (2 <= from)%nat -> gapped 3 (List.filter (extreme_at gt v) (seq from count)).
Proof.
  revert from. induction count as [|count IH]; intros from Hfrom; [exact I|].
  cbn [seq List.filter].
  specialize (IH (S from) ltac:(lia)).
  destruct (extreme_at gt v from) eqn:E; [|exact IH].
  destruct (List.filter (extreme_at gt v) (seq (S from) count)) as [|b rest] eqn:Hf;
    [exact I|].
  split; [|exact IH].
  destruct (filter_seq_from _ _ _ _ Hf) as [Hb Eb].
  destruct (extreme_excludes from Hfrom E) as [E1 E2].
  destruct (Nat.eq_dec b (from + 1)) as [->|]; [congruence|].
  destruct (Nat.eq_dec b (from + 2)) as [->|]; [congruence|].
  lia.
Qed.

Lemma gapped_count (g : nat) (indexes : list nat) (lo hi : nat) :
  gapped g indexes -> Forall (fun i => lo <= i <= hi)%nat indexes ->
  indexes = [] \/ (lo + g * (length indexes - 1) <= hi)%nat.
Proof.
  revert lo. induction indexes as [|a [|b rest] IH]; intros lo Hg Hall.
  - now left.
  - right. inversion Hall; subst. cbn [length]. lia.
  - right. destruct Hg as [Hab Hg]. inversion Hall as [|? ? Ha Hall']; subst.
    destruct (IH (a + g)%nat Hg) as [?|Hle]; [|discriminate|].
    + inversion Hall' as [|? ? Hb Hrest]; subst. constructor; [lia|].
      clear IH Hall Hall' Hb.
      revert b Hab Hg. induction rest as [|c rest IHr]; intros b Hab Hg; [constructor|].
      destruct Hg as [Hbc Hg]. inversion Hrest; subst.
      constructor; [lia|]. apply (IHr ltac:(assumption) c); [lia | exact Hg].
    + cbn [length] in Hle |- *. lia.
Qed.

Lemma scan_spacing (n : nat) :
  let es := scan gt v mk 2 (n - 4) in
  Forall (fun e => 2 <= index e /\ index e + 2 < n)%nat es /\
  gapped 3 (map index es) /\
  (3 * length es <= n - 2)%nat.
Proof.
  cbv zeta.
  assert (Forall (fun i => 2 <= i <= n - 3)%nat (map index (scan gt v mk 2 (n - 4)))) as Hrange.
  { rewrite scan_indexes. apply List.Forall_forall. intros i Hi.
    apply filter_In in Hi as [Hi _]. apply in_seq in Hi. lia. }
  assert (gapped 3 (map index (scan gt v mk 2 (n - 4)))) as Hgap
    by (rewrite scan_indexes; apply filter_seq_gapped; lia).
  split; [|split; [exact Hgap|]].
  - apply Forall_map in Hrange. eapply Forall_impl; [exact Hrange|].
    intros e He. cbv beta in He. lia.
  - destruct (gapped_count 3 _ 2 (n - 3) Hgap Hrange) as [E|Hle].
    + apply map_eq_nil in E. rewrite E. cbn. lia.
    + rewrite length_map in Hle.
      destruct (scan gt v mk 2 (n - 4)) as [|e es] eqn:Hs; [cbn; lia|].
      cbn [length] in Hle |- *.
      assert (2 <= n - 3)%nat.
      { inversion Hrange; subst. lia. }
      lia.
Qed.

End Extrema.

(** [findPeaks] and [findTroughs] report indices that leave two candles on
    either side, with the high (the low) of the candle as price, in
    increasing order and at least three apart: a candle next to a peak, or
    next but one, is no peak. Hence [n] candles hold at most [(n - 2) / 3]
    peaks, six among twenty. *)
Theorem extrema_are_three_apart (candles : list (Candle xnum)) :
  let n := length candles in
  let peaks := findPeaks candles in
  let troughs := findTroughs candles in
  Forall (fun e => (2 <= index e /\ index e + 2 < n)%nat /\
                   price e = high_at candles (index e)) peaks /\
  Forall (fun e => (2 <= index e /\ index e + 2 < n)%nat /\
                   price e = low_at candles (index e)) troughs /\
  gapped 3 (map index peaks) /\ gapped 3 (map index troughs) /\
  (3 * length peaks <= n - 2)%nat /\ (3 * length troughs <= n - 2)%nat.
Proof.
  cbv zeta.
  set (above := fun a b : xnum => xltb b a).
  assert (forall a b, above a b = true -> above b a = false) as Habove
    by (intros a b; apply xltb_asym).
  set (mkp := fun i => {| index := i; price := high_at candles i |}).
  set (mkt := fun i => {| index := i; price := low_at candles i |}).
  change (findPeaks candles) with (scan above (high_at candles) mkp 2 (length candles - 4)).
  change (findTroughs candles) with (scan xltb (low_at candles) mkt 2 (length candles - 4)).
  destruct (scan_spacing above Habove (high_at candles) mkp (fun i => eq_refl)
              (length candles)) as (Hp1 & Hp2 & Hp3).
  destruct (scan_spacing xltb xltb_asym (low_at candles) mkt (fun i => eq_refl)
              (length candles)) as (Ht1 & Ht2 & Ht3).
  assert (forall gt v mk, (forall i, price (mk i) = v (index (mk i))) ->
            forall from count,
            Forall (fun e : Extremum xnum => price e = v (index e))
                   (scan gt v mk from count)) as Hprice.
  { intros gt v mk Hmk from count. unfold scan. apply List.Forall_forall.
    intros e He. apply in_flat_map in He as (i & _ & He).
    destruct (extreme_at gt v i); [|destruct He].
    destruct He as [<-|[]]. apply Hmk. }
  split; [apply Forall_and; split;
            [exact Hp1 | exact (Hprice above (high_at candles) mkp (fun i => eq_refl) _ _)]|].
  split; [apply Forall_and; split;
            [exact Ht1 | exact (Hprice xltb (low_at candles) mkt (fun i => eq_refl) _ _)]|].
  repeat split; assumption.
Qed.

(** ** The window of each detector *)

Lemma slice_last_short {A} (k : nat) (arr : list A) :
  (length arr <= k)%nat -> slice_last k arr = arr.
Proof.
  intros Hle. unfold slice_last. now replace (length arr - k)%nat with 0%nat by lia.
Qed.

Lemma slice_last_length {A} (k : nat) (arr : list A) :
  length (slice_last k arr) = Nat.min k (length arr).
Proof. unfold slice_last. rewrite length_skipn. lia. Qed.

Lemma slice_last_idem {A} (k : nat) (arr : list A) :
  slice_last k (slice_last k arr) = slice_last k arr.
Proof. apply slice_last_short. rewrite slice_last_length. lia. Qed.

Lemma slice_last_nested {A} (k m : nat) (arr : list A) :
  (k <= m)%nat -> slice_last k (slice_last m arr) = slice_last k arr.
Proof.
  intros Hkm. unfold slice_last. rewrite length_skipn, skipn_skipn. f_equal. lia.
Qed.

Lemma detectors_window {N} `{JSNumber N} `{JSAbs N} (candles : list (Candle N)) :
  detectHeadAndShoulders candles = detectHeadAndShoulders (slice_last 30 candles) /\
  detectInverseHeadAndShoulders candles
    = detectInverseHeadAndShoulders (slice_last 30 candles) /\
  detectTriangles candles = detectTriangles (slice_last 20 candles) /\
  detectDoubleTop candles = detectDoubleTop (slice_last 20 candles) /\
  detectDoubleBottom candles = detectDoubleBottom (slice_last 20 candles).
Proof.
  assert (forall k, (length candles <? k)%nat = false ->
                    (length (slice_last k candles) <? k)%nat = false) as Hlong.
  { intros k Hk. apply Nat.ltb_ge in Hk. apply Nat.ltb_ge.
    rewrite slice_last_length. lia. }
  assert (forall k, (length candles <? k)%nat = true ->
                    slice_last k candles = candles) as Hshort.
  { intros k Hk. apply Nat.ltb_lt in Hk. apply slice_last_short. lia. }
  unfold detectHeadAndShoulders, detectInverseHeadAndShoulders, detectTriangles,
    detectDoubleTop, detectDoubleBottom.
  destruct (length candles <? 30)%nat eqn:E30; destruct (length candles <? 20)%nat eqn:E20;
    rewrite ?(Hshort _ E30), ?(Hshort _ E20), ?(Hlong _ E30), ?(Hlong _ E20),
            ?E30, ?E20, ?slice_last_idem;
    repeat split; reflexivity.
Qed.

(** No detector looks further back than its window: the head-and-shoulders
    detectors give the same answer on the last 30 candles alone, the
    triangle and double top/bottom detectors on the last 20; so the
    patterns that [analyzeAllPatterns] lists, at most five and none on
    fewer than twenty candles, are those of the last 30 candles. (The
    support and resistance levels are computed from all candles.) *)
Theorem detectors_read_recent_candles {N} `{JSNumber N} `{JSAbs N}
    (sort_levels : list (Level N) -> list (Level N))
    (sort_clusters : list (Cluster N) -> list (Cluster N))
    (candles : list (Candle N)) :
  detectHeadAndShoulders candles = detectHeadAndShoulders (slice_last 30 candles) /\
  detectInverseHeadAndShoulders candles
    = detectInverseHeadAndShoulders (slice_last 30 candles) /\
  detectTriangles candles = detectTriangles (slice_last 20 candles) /\
  detectDoubleTop candles = detectDoubleTop (slice_last 20 candles) /\
  detectDoubleBottom candles = detectDoubleBottom (slice_last 20 candles) /\
  patterns (analyzeAllPatterns sort_levels sort_clusters candles)
    = patterns (analyzeAllPatterns sort_levels sort_clusters (slice_last 30 candles)) /\
  (length (patterns (analyzeAllPatterns sort_levels sort_clusters candles)) <= 5)%nat.
Proof.
  destruct (detectors_window candles) as (H1 & H2 & H3 & H4 & H5).
  repeat (split; [assumption|]).
  split.
  - unfold analyzeAllPatterns.
    destruct (detectors_window (slice_last 30 candles)) as (_ & _ & H3' & H4' & H5').
    rewrite !slice_last_nested in H3', H4', H5' by lia.
    rewrite slice_last_length.
    destruct (length candles <? 20)%nat eqn:E20.
    + apply Nat.ltb_lt in E20.
      assert ((Nat.min 30 (length candles) <? 20)%nat = true) as ->
        by (apply Nat.ltb_lt; lia).
      reflexivity.
    + apply Nat.ltb_ge in E20.
      assert ((Nat.min 30 (length candles) <? 20)%nat = false) as ->
        by (apply Nat.ltb_ge; lia).
      cbn [patterns].
      rewrite H3', H4', H5', <- H1, <- H2, <- H3, <- H4, <- H5. reflexivity.
  - unfold analyzeAllPatterns.
    destruct (length candles <? 20)%nat; cbn [patterns length]; [lia|].
    unfold push_if.
    destruct (detectHeadAndShoulders candles), (detectInverseHeadAndShoulders candles),
      (detectTriangles candles), (detectDoubleTop candles), (detectDoubleBottom candles);
      cbn [app length]; lia.
Qed.

(** ** The regression line in exact arithmetic *)

Lemma inject_S (n : nat) : (inject_Z (Z.of_nat (S n)) == inject_Z (Z.of_nat n) + 1)%Q.
Proof. rewrite Nat2Z.inj_succ, <- Z.add_1_r, inject_Z_plus. reflexivity. Qed.

Lemma fold_sums (qs : list Q) (from : nat) (x y xy x2 : Q) :
  exists x' y' xy' x2',
    fold_left sums_step (combine (seq from (length qs)) (map XNum qs))
      {| sumX := XNum x; sumY := XNum y; sumXY := XNum xy; sumX2 := XNum x2 |}
    = {| sumX := XNum x'; sumY := XNum y'; sumXY := XNum xy'; sumX2 := XNum x2' |} /\
    (x' == x + sumk from (length qs))%Q /\
    (y' == y + sumq qs)%Q /\
    (xy' == xy + wsum from qs)%Q /\
    (x2' == x2 + sumk2 from (length qs))%Q.
Proof.
  revert from x y xy x2. induction qs as [|q qs IH]; intros from x y xy x2.
  - exists x, y, xy, x2. cbn. repeat split; lra.
  - cbn [length seq map combine fold_left sums_step sumX sumY sumXY sumX2].
    rewrite of_nat_exact.
    change (XNum x + XNum ?i)%js with (XNum (x + i)).
    change (XNum y + XNum q)%js with (XNum (y + q)).
    change (XNum xy + XNum ?i * XNum q)%js with (XNum (xy + i * q)).
    change (XNum x2 + XNum ?i * XNum ?j)%js with (XNum (x2 + i * j)).
    destruct (IH (S from) (x + inject_Z (Z.of_nat from))%Q (y + q)%Q
                 (xy + inject_Z (Z.of_nat from) * q)%Q
                 (x2 + inject_Z (Z.of_nat from) * inject_Z (Z.of_nat from))%Q)
      as (x' & y' & xy' & x2' & -> & Hx & Hy & Hxy & Hx2).
    exists x', y', xy', x2'. cbn [sumk sumk2 sumq wsum].
    split; [reflexivity|]. repeat split; lra.
Qed.

Lemma sumk_closed (from len : nat) :
  let f := inject_Z (Z.of_nat from) in
  let n := inject_Z (Z.of_nat len) in
  (sumk from len == n * f + n * (n - 1) / 2)%Q /\
  (sumk2 from len == n * f * f + f * n * (n - 1) + (n - 1) * n * (2 * n - 1) / 6)%Q.
Proof.
  cbv zeta. revert from. induction len as [|len IH]; intros from.
  - cbn [sumk sumk2]. change (inject_Z (Z.of_nat 0)) with 0%Q. split; field.
  - cbn [sumk sumk2]. destruct (IH (S from)) as [-> ->].
    rewrite !inject_S. split; field.
Qed.

Lemma line_sums (f : nat -> Q) (a b : Q) (from len : nat) :
  (forall k, f k == a + b * inject_Z (Z.of_nat k))%Q ->
  (sumq (map f (seq from len)) == inject_Z (Z.of_nat len) * a + b * sumk from len)%Q /\
  (wsum from (map f (seq from len)) == a * sumk from len + b * sumk2 from len)%Q.
Proof.
  intros Hf. revert from. induction len as [|len IH]; intros from.
  - cbn [seq map sumq wsum sumk sumk2]. change (inject_Z (Z.of_nat 0)) with 0%Q.
    split; lra.
  - cbn [seq map sumq wsum sumk sumk2]. destruct (IH (S from)) as [-> ->].
    rewrite inject_S, Hf. split; lra.
Qed.

(** The denominator of the slope, [n * sumX2 - sumX * sumX], is
    [n^2 (n^2 - 1) / 12]: positive from two values on. *)
Lemma denominator_positive (len : nat) :
  (2 <= len)%nat ->
  let n := inject_Z (Z.of_nat len) in
  (0 < n * sumk2 0 len - sumk 0 len * sumk 0 len)%Q.
Proof.
  intros Hlen. cbv zeta. destruct (sumk_closed 0 len) as [-> ->].
  change (inject_Z (Z.of_nat 0)) with 0%Q.
  set (n := inject_Z (Z.of_nat len)).
  assert (2 <= n)%Q as Hn.
  { subst n. change 2%Q with (inject_Z 2). rewrite <- Zle_Qle. lia. }
  assert (n * (n * 0 * 0 + 0 * n * (n - 1) + (n - 1) * n * (2 * n - 1) / 6)
          - (n * 0 + n * (n - 1) / 2) * (n * 0 + n * (n - 1) / 2)
          == (n * n) * ((n - 1) * (n + 1)) / 12)%Q as -> by field.
  apply Qlt_shift_div_l; [lra|]. rewrite Qmult_0_l.
  apply Qmult_lt_0_compat; apply Qmult_lt_0_compat; lra.
Qed.

Lemma trendline_exact (qs : list Q) :
  (2 <= length qs)%nat ->
  let n := inject_Z (Z.of_nat (length qs)) in
  let d := (n * sumk2 0 (length qs) - sumk 0 (length qs) * sumk 0 (length qs))%Q in
  exists s i,
    calculateTrendline (map XNum qs) = Some {| slope := XNum s; intercept := XNum i |} /\
    (s == (n * wsum 0 qs - sumk 0 (length qs) * sumq qs) / d)%Q /\
    (i == (sumq qs - s * sumk 0 (length qs)) / n)%Q.
Proof.
  intros Hlen. cbv zeta. unfold calculateTrendline. rewrite length_map.
  destruct (length qs <? 2)%nat eqn:E; [apply Nat.ltb_lt in E; lia|]. clear E.
  change (lit 0) with (XNum 0).
  destruct (fold_sums qs 0 0 0 0 0) as (x & y & xy & x2 & -> & Hx & Hy & Hxy & Hx2).
  cbn [sumX sumY sumXY sumX2]. rewrite of_nat_exact.
  pose proof (denominator_positive (length qs) Hlen) as Hd. cbv zeta in Hd.
  set (n := inject_Z (Z.of_nat (length qs))) in *.
  assert (2 <= n)%Q as Hn.
  { subst n. change 2%Q with (inject_Z 2). rewrite <- Zle_Qle. lia. }
  change (XNum n * XNum xy - XNum x * XNum y)%js with (XNum (n * xy - x * y)).
  change (XNum n * XNum x2 - XNum x * XNum x)%js with (XNum (n * x2 - x * x)).
  assert (n * x2 - x * x == n * sumk2 0 (length qs) - sumk 0 (length qs) * sumk 0 (length qs))%Q
    as Hden by (rewrite Hx, Hx2; ring).
  change (XNum ?u / XNum ?w)%js with (xdiv (XNum u) (XNum w)).
  rewrite xdiv_num by (rewrite Hden; lra).
  change (XNum y - XNum ?s * XNum x)%js with (XNum (y - s * x)).
  change (XNum ?u / XNum n)%js with (xdiv (XNum u) (XNum n)).
  rewrite xdiv_num by lra.
  eexists. eexists. split; [reflexivity|]. split.
  - rewrite Hden, Hx, Hy, Hxy. rewrite !Qplus_0_l. reflexivity.
  - rewrite Hx, Hy. rewrite !Qplus_0_l. reflexivity.
Qed.

(** On two values or more, all numbers, the regression never divides by
    zero: slope and intercept are numbers, and they solve the normal
    equations of least squares,
    [slope * sum k^2 + intercept * sum k = sum k * y_k] and
    [slope * sum k + intercept * n = sum y_k]. On fewer values the answer
    is [null]. *)
Theorem calculateTrendline_least_squares (qs : list Q) :
  (2 <= length qs)%nat ->
  let n := length qs in
  exists s i,
    calculateTrendline (map XNum qs) = Some {| slope := XNum s; intercept := XNum i |} /\
    (s * sumk2 0 n + i * sumk 0 n == wsum 0 qs)%Q /\
    (s * sumk 0 n + i * inject_Z (Z.of_nat n) == sumq qs)%Q.
Proof.
  intros Hlen. cbv zeta.
  destruct (trendline_exact qs Hlen) as (s & i & Hrun & Hs & Hi). cbv zeta in Hs, Hi.
  exists s, i. split; [exact Hrun|].
  pose proof (denominator_positive (length qs) Hlen) as Hd. cbv zeta in Hd.
  set (n := inject_Z (Z.of_nat (length qs))) in *.
  assert (2 <= n)%Q as Hn.
  { subst n. change 2%Q with (inject_Z 2). rewrite <- Zle_Qle. lia. }
  set (sx := sumk 0 (length qs)) in *. set (sx2 := sumk2 0 (length qs)) in *.
  set (sy := sumq qs) in *. set (sxy := wsum 0 qs) in *.
  assert (s * (n * sx2 - sx * sx) == n * sxy - sx * sy)%Q as Hs'
    by (rewrite Hs; field; lra).
  assert (i * n == sy - s * sx)%Q as Hi' by (rewrite Hi; field; lra).
  split; [|lra].
  assert (n * (s * sx2 + i * sx) == n * sxy)%Q as Hmul.
  { assert (n * (s * sx2 + i * sx) == s * (n * sx2 - sx * sx) + sx * (s * sx + i * n))%Q
      as -> by ring.
    rewrite Hs'. assert (s * sx + i * n == sy)%Q as -> by lra. ring. }
  apply (Qmult_inj_l _ _ n); [lra | exact Hmul].
Qed.

Lemma calculateTrendline_least_squares_witness :
  (2 <= length [1; 3; 2]%Q)%nat /\
  exists s i,
    calculateTrendline (map XNum [1; 3; 2]%Q)
      = Some {| slope := XNum s; intercept := XNum i |} /\
    (s * sumk2 0 3 + i * sumk 0 3 == wsum 0 [1; 3; 2])%Q /\
    (s * sumk 0 3 + i * inject_Z 3 == sumq [1; 3; 2])%Q.
Proof.
  assert (2 <= length [1; 3; 2]%Q)%nat as Hlen by (simpl; lia).
  split; [exact Hlen|].
  exact (calculateTrendline_least_squares [1; 3; 2]%Q Hlen).
Defined.

Lemma trendline_on_line (f : nat -> Q) (a b : Q) (len : nat) :
  (forall k, f k == a + b * inject_Z (Z.of_nat k))%Q ->
  (2 <= len)%nat ->
  exists s i,
    calculateTrendline (map XNum (map f (seq 0 len)))
      = Some {| slope := XNum s; intercept := XNum i |} /\
    (s == b)%Q /\ (i == a)%Q.
Proof.
  intros Hf Hlen.
  destruct (line_sums f a b 0 len Hf) as (Hy & Hxy).
  assert (length (map f (seq 0 len)) = len) as Hl by now rewrite length_map, length_seq.
  destruct (trendline_exact (map f (seq 0 len))) as (s & i & Hrun & Hs & Hi);
    [rewrite Hl; exact Hlen|].
  cbv zeta in Hs, Hi. rewrite Hl in Hs, Hi. rewrite Hy, Hxy in Hs. rewrite Hy in Hi.
  pose proof (denominator_positive len Hlen) as Hd. cbv zeta in Hd.
  set (n := inject_Z (Z.of_nat len)) in *.
  assert (2 <= n)%Q as Hn.
  { subst n. change 2%Q with (inject_Z 2). rewrite <- Zle_Qle. lia. }
  set (sx := sumk 0 len) in *. set (sx2 := sumk2 0 len) in *.
  exists s, i. split; [exact Hrun|].
  assert (s == b)%Q as Hsb by (rewrite Hs; field; lra).
  split; [exact Hsb|]. rewrite Hi, Hsb. field. lra.
Qed.

(** Values that lie on a line [a + b * k] give back the line: the slope
    is [b] and the intercept [a]. *)
Theorem calculateTrendline_recovers_line (a b : Q) (len : nat) :
  (2 <= len)%nat ->
  exists s i,
    calculateTrendline (map (fun k => XNum (a + b * inject_Z (Z.of_nat k))) (seq 0 len))
      = Some {| slope := XNum s; intercept := XNum i |} /\
    (s == b)%Q /\ (i == a)%Q.
Proof.
  intros Hlen.
  destruct (trendline_on_line (fun k => a + b * inject_Z (Z.of_nat k))%Q a b len
              (fun k => Qeq_refl _) Hlen) as (s & i & Hrun & Hs & Hi).
  exists s, i. rewrite map_map in Hrun.
  split; [exact Hrun|]. split; assumption.
Qed.

Lemma calculateTrendline_recovers_line_witness :
  (2 <= 20)%nat /\
  exists s i,
    calculateTrendline
      (map (fun k => XNum (1.1 + 0.002 * inject_Z (Z.of_nat k))) (seq 0 20))
      = Some {| slope := XNum s; intercept := XNum i |} /\
    (s == 0.002)%Q /\ (i == 1.1)%Q.
Proof.
  assert (2 <= 20)%nat as Hlen by lia.
  split; [exact Hlen|].
  exact (calculateTrendline_recovers_line 1.1 0.002 20 Hlen).
Defined.

(** ** Triangles between two lines *)

Lemma slice_last_app {A} (older recent : list A) :
  slice_last (length recent) (older ++ recent) = recent.
Proof.
  unfold slice_last. rewrite length_app.
  replace (length older + length recent - length recent)%nat with (length older) by lia.
  now rewrite skipn_app, skipn_all, Nat.sub_diag.
Qed.

(** When the highs and the lows of the last twenty candles lie on two
    lines, [detectTriangles] decides by the two slopes alone: an ascending
    triangle for flat highs over rising lows, with the level of the highs
    as resistance; else a descending triangle for flat lows under falling
    highs; else a symmetrical triangle for falling highs over rising lows,
    whose test of the convergence rate against 0.0002 then always
    succeeds; and nothing otherwise. *)
Theorem detectTriangles_between_lines
    (older : list (Candle xnum)) (ah bh al bl : Q) :
  let flat (b : Q) := (Qabs b < 0.0001)%Q in
  match detectTriangles (older ++ channel ah bh al bl) with
  | Some (ASCENDING_TRIANGLE (XNum r) (XNum s)) =>
      (flat bh /\ 0.0001 < bl /\ r == ah /\ s == bl)%Q
  | Some (DESCENDING_TRIANGLE (XNum r) (XNum s)) =>
      (~ (flat bh /\ 0.0001 < bl) /\ flat bl /\ bh < -0.0001 /\ r == al /\ s == bh)%Q
  | Some (SYMMETRICAL_TRIANGLE (XNum c)) =>
      (bh < -0.0001 /\ 0.0001 < bl /\ c == bl - bh)%Q
  | None =>
      (~ (flat bh /\ 0.0001 < bl) /\ ~ (flat bl /\ bh < -0.0001) /\
       ~ (bh < -0.0001 /\ 0.0001 < bl))%Q
  | Some _ => False
  end.
Proof.
  cbv zeta. unfold detectTriangles.
  assert (length (channel ah bh al bl) = 20%nat) as Hlen
    by (unfold channel; now rewrite length_map, length_seq).
  assert ((length (older ++ channel ah bh al bl) <? 20)%nat = false) as ->
    by (apply Nat.ltb_ge; rewrite length_app; lia).
  assert (slice_last 20 (older ++ channel ah bh al bl) = channel ah bh al bl) as Hwin.
  { pose proof (slice_last_app older (channel ah bh al bl)) as Hs.
    rewrite Hlen in Hs. exact Hs. }
  cbv zeta. rewrite Hwin.
  assert (map h (channel ah bh al bl)
          = map XNum (map (fun k => ah + bh * inject_Z (Z.of_nat k))%Q (seq 0 20))) as ->
    by (unfold channel; now rewrite !map_map).
  assert (map l (channel ah bh al bl)
          = map XNum (map (fun k => al + bl * inject_Z (Z.of_nat k))%Q (seq 0 20))) as ->
    by (unfold channel; now rewrite !map_map).
  destruct (trendline_on_line _ ah bh 20 (fun k => Qeq_refl _) ltac:(lia))
    as (hs & hi & -> & Hhs & Hhi).
  destruct (trendline_on_line _ al bl 20 (fun k => Qeq_refl _) ltac:(lia))
    as (ls & li & -> & Hls & Hli).
  cbn [slope intercept].
  change (nabs (XNum ?x)) with (XNum (Qabs x)).
  change (XNum (Qabs hs) + XNum ls)%js with (XNum (Qabs hs + ls)).
  change (XNum ?x <? lit ?c)%js with (Qltb x c).
  change (lit ?c <? XNum ?x)%js with (Qltb c x).
  destruct (Qltb (Qabs hs) 0.0001) eqn:E1;
    [apply Qltb_lt in E1 | apply Qltb_ge in E1]; rewrite Hhs in E1;
  (destruct (Qltb 0.0001 ls) eqn:E2;
    [apply Qltb_lt in E2 | apply Qltb_ge in E2]; rewrite Hls in E2);
  (destruct (Qltb (Qabs ls) 0.0001) eqn:E3;
    [apply Qltb_lt in E3 | apply Qltb_ge in E3]; rewrite Hls in E3);
  (destruct (Qltb hs (-0.0001)) eqn:E4;
    [apply Qltb_lt in E4 | apply Qltb_ge in E4]; rewrite Hhs in E4);
  cbn [andb];
  try (assert (Qabs bh == - bh)%Q as Habs by (apply Qabs_neg; lra);
       assert (Qltb 0.0002 (Qabs hs + ls) = true) as ->
         by (apply Qltb_lt; rewrite Hhs, Hls, Habs; lra));
  repeat match goal with
         | |- _ /\ _ => split
         | |- ~ _ => intros [? ?]
         end;
  try assumption; try lra;
  try (rewrite Hhs, Hls, Habs; lra).
Qed.

(** ** Support and resistance clusters *)

Section Clusters.
Context {N : Type} `{JSNumber N} `{JSAbs N}.
Variable sort_levels : list (Level N) -> list (Level N).
Variable sort_clusters : list (Cluster N) -> list (Cluster N).
Hypothesis sort_levels_permutes : forall lv, Permutation (sort_levels lv) lv.
Hypothesis sort_clusters_permutes : forall cs, Permutation (sort_clusters cs) cs.

Lemma total_touches_app (c1 c2 : list (Cluster N)) :
  total_touches (c1 ++ c2) = (total_touches c1 + total_touches c2)%nat.
Proof.
  unfold total_touches.
  induction c1 as [|c c1 IH]; cbn [app fold_right]; [reflexivity | rewrite IH; lia].
Qed.

Lemma total_touches_perm (c1 c2 : list (Cluster N)) :
  Permutation c1 c2 -> total_touches c1 = total_touches c2.
Proof. unfold total_touches. induction 1; cbn [fold_right] in *; lia. Qed.

Lemma total_touches_filter (cs : list (Cluster N)) :
  (total_touches (List.filter (is_cluster support) cs)
   + total_touches (List.filter (is_cluster resistance) cs))%nat = total_touches cs.
Proof.
  unfold total_touches. induction cs as [|c cs IH]; [reflexivity|].
  cbn [List.filter].
  assert (is_cluster support c = negb (is_cluster resistance c)) as ->
    by (unfold is_cluster; now destruct (cl_type c)).
  destruct (is_cluster resistance c); cbn [negb fold_right]; lia.
Qed.

Lemma close_cluster_ok (cur : list (Level N)) (clusters : list (Cluster N)) :
  Forall well_made clusters ->
  Forall well_made (close_cluster cur clusters) /\
  (total_touches (close_cluster cur clusters) <= total_touches clusters + length cur)%nat.
Proof.
  intros Hok. unfold close_cluster.
  destruct (3 <=? length cur)%nat eqn:E; [|split; [exact Hok | lia]].
  apply Nat.leb_le in E. split.
  - apply Forall_app. split; [exact Hok|]. constructor; [|constructor].
    split; [exact E | reflexivity].
  - rewrite total_touches_app. unfold total_touches. cbn [fold_right touches]. lia.
Qed.

Lemma cluster_fold_ok (tolerance : N) (levels cur : list (Level N))
    (clusters : list (Cluster N)) :
  Forall well_made clusters ->
  let r := fold_left (cluster_step tolerance) levels (cur, clusters) in
  Forall well_made (snd r) /\
  (total_touches (snd r) + length (fst r)
   <= total_touches clusters + length cur + length levels)%nat.
Proof.
  cbv zeta. revert cur clusters.
  induction levels as [|lv levels IH]; intros cur clusters Hok.
  - cbn [fold_left fst snd length]. split; [exact Hok | lia].
  - cbn [fold_left length].
    destruct (cluster_step tolerance (cur, clusters) lv) as [cur1 cl1] eqn:Hstep.
    unfold cluster_step in Hstep.
    destruct (_ <? tolerance)%js in Hstep; injection Hstep as <- <-.
    + destruct (IH (cur ++ [lv]) clusters Hok) as [Hok' Hle].
      split; [exact Hok'|]. rewrite length_app in Hle. cbn [length] in Hle. lia.
    + destruct (close_cluster_ok cur clusters Hok) as [Hok1 Hle1].
      destruct (IH [lv] _ Hok1) as [Hok' Hle].
      split; [exact Hok'|]. cbn [length] in Hle. lia.
Qed.

Lemma clusters_of_ok (tolerance : N) (sorted : list (Level N)) :
  Forall well_made (clusters_of tolerance sorted) /\
  (total_touches (clusters_of tolerance sorted) <= length sorted)%nat.
Proof.
  unfold clusters_of.
  destruct sorted as [|first rest]; [split; [constructor | unfold total_touches; cbn; lia]|].
  pose proof (cluster_fold_ok tolerance rest [first] [] (List.Forall_nil _)) as Hfold.
  cbv zeta in Hfold.
  destruct (fold_left (cluster_step tolerance) rest ([first], [])) as [cur clusters].
  cbn [fst snd] in Hfold. destruct Hfold as [Hok Hle].
  destruct (close_cluster_ok cur clusters Hok) as [Hok' Hle'].
  split; [exact Hok'|]. unfold total_touches in *. cbn [length fold_right] in *. lia.
Qed.

Lemma all_levels_length (candles : list (Candle N)) :
  length (all_levels candles) = (2 * length candles)%nat.
Proof.
  unfold all_levels.
  enough (forall from,
             length (flat_map
                       (fun '(index, candle) =>
                          [ {| lv_price := h candle; lv_type := high; lv_index := index |};
                            {| lv_price := l candle; lv_type := low; lv_index := index |} ])
                       (combine (seq from (length candles)) candles))
             = (2 * length candles)%nat) as Hall by apply Hall.
  induction candles as [|c candles IH]; intros from; [reflexivity|].
  cbn [length seq combine flat_map app]. rewrite IH. lia.
Qed.

(** Every support and every resistance level reported stands for a
    cluster of at least three touches and has the strength
    [min(1, touches / 10)]; a support is a cluster with no more highs than
    lows. No touch counts for two levels: together the levels have at most
    two touches per candle. On fewer than thirty candles nothing is
    reported. This holds however the host's sort orders levels of equal
    price and clusters of equal strength. *)
Theorem support_resistance_levels (candles : list (Candle N)) (tolerance : N) :
  let sr := identifySupportResistance sort_levels sort_clusters candles tolerance in
  Forall (fun c => well_made c /\ cl_type c = support) (sr_support sr) /\
  Forall (fun c => well_made c /\ cl_type c = resistance) (sr_resistance sr) /\
  (total_touches (sr_support sr) + total_touches (sr_resistance sr)
   <= 2 * length candles)%nat /\
  ((length candles < 30)%nat -> sr_support sr = [] /\ sr_resistance sr = []).
Proof.
  cbv zeta. unfold identifySupportResistance.
  destruct (length candles <? 30)%nat eqn:E.
  - cbn. repeat split; try constructor; lia.
  - apply Nat.ltb_ge in E. cbn [sr_support sr_resistance].
    destruct (clusters_of_ok tolerance (sort_levels (all_levels candles))) as [Hok Hle].
    rewrite (Permutation_length (sort_levels_permutes _)), all_levels_length in Hle.
    set (clusters := clusters_of tolerance (sort_levels (all_levels candles))) in *.
    assert (forall t, Forall (fun c => well_made c /\ cl_type c = t)
                             (sort_clusters (List.filter (is_cluster t) clusters))) as Hside.
    { intros t. rewrite (sort_clusters_permutes _).
      apply List.Forall_forall. intros c Hc. apply filter_In in Hc as [Hc Ht].
      split; [exact (proj1 (List.Forall_forall _ _) Hok c Hc)|].
      unfold is_cluster in Ht. destruct (cl_type c), t; (reflexivity || discriminate). }
    split; [apply Hside|]. split; [apply Hside|]. split; [|lia].
    rewrite !(total_touches_perm _ _ (sort_clusters_permutes _)), total_touches_filter.
    exact Hle.
Qed.

End Clusters.

Lemma stable_sort_permutes {A} (lt : A -> A -> bool) (l : list A) :
  Permutation (stable_sort lt l) l.
Proof.
  assert (forall x sorted, Permutation (insert_sorted lt x sorted) (x :: sorted)) as Hins.
  { intros x sorted. induction sorted as [|y rest IH]; cbn [insert_sorted]; [reflexivity|].
    destruct (lt y x); [|reflexivity].
    rewrite IH. apply perm_swap. }
  induction l as [|x l IH]; cbn [stable_sort fold_right]; [reflexivity|].
  fold (stable_sort lt l). rewrite Hins. now constructor.
Qed.

(** Twenty-eight candles between 1.1 and 1.2 and two between 1.3 and 1.5,
    sorted as the host sorts them: the 28 lows make one support and the 28
    highs one resistance, both of strength 1, and the four levels of the
    last two candles, two touches each, are dropped. *)
Lemma support_resistance_levels_witness :
  let candles : list (Candle float) :=
    app (repeat {| h := lit 1.2; l := lit 1.1 |} 28)
        (repeat {| h := lit 1.5; l := lit 1.3 |} 2) in
  let sr := identifySupportResistance sort_by_price sort_by_strength candles (lit 0.002) in
  (forall lv : list (Level float), Permutation (sort_by_price lv) lv) /\
  (forall cs : list (Cluster float), Permutation (sort_by_strength cs) cs) /\
  map touches (sr_support sr) = [28%nat] /\
  map touches (sr_resistance sr) = [28%nat] /\
  map strength (sr_support sr) = [lit 1] /\
  map strength (sr_resistance sr) = [lit 1] /\
  Forall (fun c => well_made c /\ cl_type c = support) (sr_support sr) /\
  Forall (fun c => well_made c /\ cl_type c = resistance) (sr_resistance sr) /\
  (total_touches (sr_support sr) + total_touches (sr_resistance sr) <= 2 * 30)%nat.
Proof.
  intros candles sr.
  assert (forall lv : list (Level float), Permutation (sort_by_price lv) lv) as Hl
    by (intros lv; apply stable_sort_permutes).
  assert (forall cs : list (Cluster float), Permutation (sort_by_strength cs) cs) as Hc
    by (intros cs; apply stable_sort_permutes).
  split; [exact Hl|]. split; [exact Hc|].
  split; [vm_compute; reflexivity|]. split; [vm_compute; reflexivity|].
  split; [vm_compute; reflexivity|]. split; [vm_compute; reflexivity|].
  destruct (support_resistance_levels sort_by_price sort_by_strength Hl Hc candles (lit 0.002))
    as (Hsup & Hres & Hle & _).
  split; [exact Hsup|]. split; [exact Hres|]. exact Hle.
Defined.

End PatternProperties.

(* ===================================================================== *)
(** * The summary statistics of the Monte Carlo simulation *)
(* ===================================================================== *)

Section SummaryStatistics.
Import BacktestingEngine.

Lemma fold_min_num (qs : list Q) (x : Q) :
  exists m, fold_left nmin (map XNum qs) (XNum x) = XNum m /\
            In m (x :: qs) /\ Forall (fun q => m <= q)%Q (x :: qs).
Proof.
  revert x. induction qs as [|q qs IH]; intros x.
  - exists x. split; [reflexivity|]. split; [now left|]. constructor; [lra | constructor].
  - cbn [map fold_left].
    change (nmin (XNum x) (XNum q)) with (XNum (if Qle_bool x q then x else q)).
    destruct (Qle_bool x q) eqn:E;
      [apply Qle_bool_iff in E
      | apply not_true_iff_false in E; rewrite Qle_bool_iff in E; apply Qnot_le_lt in E].
    + destruct (IH x) as (m & -> & Hin & Hall). exists m. split; [reflexivity|].
      inversion Hall as [|? ? Hmx Hrest]; subst. split.
      * destruct Hin as [<-|Hin]; [now left | now right; right].
      * constructor; [exact Hmx|]. constructor; [lra | exact Hrest].
    + destruct (IH q) as (m & -> & Hin & Hall). exists m. split; [reflexivity|].
      inversion Hall as [|? ? Hmq Hrest]; subst. split.
      * now right.
      * constructor; [lra|]. constructor; [exact Hmq | exact Hrest].
Qed.

Lemma fold_max_num (qs : list Q) (x : Q) :
  exists m, fold_left nmax (map XNum qs) (XNum x) = XNum m /\
            In m (x :: qs) /\ Forall (fun q => q <= m)%Q (x :: qs).
Proof.
  revert x. induction qs as [|q qs IH]; intros x.
  - exists x. split; [reflexivity|]. split; [now left|]. constructor; [lra | constructor].
  - cbn [map fold_left].
    change (nmax (XNum x) (XNum q)) with (XNum (if Qle_bool x q then q else x)).
    destruct (Qle_bool x q) eqn:E;
      [apply Qle_bool_iff in E
      | apply not_true_iff_false in E; rewrite Qle_bool_iff in E; apply Qnot_le_lt in E].
    + destruct (IH q) as (m & -> & Hin & Hall). exists m. split; [reflexivity|].
      inversion Hall as [|? ? Hmq Hrest]; subst. split.
      * now right.
      * constructor; [lra|]. constructor; [exact Hmq | exact Hrest].
    + destruct (IH x) as (m & -> & Hin & Hall). exists m. split; [reflexivity|].
      inversion Hall as [|? ? Hmx Hrest]; subst. split.
      * destruct Hin as [<-|Hin]; [now left | now right; right].
      * constructor; [exact Hmx|]. constructor; [lra | exact Hrest].
Qed.

Lemma sum_between (lo hi : Q) (qs : list Q) :
  Forall (fun q => lo <= q <= hi)%Q qs ->
  (inject_Z (Z.of_nat (length qs)) * lo <= fold_right Qplus 0 qs
   <= inject_Z (Z.of_nat (length qs)) * hi)%Q.
Proof.
  induction 1 as [|q qs Hq _ IH]; cbn [length fold_right].
  - change (inject_Z (Z.of_nat 0)) with 0%Q. lra.
  - rewrite inject_S. lra.
Qed.

(** On a non-empty sample of numbers, [Math.min], [Math.max] and
    [average] answer numbers: the least and the greatest value of the
    sample, and a mean that lies between the two. The average of an empty
    sample is NaN, the quotient [0 / 0]. *)
Theorem average_between_extremes (qs : list Q) :
  qs <> [] ->
  exists lo hi mean,
    min_of (map XNum qs) = XNum lo /\
    max_of (map XNum qs) = XNum hi /\
    average (map XNum qs) = XNum mean /\
    In lo qs /\ In hi qs /\
    Forall (fun q => lo <= q <= hi)%Q qs /\
    (lo <= mean <= hi)%Q /\
    average ([] : list xnum) = XNaN.
Proof.
  intros Hne. destruct qs as [|x qs]; [congruence|].
  unfold min_of, max_of, average. cbn [map].
  destruct (fold_min_num qs x) as (lo & -> & Hlo & Hall_lo).
  destruct (fold_max_num qs x) as (hi & -> & Hhi & Hall_hi).
  assert (Forall (fun q => lo <= q <= hi)%Q (x :: qs)) as Hall.
  { apply Forall_and. split; assumption. }
  change (lit 0) with (XNum 0).
  change (XNum x :: map XNum qs) with (map XNum (x :: qs)).
  rewrite fold_add_num, length_map, of_nat_exact.
  pose proof (sum_between lo hi (x :: qs) Hall) as Hsum.
  pose proof (fold_left_Qplus (x :: qs) 0) as Hfold.
  set (l := x :: qs) in *.
  assert (0 < inject_Z (Z.of_nat (length l)))%Q as Hn.
  { change 0%Q with (inject_Z 0). rewrite <- Zlt_Qlt. subst l. cbn [length]. lia. }
  set (n := inject_Z (Z.of_nat (length l))) in *.
  change (XNum ?u / XNum n)%js with (xdiv (XNum u) (XNum n)).
  rewrite xdiv_num by lra.
  exists lo, hi. eexists. repeat (split; [first [reflexivity | assumption]|]).
  split; [|reflexivity].
  rewrite Hfold, Qplus_0_l.
  split; [apply Qle_shift_div_l | apply Qle_shift_div_r]; lra.
Qed.

Lemma average_between_extremes_witness :
  [52.5; 47; 61]%Q <> [] /\
  exists lo hi mean,
    min_of (map XNum [52.5; 47; 61]%Q) = XNum lo /\
    max_of (map XNum [52.5; 47; 61]%Q) = XNum hi /\
    average (map XNum [52.5; 47; 61]%Q) = XNum mean /\
    (lo == 47 /\ hi == 61 /\ lo <= mean <= hi)%Q.
Proof.
  assert ([52.5; 47; 61]%Q <> []) as Hne by discriminate.
  split; [exact Hne|].
  destruct (average_between_extremes [52.5; 47; 61]%Q Hne)
    as (lo & hi & mean & Hlo & Hhi & Hmean & _ & _ & _ & Hbetween & _).
  exists lo, hi, mean. split; [exact Hlo|]. split; [exact Hhi|]. split; [exact Hmean|].
  injection Hlo as <-. injection Hhi as <-.
  split; [reflexivity|]. split; [reflexivity | exact Hbetween].
Defined.

End SummaryStatistics.
